(** * Reliability and completeness estimators of [calc_comp_rel.py]

    A shallow embedding of [calculate_reliability] and
    [calculate_completeness], and the properties of the box-filter and
    ratio engine they implement.

    - Python floats are kept behind an interface, [PyFloat]: the
      comparisons, literals and arithmetic the two functions use, with the
      IEEE-754 facts about comparison (a NaN compares false, [<] is
      irreflexive).  The order facts about rounded arithmetic that some
      properties need are a second interface, [PyFloatArith].  [Binary64]
      implements both with Rocq's primitive binary64 floats (what CPython
      runs on); its laws are proved from the rounding functions of
      [SpecFloat].
    - A pandas DataFrame is the list of its rows, [df.loc[mask]] is
      [filter]; a missing cell is a NaN.
    - A function body runs in the monad [M]: it either raises or returns,
      and it records every [.loc] selection it performs, in order.
    - [_get_val_limits] and the two modes of [main] handle Python values
      that are not floats yet, [PyValue]: a row of the batch frame is the
      list of its labelled cells, and the estimators convert what they
      are given with [float(..)] as they go, [Untyped].  Reading the
      files, the names of the output files and the printed lines are
      outside the model. *)

From Stdlib Require Import Bool Arith ZArith Lia List String.
From Stdlib Require Import Floats.
From Stdlib Require Import Ascii Permutation.
Import ListNotations.

Set Warnings "-inexact-float".
Local Open Scope string_scope.
Local Open Scope list_scope.
Local Open Scope nat_scope.
Local Open Scope bool_scope.

(** ** Python floats *)

(** The float operations the source uses.  [lt a b] is Python's [a < b];
    Python's [a > b] is [lt b a].  [truediv m n] is [m / n] on two ints
    ([len(..) / len(..)]) for [n <> 0]. *)
Class PyFloat (F : Type) : Type := {
  nan : F;
  lit_0 : F;
  lit_1 : F;
  lit_0_2 : F;
  lit_20 : F;
  lt : F -> F -> bool;
  le : F -> F -> bool;
  add : F -> F -> F;
  sub : F -> F -> F;
  opp : F -> F;
  truediv : nat -> nat -> F;
  lt_nan_l : forall x, lt nan x = false;
  lt_nan_r : forall x, lt x nan = false;
  le_nan_l : forall x, le nan x = false;
  le_nan_r : forall x, le x nan = false;
  lt_asym : forall x y, lt x y = true -> lt y x = false;
  le_not_gt : forall x y, le x y = true -> lt y x = false
}.

(** Order facts about the rounded arithmetic: a sum does not decrease when
    an operand grows, a difference is the sum with the opposite, and the
    quotient of two lengths [m <= n] lies between 0 and 1. *)
Class PyFloatArith (F : Type) `{PyFloat F} : Prop := {
  add_upper_mono : forall c u u' v,
    le u u' = true -> lt v (add c u) = true -> lt v (add c u') = true;
  add_lower_mono : forall c u u' v,
    le u u' = true -> lt (add c u') v = true -> lt (add c u) v = true;
  sub_add_opp : forall c l, sub c l = add c (opp l);
  opp_le : forall l l', le l l' = true -> le (opp l') (opp l) = true;
  add_nonpos : forall l u, le (add l u) lit_0 = true -> le u (opp l) = true;
  truediv_bounds : forall m n, m <= n -> 0 < n ->
    le lit_0 (truediv m n) = true /\ le (truediv m n) lit_1 = true
}.

Declare Scope pyfloat_scope.
Delimit Scope pyfloat_scope with py.
Notation "a <. b" := (lt a b) (at level 65, no associativity) : pyfloat_scope.
Notation "a >. b" := (lt b a) (at level 65, no associativity) : pyfloat_scope.
Notation "a <=. b" := (le a b) (at level 65, no associativity) : pyfloat_scope.
Notation "a +. b" := (add a b) (at level 50, left associativity) : pyfloat_scope.
Notation "a -. b" := (sub a b) (at level 50, left associativity) : pyfloat_scope.
Local Open Scope pyfloat_scope.

(** ** The catalog and the keyword arguments *)

(** One row of the reference DataFrame, with the columns the two functions
    read. *)
Module Df.
Record Row (F : Type) : Type := mkRow {
  prot_rh20 : F;
  power : F;
  Tmag : F;
  snr : F;
  status : string
}.
Arguments mkRow {F} _ _ _ _ _.
Arguments prot_rh20 {F} _.
Arguments power {F} _.
Arguments Tmag {F} _.
Arguments snr {F} _.
Arguments status {F} _.

Inductive column : Type := c_prot_rh20 | c_power | c_Tmag | c_snr | c_status.
End Df.

Definition DataFrame (F : Type) : Type := list (Df.Row F).

(** The arguments of [calculate_reliability] and [calculate_completeness]
    after [df], already converted by [float(..)]; [None] is Python's
    [None]. *)
Record Args (F : Type) : Type := mkArgs {
  input_period : F;
  period_lower_limit : F;
  period_upper_limit : F;
  ls : option F;
  ls_lower_limit : F;
  ls_upper_limit : F;
  t : option F;
  t_lower_limit : F;
  t_upper_limit : F;
  snr : option F;
  snr_lower_limit : F;
  snr_upper_limit : F;
  mode : string
}.
Arguments mkArgs {F} _ _ _ _ _ _ _ _ _ _ _ _ _.
Arguments input_period {F} _.
Arguments period_lower_limit {F} _.
Arguments period_upper_limit {F} _.
Arguments ls {F} _.
Arguments ls_lower_limit {F} _.
Arguments ls_upper_limit {F} _.
Arguments t {F} _.
Arguments t_lower_limit {F} _.
Arguments t_upper_limit {F} _.
Arguments snr {F} _.
Arguments snr_lower_limit {F} _.
Arguments snr_upper_limit {F} _.
Arguments mode {F} _.

(** ** The execution monad *)

(** What a call can raise. *)
Inductive exn : Type :=
| AssertionError (msg : string)
| ZeroDivisionError.

(** One [src.loc[mask on column c]] selection and the rows it kept. *)
Inductive event (F : Type) : Type :=
| Loc (c : Df.column) (src kept : DataFrame F).
Arguments Loc {F} _ _ _.

(** A computation: the selections performed so far, and an exception or a
    value. *)
Definition M (F A : Type) : Type := (list (event F) * (exn + A))%type.

Definition ret {F A} (a : A) : M F A := ([], inr a).

Definition raise {F A} (e : exn) : M F A := ([], inl e).

Definition bind {F A B} (m : M F A) (k : A -> M F B) : M F B :=
  match m with
  | (tr, inl e) => (tr, inl e)
  | (tr, inr a) => let (tr', r) := k a in (tr ++ tr', r)
  end.

Notation "x <- c ;; k" := (bind c (fun x => k))
  (at level 61, c at next level, right associativity).
Notation "c ;;; k" := (bind c (fun _ => k))
  (at level 61, right associativity).

(** [assert cond, msg] *)
Definition assert_ {F} (cond : bool) (msg : string) : M F unit :=
  if cond then ret tt else raise (AssertionError msg).

(** [src.loc[mask]], the mask computed from column [c] *)
Definition loc {F} (c : Df.column) (mask : Df.Row F -> bool) (src : DataFrame F)
  : M F (DataFrame F) :=
  ([Loc c src (filter mask src)], inr (filter mask src)).

(** [len(num) / len(den)] *)
Definition len_div {F} `{PyFloat F} (num den : DataFrame F) : M F F :=
  if List.length den =? 0 then raise ZeroDivisionError
  else ret (truediv (List.length num) (List.length den)).

Definition trace {F A} (m : M F A) : list (event F) := fst m.
Definition outcome {F A} (m : M F A) : exn + A := snd m.

(** [value is not None] *)
Definition is_not_None {A} (value : option A) : bool :=
  match value with Some _ => true | None => false end.

(** ** The two estimators *)

Section Estimators.
Context {F : Type} `{PyFloat F}.

(** [calculate_reliability], lines 68-122 *)
Definition calculate_reliability (df : DataFrame F) (a : Args F)
  : M F (option F) :=
  let input_period := input_period a in
  let period_lower_limit := period_lower_limit a in
  let period_upper_limit := period_upper_limit a in
  assert_ ((lit_0_2 <. input_period) && (input_period <. lit_20))
    "The input rotation period must be between 0.2 and 20 days" ;;;
  assert_ (existsb is_not_None [ls a; t a; snr a])
    "Please specify a value for at least one of LS, T, SNR" ;;;
  assert_ (existsb (String.eqb (mode a)) ["match"; "alias"; "recovery"])
    "Mode must be one of 'match', 'alias', or 'recovery'" ;;;
  param_df <- loc Df.c_prot_rh20
    (fun r => (Df.prot_rh20 r <. input_period +. period_upper_limit) &&
              (Df.prot_rh20 r >. input_period -. period_lower_limit)) df ;;
  param_df <-
    match ls a with
    | Some ls =>
        assert_ ((lit_0 <. ls) && (ls <. lit_1))
          "Lomb-Scargle power must be between 0 and 1" ;;;
        loc Df.c_power
          (fun r => (Df.power r >. ls -. ls_lower_limit a) &&
                    (Df.power r <. ls +. ls_upper_limit a)) param_df
    | None => ret param_df
    end ;;
  param_df <-
    match t a with
    | Some t =>
        loc Df.c_Tmag
          (fun r => (Df.Tmag r >. t -. t_lower_limit a) &&
                    (Df.Tmag r <. t +. t_upper_limit a)) param_df
    | None => ret param_df
    end ;;
  param_df <-
    match snr a with
    | Some snr =>
        assert_ (snr >. lit_0) "SNR must be greater than 0" ;;;
        loc Df.c_snr
          (fun r => (Df.snr r >. snr -. snr_lower_limit a) &&
                    (Df.snr r <. snr +. snr_upper_limit a)) param_df
    | None => ret param_df
    end ;;
  if List.length param_df <? 3 then ret None
  else
    rel_df <-
      (if String.eqb (mode a) "match" then
         loc Df.c_status (fun r => String.eqb (Df.status r) "match") param_df
       else if String.eqb (mode a) "alias" then
         loc Df.c_status (fun r => String.eqb (Df.status r) "alias") param_df
       else
         loc Df.c_status
           (fun r => negb (String.eqb (Df.status r) "not_recovered")) param_df) ;;
    q <- len_div rel_df param_df ;;
    ret (Some q).

(** [calculate_completeness], lines 145-201 *)
Definition calculate_completeness (df : DataFrame F) (a : Args F)
  : M F (option F) :=
  let input_period := input_period a in
  let period_lower_limit := period_lower_limit a in
  let period_upper_limit := period_upper_limit a in
  assert_ ((lit_0_2 <. input_period) && (input_period <. lit_20))
    "The input rotation period must be between 0 and 20 days" ;;;
  assert_ (existsb is_not_None [ls a; t a; snr a])
    "Please specify a value for at least one of LS, T, SNR" ;;;
  assert_ (existsb (String.eqb (mode a)) ["match"; "alias"; "recovery"])
    "Mode must be one of 'match', 'alias', or 'recovery'" ;;;
  all_df <- loc Df.c_prot_rh20
    (fun r => (Df.prot_rh20 r <. input_period +. period_upper_limit) &&
              (Df.prot_rh20 r >. input_period -. period_lower_limit)) df ;;
  let param_df := all_df in
  param_df <-
    match ls a with
    | Some ls =>
        assert_ ((lit_0 <. ls) && (ls <. lit_1))
          "Lomb-Scargle power must be between 0 and 1" ;;;
        loc Df.c_power
          (fun r => (Df.power r >. ls -. ls_lower_limit a) &&
                    (Df.power r <. ls +. ls_upper_limit a)) param_df
    | None => ret param_df
    end ;;
  param_df <-
    match t a with
    | Some t =>
        loc Df.c_Tmag
          (fun r => (Df.Tmag r >. t -. t_lower_limit a) &&
                    (Df.Tmag r <. t +. t_upper_limit a)) param_df
    | None => ret param_df
    end ;;
  param_df <-
    match snr a with
    | Some snr =>
        assert_ (snr >. lit_0) "SNR must be greater than 0" ;;;
        loc Df.c_snr
          (fun r => (Df.snr r >. snr -. snr_lower_limit a) &&
                    (Df.snr r <. snr +. snr_upper_limit a)) param_df
    | None => ret param_df
    end ;;
  if List.length all_df <? 3 then ret None
  else
    comp_df <-
      (if String.eqb (mode a) "match" then
         loc Df.c_status (fun r => String.eqb (Df.status r) "match") param_df
       else if String.eqb (mode a) "alias" then
         loc Df.c_status (fun r => String.eqb (Df.status r) "alias") param_df
       else
         loc Df.c_status
           (fun r => negb (String.eqb (Df.status r) "not_recovered")) param_df) ;;
    q <- len_div comp_df all_df ;;
    ret (Some q).

End Estimators.

(** ** The box filter, the status classifier and valid queries *)

(** The three modes. *)
Inductive Mode : Type := Match | Alias | Recovery.

Definition mode_name (m : Mode) : string :=
  match m with
  | Match => "match"
  | Alias => "alias"
  | Recovery => "recovery"
  end.

Definition parse_mode (s : string) : option Mode :=
  if String.eqb s "match" then Some Match
  else if String.eqb s "alias" then Some Alias
  else if String.eqb s "recovery" then Some Recovery
  else None.

(** StatusClassifier: the predicate over [status] of each mode. *)
Definition StatusClassifier (m : Mode) (status : string) : bool :=
  match m with
  | Match => String.eqb status "match"
  | Alias => String.eqb status "alias"
  | Recovery => negb (String.eqb status "not_recovered")
  end.

Section BoxFilter.
Context {F : Type} `{PyFloat F}.

(** BoxFilter on one axis: [center - lower < value < center + upper]. *)
Definition in_window (center lower upper value : F) : bool :=
  (value >. center -. lower) && (value <. center +. upper).

(** An axis that is not supplied imposes no constraint. *)
Definition in_axis (center : option F) (lower upper value : F) : bool :=
  match center with
  | Some c => in_window c lower upper value
  | None => true
  end.

Definition period_mask (a : Args F) (r : Df.Row F) : bool :=
  in_window (input_period a) (period_lower_limit a) (period_upper_limit a)
    (Df.prot_rh20 r).

Definition power_mask (a : Args F) (r : Df.Row F) : bool :=
  in_axis (ls a) (ls_lower_limit a) (ls_upper_limit a) (Df.power r).

Definition magnitude_mask (a : Args F) (r : Df.Row F) : bool :=
  in_axis (t a) (t_lower_limit a) (t_upper_limit a) (Df.Tmag r).

Definition snr_mask (a : Args F) (r : Df.Row F) : bool :=
  in_axis (snr a) (snr_lower_limit a) (snr_upper_limit a) (Df.snr r).

(** The auxiliary axes (power, magnitude, snr) together. *)
Definition aux_mask (a : Args F) (r : Df.Row F) : bool :=
  power_mask a r && magnitude_mask a r && snr_mask a r.

(** The period axis and every supplied auxiliary axis. *)
Definition box_mask (a : Args F) (r : Df.Row F) : bool :=
  period_mask a r && aux_mask a r.

Definition status_mask (m : Mode) (r : Df.Row F) : bool :=
  StatusClassifier m (Df.status r).

(** The preconditions on a query. *)
Definition check_period (a : Args F) : bool :=
  (lit_0_2 <. input_period a) && (input_period a <. lit_20).

Definition check_aux (a : Args F) : bool :=
  is_not_None (ls a) || is_not_None (t a) || is_not_None (snr a).

Definition check_mode (a : Args F) : bool :=
  is_not_None (parse_mode (mode a)).

Definition check_power (a : Args F) : bool :=
  match ls a with
  | Some x => (lit_0 <. x) && (x <. lit_1)
  | None => true
  end.

Definition check_snr (a : Args F) : bool :=
  match snr a with
  | Some x => x >. lit_0
  | None => true
  end.

Definition valid_query (a : Args F) : bool :=
  check_period a && check_aux a && check_mode a && check_power a && check_snr a.

(** The selections a run performs, axis by axis. *)
Definition axis_events (c : Df.column) (center : option F) (lower upper : F)
  (col : Df.Row F -> F) (src : DataFrame F) : list (event F) :=
  match center with
  | Some x => [Loc c src (filter (fun r => in_window x lower upper (col r)) src)]
  | None => []
  end.

(** [len(num) / len(den)], or [None] under the floor of 3 rows of [den]. *)
Definition ratio_or_None (num den : DataFrame F) : option F :=
  if List.length den <? 3 then None
  else Some (truediv (List.length num) (List.length den)).

End BoxFilter.

(** The frames a run selected on the numeric axes, in order. *)
Definition axis_frames {F} (tr : list (event F)) : list (DataFrame F) :=
  flat_map (fun e =>
    match e with
    | Loc Df.c_status _ _ => []
    | Loc _ _ kept => [kept]
    end) tr.

(** The frame left by the period selection, and the one left by the last
    selection on a numeric axis. *)
Definition period_frame {F A} (m : M F A) : DataFrame F :=
  hd [] (axis_frames (trace m)).

Definition final_frame {F A} (m : M F A) : DataFrame F :=
  last (axis_frames (trace m)) [].

Section Frames.
Context {F : Type} `{PyFloat F}.

(** The frames of a run: after the period axis, then after each auxiliary
    axis in the order power, magnitude, snr. *)
Definition after_period (a : Args F) (df : DataFrame F) : DataFrame F :=
  filter (period_mask a) df.

Definition after_power (a : Args F) (df : DataFrame F) : DataFrame F :=
  filter (power_mask a) (after_period a df).

Definition after_magnitude (a : Args F) (df : DataFrame F) : DataFrame F :=
  filter (magnitude_mask a) (after_power a df).

Definition after_snr (a : Args F) (df : DataFrame F) : DataFrame F :=
  filter (snr_mask a) (after_magnitude a df).

(** The selections of the axis stage of both functions (lines 77-109 and
    154-188), when no assertion fails. *)
Definition axis_trace (a : Args F) (df : DataFrame F) : list (event F) :=
  [Loc Df.c_prot_rh20 df (after_period a df)]
  ++ axis_events Df.c_power (ls a) (ls_lower_limit a) (ls_upper_limit a)
       Df.power (after_period a df)
  ++ axis_events Df.c_Tmag (t a) (t_lower_limit a) (t_upper_limit a)
       Df.Tmag (after_power a df)
  ++ axis_events Df.c_snr (snr a) (snr_lower_limit a) (snr_upper_limit a)
       Df.snr (after_magnitude a df).

(** The status selection (lines 115-120 and 194-199), reached when [den]
    has at least 3 rows. *)
Definition status_events (m : Mode) (den src : DataFrame F) : list (event F) :=
  if List.length den <? 3 then []
  else [Loc Df.c_status src (filter (status_mask m) src)].

End Frames.

(** ** Both estimators, errors and axes *)

Inductive Estimator : Type := Reliability | Completeness.

Definition run {F} `{PyFloat F} (est : Estimator)
  : DataFrame F -> Args F -> M F (option F) :=
  match est with
  | Reliability => calculate_reliability
  | Completeness => calculate_completeness
  end.

(** The validation failures. *)
Inductive ErrorKind : Type :=
| InvalidPeriod
| NoAuxiliaryParameter
| InvalidMode
| InvalidPower
| InvalidSNR.

(** The text of each assertion of the source. *)
Definition error_message (est : Estimator) (k : ErrorKind) : string :=
  match k with
  | InvalidPeriod =>
      match est with
      | Reliability => "The input rotation period must be between 0.2 and 20 days"
      | Completeness => "The input rotation period must be between 0 and 20 days"
      end
  | NoAuxiliaryParameter => "Please specify a value for at least one of LS, T, SNR"
  | InvalidMode => "Mode must be one of 'match', 'alias', or 'recovery'"
  | InvalidPower => "Lomb-Scargle power must be between 0 and 1"
  | InvalidSNR => "SNR must be greater than 0"
  end.

(** The words by which a message names the offending field. *)
Definition field_named (k : ErrorKind) : string :=
  match k with
  | InvalidPeriod => "period"
  | NoAuxiliaryParameter => "LS, T, SNR"
  | InvalidMode => "Mode"
  | InvalidPower => "power"
  | InvalidSNR => "SNR"
  end.

(** [sub in s] *)
Fixpoint contains (sub s : string) : bool :=
  if String.prefix sub s then true
  else
    match s with
    | EmptyString => false
    | String _ s' => contains sub s'
    end.

(** The numeric axes of a query. *)
Inductive Axis : Type := Period | Power | Magnitude | Snr.

Definition axis_column (ax : Axis) : Df.column :=
  match ax with
  | Period => Df.c_prot_rh20
  | Power => Df.c_power
  | Magnitude => Df.c_Tmag
  | Snr => Df.c_snr
  end.

Definition axis_value {F} (ax : Axis) (r : Df.Row F) : F :=
  match ax with
  | Period => Df.prot_rh20 r
  | Power => Df.power r
  | Magnitude => Df.Tmag r
  | Snr => Df.snr r
  end.

(** The window of an axis, (center, lower, upper), when the axis is
    supplied; the period axis always is. *)
Definition axis_window {F} (ax : Axis) (a : Args F) : option (F * F * F) :=
  match ax with
  | Period =>
      Some (input_period a, period_lower_limit a, period_upper_limit a)
  | Power =>
      option_map (fun c => (c, ls_lower_limit a, ls_upper_limit a)) (ls a)
  | Magnitude =>
      option_map (fun c => (c, t_lower_limit a, t_upper_limit a)) (t a)
  | Snr =>
      option_map (fun c => (c, snr_lower_limit a, snr_upper_limit a)) (snr a)
  end.

Section Validation.
Context {F : Type} `{PyFloat F}.

(** The first assertion that fails, in the order the source checks. *)
Definition first_failure (a : Args F) : option ErrorKind :=
  if negb (check_period a) then Some InvalidPeriod
  else if negb (check_aux a) then Some NoAuxiliaryParameter
  else if negb (check_mode a) then Some InvalidMode
  else if negb (check_power a) then Some InvalidPower
  else if negb (check_snr a) then Some InvalidSNR
  else None.

(** The selections already performed when each assertion is reached. *)
Definition selections_before (k : ErrorKind) (a : Args F) (df : DataFrame F)
  : list (event F) :=
  match k with
  | InvalidPeriod | NoAuxiliaryParameter | InvalidMode => []
  | InvalidPower => [Loc Df.c_prot_rh20 df (after_period a df)]
  | InvalidSNR =>
      [Loc Df.c_prot_rh20 df (after_period a df)]
      ++ axis_events Df.c_power (ls a) (ls_lower_limit a) (ls_upper_limit a)
           Df.power (after_period a df)
      ++ axis_events Df.c_Tmag (t a) (t_lower_limit a) (t_upper_limit a)
           Df.Tmag (after_power a df)
  end.

(** Every validation failure comes before any selection. *)
Definition raised_before_filtering (est : Estimator) (df : DataFrame F)
  (a : Args F) : Prop :=
  forall msg,
    outcome (run est df a) = inl (AssertionError msg) ->
    trace (run est df a) = [].

(** The rows an estimator divides by: the frame left by the last numeric
    selection of [calculate_reliability], the frame left by the period
    selection of [calculate_completeness]. *)
Definition denominator (est : Estimator) (df : DataFrame F) (a : Args F)
  : DataFrame F :=
  match est with
  | Reliability => final_frame (calculate_reliability df a)
  | Completeness => period_frame (calculate_completeness df a)
  end.

(** A limit that stays or increases. *)
Definition grows (x y : F) : Prop := x = y \/ x <=. y = true.

(** [a'] is [a] with some window limits increased. *)
Definition widens (a a' : Args F) : Prop :=
  input_period a' = input_period a /\ ls a' = ls a /\ t a' = t a /\
  snr a' = snr a /\ mode a' = mode a /\
  grows (period_lower_limit a) (period_lower_limit a') /\
  grows (period_upper_limit a) (period_upper_limit a') /\
  grows (ls_lower_limit a) (ls_lower_limit a') /\
  grows (ls_upper_limit a) (ls_upper_limit a') /\
  grows (t_lower_limit a) (t_lower_limit a') /\
  grows (t_upper_limit a) (t_upper_limit a') /\
  grows (snr_lower_limit a) (snr_lower_limit a') /\
  grows (snr_upper_limit a) (snr_upper_limit a').

(** [a] with other window limits. *)
Definition with_limits (a : Args F)
  (period_lower period_upper ls_lower ls_upper t_lower t_upper
   snr_lower snr_upper : F) : Args F :=
  mkArgs (input_period a) period_lower period_upper
    (ls a) ls_lower ls_upper (t a) t_lower t_upper
    (snr a) snr_lower snr_upper (mode a).

(** A window whose open interval is empty: [lower + upper <= 0]. *)
Definition empty_window (lower upper : F) : Prop :=
  lower +. upper <=. lit_0 = true.

(** An empty window on a supplied axis leads to [None]. *)
Definition empty_window_gives_None (est : Estimator) (df : DataFrame F)
  (a : Args F) : Prop :=
  forall ax c l u,
    axis_window ax a = Some (c, l, u) -> empty_window l u ->
    outcome (run est df a) = inr None.

End Validation.

(** ** Binary64: IEEE-754 double precision *)

(** The operations are those of Rocq's primitive floats, specified by the
    functions of [SpecFloat].  A float is measured by its [key], its value
    in units of 2^-1074 with the infinities at +-2^2098: comparisons are
    comparisons of keys, and a sum is the rounded sum of the keys. *)
Module Binary64.
Local Open Scope Z_scope.

(** *** Binary digits *)
Lemma digits2_pos_bounds (p : positive) :
  2 ^ (Zpos (digits2_pos p) - 1) <= Zpos p < 2 ^ Zpos (digits2_pos p).
Proof.
  induction p as [p IH|p IH|]; cbn [digits2_pos].
  - rewrite Pos2Z.inj_succ.
    replace (Z.succ (Zpos (digits2_pos p)) - 1) with (Z.succ (Zpos (digits2_pos p) - 1)) by lia.
    rewrite !Z.pow_succ_r by lia. lia.
  - rewrite Pos2Z.inj_succ.
    replace (Z.succ (Zpos (digits2_pos p)) - 1) with (Z.succ (Zpos (digits2_pos p) - 1)) by lia.
    rewrite !Z.pow_succ_r by lia. lia.
  - cbn. lia.
Qed.

Lemma Zdigits2_bounds (z : Z) :
  0 < z -> 2 ^ (Zdigits2 z - 1) <= z < 2 ^ Zdigits2 z.
Proof.
  destruct z as [|p|p]; try lia. intros _. apply digits2_pos_bounds.
Qed.

Lemma Zdigits2_pos (z : Z) : 0 < z -> 0 < Zdigits2 z.
Proof. destruct z; cbn; lia. Qed.

Lemma Zdigits2_unique (z d : Z) :
  2 ^ (d - 1) <= z < 2 ^ d -> 0 < d -> Zdigits2 z = d.
Proof.
  intros [Hlo Hhi] Hd.
  assert (Hz : 0 < z) by (pose proof (Z.pow_pos_nonneg 2 (d - 1)); lia).
  pose proof (Zdigits2_bounds z Hz) as [Hlo' Hhi'].
  pose proof (Zdigits2_pos z Hz) as Hd'.
  destruct (Z.lt_trichotomy (Zdigits2 z) d) as [Hlt|[Heq|Hgt]]; [|exact Heq|].
  - assert (2 ^ Zdigits2 z <= 2 ^ (d - 1)) by (apply Z.pow_le_mono_r; lia). lia.
  - assert (2 ^ d <= 2 ^ (Zdigits2 z - 1)) by (apply Z.pow_le_mono_r; lia). lia.
Qed.

(** *** Iterating a shift *)
Lemma iter_pos_nat {A} (f : A -> A) (p : positive) (x : A) :
  iter_pos f p x = Nat.iter (Pos.to_nat p) f x.
Proof.
  revert x. induction p as [p IH|p IH|]; intros x; cbn [iter_pos].
  - rewrite !IH, Pos2Nat.inj_xI.
    replace (S (2 * Pos.to_nat p))%nat
      with (Pos.to_nat p + (Pos.to_nat p + 1))%nat by lia.
    now rewrite !Nat.iter_add.
  - rewrite !IH, Pos2Nat.inj_xO.
    replace (2 * Pos.to_nat p)%nat
      with (Pos.to_nat p + Pos.to_nat p)%nat by lia.
    now rewrite Nat.iter_add.
  - reflexivity.
Qed.

(** One shift step on a non-negative mantissa. *)
Lemma shr_1_nonneg (m : Z) (r s : bool) :
  0 <= m ->
  shr_1 (Build_shr_record m r s) = Build_shr_record (m / 2) (Z.odd m) (r || s).
Proof.
  intros Hm. rewrite <- Z.div2_div.
  destruct m as [|[p|p|]|p]; try lia; reflexivity.
Qed.

(** *** Rounding to nearest, ties to even

    [rne m n] drops the [n] low bits of [m]. *)
Definition rne (m n : Z) : Z :=
  let q := m / 2 ^ n in
  match 2 * (m mod 2 ^ n) ?= 2 ^ n with
  | Lt => q
  | Eq => if Z.even q then q else q + 1
  | Gt => q + 1
  end.

(** The shift record after [k] steps from [m0]. *)
Definition shifted (m0 : Z) (k : nat) (rec : shr_record) : Prop :=
  0 <= shr_m rec /\
  exists t,
    0 <= t /\ t < 2 ^ (Z.of_nat k - 1) + (if Nat.eqb k 0 then 1 else 0) /\
    (k = 0%nat -> t = 0 /\ shr_r rec = false) /\
    m0 = shr_m rec * 2 ^ Z.of_nat k + Z.b2z (shr_r rec) * 2 ^ (Z.of_nat k - 1) + t /\
    shr_s rec = negb (t =? 0).

Lemma shifted_0 (m0 : Z) :
  0 <= m0 -> shifted m0 0 (Build_shr_record m0 false false).
Proof.
  intros Hm. split; [exact Hm|]. exists 0. cbn. repeat split; lia.
Qed.

Lemma shifted_S (m0 : Z) (k : nat) (rec : shr_record) :
  shifted m0 k rec -> shifted m0 (S k) (shr_1 rec).
Proof.
  destruct rec as [q r s]. intros (Hq & t & Ht0 & Ht1 & Hk0 & Hm & Hs).
  cbn [shr_m shr_r shr_s] in *. rewrite shr_1_nonneg by exact Hq.
  unfold shifted. cbn [shr_m shr_r shr_s].
  split; [apply Z.div_pos; lia|].
  exists (Z.b2z r * 2 ^ (Z.of_nat k - 1) + t).
  replace (Z.of_nat (S k) - 1) with (Z.of_nat k) by lia.
  rewrite Nat2Z.inj_succ, Z.pow_succ_r by lia.
  assert (Hdiv : q = 2 * (q / 2) + Z.b2z (Z.odd q)).
  { pose proof (Z.div_mod q 2 ltac:(lia)) as Hdm. rewrite Zmod_odd in Hdm.
    destruct (Z.odd q); cbn [Z.b2z]; lia. }
  assert (Hb : 0 <= Z.b2z (Z.odd q) <= 1) by (destruct (Z.odd q); cbn; lia).
  assert (Hr : 0 <= Z.b2z r <= 1) by (destruct r; cbn; lia).
  generalize dependent (Z.b2z (Z.odd q)). intros b Hdiv Hb.
  destruct k as [|k].
  - destruct (Hk0 eq_refl) as [-> ->]. cbn [Z.b2z Nat.eqb Z.of_nat] in *.
    change (2 ^ 0) with 1 in *. change (2 ^ (0 - 1)) with 0 in *.
    repeat split; try lia; try discriminate.
    rewrite Hs. reflexivity.
  - cbn [Nat.eqb] in *.
    assert (Hpow : 2 ^ Z.of_nat (S k) = 2 * 2 ^ (Z.of_nat (S k) - 1)).
    { rewrite <- Z.pow_succ_r by lia. f_equal. lia. }
    assert (Hpos : 0 < 2 ^ (Z.of_nat (S k) - 1)) by (apply Z.pow_pos_nonneg; lia).
    repeat split; try discriminate.
    + destruct r; cbn [Z.b2z]; lia.
    + destruct r; cbn [Z.b2z]; lia.
    + rewrite Hdiv in Hm. rewrite Hm. ring.
    + rewrite Hs. destruct r; cbn [Z.b2z orb].
      * symmetry. apply negb_true_iff, Z.eqb_neq. lia.
      * now rewrite Z.mul_0_l, Z.add_0_l.
Qed.

Lemma shifted_iter (m0 : Z) (k : nat) :
  0 <= m0 ->
  shifted m0 k (Nat.iter k shr_1 (Build_shr_record m0 false false)).
Proof.
  intros Hm. induction k as [|k IH]; cbn [Nat.iter].
  - now apply shifted_0.
  - now apply shifted_S.
Qed.

Lemma shifted_rne (m0 : Z) (k : nat) (rec : shr_record) :
  shifted m0 k rec ->
  shr_m rec = m0 / 2 ^ Z.of_nat k /\
  round_nearest_even (shr_m rec) (loc_of_shr_record rec) = rne m0 (Z.of_nat k).
Proof.
  destruct rec as [q r s]. intros (Hq & t & Ht0 & Ht1 & Hk0 & Hm & Hs).
  cbn [shr_m shr_r shr_s] in *.
  assert (Hpos : 0 < 2 ^ Z.of_nat k) by (apply Z.pow_pos_nonneg; lia).
  set (rem := Z.b2z r * 2 ^ (Z.of_nat k - 1) + t) in *.
  assert (Hrem : 0 <= rem < 2 ^ Z.of_nat k).
  { destruct k as [|k].
    - destruct (Hk0 eq_refl) as [-> ->]. cbn. lia.
    - cbn [Nat.eqb] in Ht1.
      assert (Hpow : 2 ^ Z.of_nat (S k) = 2 * 2 ^ (Z.of_nat (S k) - 1)).
      { rewrite <- Z.pow_succ_r by lia. f_equal. lia. }
      unfold rem. destruct r; cbn [Z.b2z]; lia. }
  assert (Hm' : m0 = q * 2 ^ Z.of_nat k + rem) by (unfold rem; lia).
  assert (Hdiv : m0 / 2 ^ Z.of_nat k = q).
  { symmetry. apply (Z.div_unique m0 _ q rem); lia. }
  assert (Hmod : m0 mod 2 ^ Z.of_nat k = rem).
  { symmetry. apply (Z.mod_unique m0 _ q rem); lia. }
  split; [now rewrite Hdiv|].
  unfold rne. rewrite Hdiv, Hmod.
  destruct k as [|k].
  - destruct (Hk0 eq_refl) as [Ht Hr]. subst t r. cbn in Hs. subst s.
    unfold rem. cbn. reflexivity.
  - cbn [Nat.eqb] in Ht1.
    assert (Hpow : 2 ^ Z.of_nat (S k) = 2 * 2 ^ (Z.of_nat (S k) - 1)).
    { rewrite <- Z.pow_succ_r by lia. f_equal. lia. }
    assert (Hhalf : 0 < 2 ^ (Z.of_nat (S k) - 1)) by (apply Z.pow_pos_nonneg; lia).
    unfold rem. rewrite Hs.
    destruct r; cbn [Z.b2z loc_of_shr_record];
      destruct (Z.eqb_spec t 0) as [Ht|Ht]; cbn [negb round_nearest_even].
    + replace (2 * (1 * 2 ^ (Z.of_nat (S k) - 1) + t) ?= 2 ^ Z.of_nat (S k)) with Eq
        by (symmetry; apply Z.compare_eq_iff; lia).
      reflexivity.
    + replace (2 * (1 * 2 ^ (Z.of_nat (S k) - 1) + t) ?= 2 ^ Z.of_nat (S k)) with Gt
        by (symmetry; apply Z.compare_gt_iff; lia).
      reflexivity.
    + replace (2 * (0 * 2 ^ (Z.of_nat (S k) - 1) + t) ?= 2 ^ Z.of_nat (S k)) with Lt
        by (symmetry; apply Z.compare_lt_iff; lia).
      reflexivity.
    + replace (2 * (0 * 2 ^ (Z.of_nat (S k) - 1) + t) ?= 2 ^ Z.of_nat (S k)) with Lt
        by (symmetry; apply Z.compare_lt_iff; lia).
      reflexivity.
Qed.

(** Order and scaling of [rne]. *)
Lemma pow2_pos (n : Z) : 0 <= n -> 0 < 2 ^ n.
Proof. intros Hn. apply Z.pow_pos_nonneg; lia. Qed.

Lemma rne_bounds (m n : Z) :
  0 <= n -> m / 2 ^ n <= rne m n <= m / 2 ^ n + 1.
Proof.
  intros Hn. unfold rne.
  destruct (2 * (m mod 2 ^ n) ?= 2 ^ n); [destruct (Z.even _)|..]; lia.
Qed.

Lemma rne_exact (q n : Z) : 0 <= n -> rne (q * 2 ^ n) n = q.
Proof.
  intros Hn. pose proof (pow2_pos n Hn) as Hp. unfold rne.
  rewrite Z.mod_mul, Z.div_mul by lia.
  replace (2 * 0 ?= 2 ^ n) with Lt by (symmetry; apply Z.compare_lt_iff; lia).
  reflexivity.
Qed.

Lemma rne_mono (m1 m2 n : Z) :
  0 <= n -> m1 <= m2 -> rne m1 n <= rne m2 n.
Proof.
  intros Hn Hm. pose proof (pow2_pos n Hn) as Hp.
  pose proof (Z.div_le_mono m1 m2 (2 ^ n) Hp Hm) as Hq.
  pose proof (rne_bounds m1 n Hn) as Hb1.
  pose proof (rne_bounds m2 n Hn) as Hb2.
  destruct (Z.eq_dec (m1 / 2 ^ n) (m2 / 2 ^ n)) as [Heq|Hneq]; [|lia].
  assert (Hrem : m1 mod 2 ^ n <= m2 mod 2 ^ n).
  { pose proof (Z.div_mod m1 (2 ^ n) ltac:(lia)).
    pose proof (Z.div_mod m2 (2 ^ n) ltac:(lia)). nia. }
  unfold rne. rewrite Heq.
  destruct (Z.compare_spec (2 * (m1 mod 2 ^ n)) (2 ^ n)) as [H1|H1|H1];
    destruct (Z.compare_spec (2 * (m2 mod 2 ^ n)) (2 ^ n)) as [H2|H2|H2];
    try destruct (Z.even (m2 / 2 ^ n)); lia.
Qed.

Lemma rne_scale (m n j : Z) :
  0 <= n -> 0 <= j -> rne (m * 2 ^ j) (n + j) = rne m n.
Proof.
  intros Hn Hj. pose proof (pow2_pos n Hn) as Hp. pose proof (pow2_pos j Hj) as Hpj.
  unfold rne. rewrite Z.pow_add_r by lia.
  rewrite Z.div_mul_cancel_r by lia.
  rewrite Zmult_mod_distr_r.
  replace (2 * (m mod 2 ^ n * 2 ^ j) ?= 2 ^ n * 2 ^ j)
    with (2 * (m mod 2 ^ n) ?= 2 ^ n); [reflexivity|].
  destruct (Z.compare_spec (2 * (m mod 2 ^ n)) (2 ^ n)) as [H1|H1|H1]; symmetry.
  - apply Z.compare_eq_iff. nia.
  - apply Z.compare_lt_iff. nia.
  - apply Z.compare_gt_iff. nia.
Qed.

Lemma rne_le (m n c : Z) : 0 <= n -> m <= c * 2 ^ n -> rne m n <= c.
Proof.
  intros Hn Hm. rewrite <- (rne_exact c n Hn). now apply rne_mono.
Qed.

Lemma rne_ge (m n c : Z) : 0 <= n -> c * 2 ^ n <= m -> c <= rne m n.
Proof.
  intros Hn Hm. rewrite <- (rne_exact c n Hn). now apply rne_mono.
Qed.

(** *** Rounding a positive scaled integer to 53 significant bits *)
Definition drop (N : Z) : Z := Z.max (Zdigits2 N - 53) 0.

Definition W (N : Z) : Z := rne N (drop N) * 2 ^ drop N.

Lemma drop_nonneg (N : Z) : 0 <= drop N.
Proof. unfold drop. lia. Qed.

Lemma Zdigits2_mono (a b : Z) : 0 < a -> a <= b -> Zdigits2 a <= Zdigits2 b.
Proof.
  intros Ha Hab.
  pose proof (Zdigits2_bounds a Ha) as [Hlo _].
  pose proof (Zdigits2_bounds b ltac:(lia)) as [_ Hhi].
  destruct (Z.le_gt_cases (Zdigits2 a) (Zdigits2 b)) as [|Hgt]; [assumption|].
  assert (2 ^ Zdigits2 b <= 2 ^ (Zdigits2 a - 1)) by (apply Z.pow_le_mono_r; lia).
  lia.
Qed.

Lemma W_upper (N : Z) : 0 < N -> W N <= 2 ^ Zdigits2 N.
Proof.
  intros HN. pose proof (Zdigits2_bounds N HN) as [_ Hhi].
  pose proof (Zdigits2_pos N HN) as Hd. pose proof (drop_nonneg N) as Hk.
  unfold W.
  assert (Hsplit : 2 ^ Zdigits2 N = 2 ^ (Zdigits2 N - drop N) * 2 ^ drop N).
  { rewrite <- Z.pow_add_r by (unfold drop; lia). f_equal. lia. }
  rewrite Hsplit. apply Z.mul_le_mono_nonneg_r; [pose proof (pow2_pos _ Hk); lia|].
  apply rne_le; [assumption|]. lia.
Qed.

Lemma W_lower (N : Z) : 0 < N -> 2 ^ (Zdigits2 N - 1) <= W N.
Proof.
  intros HN. pose proof (Zdigits2_bounds N HN) as [Hlo _].
  pose proof (Zdigits2_pos N HN) as Hd. pose proof (drop_nonneg N) as Hk.
  unfold W.
  assert (Hsplit : 2 ^ (Zdigits2 N - 1) = 2 ^ (Zdigits2 N - 1 - drop N) * 2 ^ drop N).
  { rewrite <- Z.pow_add_r by (unfold drop; lia). f_equal. lia. }
  rewrite Hsplit. apply Z.mul_le_mono_nonneg_r; [pose proof (pow2_pos _ Hk); lia|].
  apply rne_ge; [assumption|]. lia.
Qed.

Lemma W_pos (N : Z) : 0 < N -> 0 < W N.
Proof.
  intros HN. pose proof (W_lower N HN).
  pose proof (pow2_pos (Zdigits2 N - 1)) as Hp.
  pose proof (Zdigits2_pos N HN). lia.
Qed.

Lemma W_mono (N1 N2 : Z) : 0 < N1 -> N1 <= N2 -> W N1 <= W N2.
Proof.
  intros H1 H12.
  pose proof (Zdigits2_mono N1 N2 H1 H12) as Hd.
  destruct (Z.eq_dec (Zdigits2 N1) (Zdigits2 N2)) as [Heq|Hneq].
  - unfold W, drop. rewrite Heq.
    apply Z.mul_le_mono_nonneg_r; [pose proof (pow2_pos (Z.max (Zdigits2 N2 - 53) 0)); lia|].
    apply rne_mono; lia.
  - pose proof (W_upper N1 H1). pose proof (W_lower N2 ltac:(lia)).
    assert (2 ^ Zdigits2 N1 <= 2 ^ (Zdigits2 N2 - 1)) by (apply Z.pow_le_mono_r; lia).
    lia.
Qed.

(** *** The binary64 format *)
Lemma fexp_eq (e : Z) : fexp prec emax e = Z.max (e - 53) (-1074).
Proof. reflexivity. Qed.

Lemma Zdigits2_shift (m j : Z) :
  0 < m -> 0 <= j -> Zdigits2 (m * 2 ^ j) = Zdigits2 m + j.
Proof.
  intros Hm Hj. pose proof (Zdigits2_bounds m Hm) as [Hlo Hhi].
  pose proof (Zdigits2_pos m Hm) as Hd. pose proof (pow2_pos j Hj) as Hp.
  apply Zdigits2_unique; [|lia].
  replace (Zdigits2 m + j - 1) with (Zdigits2 m - 1 + j) by lia.
  rewrite !Z.pow_add_r by lia. nia.
Qed.

Lemma pos_iter_xO (m d : positive) :
  Zpos (Pos.iter xO m d) = Zpos m * 2 ^ Zpos d.
Proof.
  induction d as [|d IH] using Pos.peano_ind.
  - cbn [Pos.iter]. rewrite Z.pow_1_r. lia.
  - rewrite Pos.iter_succ, Pos2Z.inj_succ, Z.pow_succ_r by lia.
    rewrite Pos2Z.inj_xO, IH. lia.
Qed.

Lemma shr_nat (rec : shr_record) (e n : Z) :
  0 <= n -> shr rec e n = (Nat.iter (Z.to_nat n) shr_1 rec, e + n).
Proof.
  intros Hn. destruct n as [|p|p]; try lia; cbn [shr].
  - cbn. now rewrite Z.add_0_r.
  - now rewrite iter_pos_nat.
Qed.

(** The float a scaled integer rounds to. *)
Definition rnd (sx : bool) (N : Z) : spec_float :=
  let m2 := rne N (drop N) in
  let m := if m2 =? 2 ^ 53 then 2 ^ 52 else m2 in
  let e := (if m2 =? 2 ^ 53 then drop N + 1 else drop N) - 1074 in
  match m with
  | Zpos p => if e <=? 971 then S754_finite sx p e else S754_infinity sx
  | Z0 => S754_zero sx
  | Zneg _ => S754_nan
  end.

Lemma binary_round_aux_exact (sx : bool) (m e : Z) :
  0 < m -> -1074 <= e -> e <= fexp prec emax (Zdigits2 m + e) ->
  binary_round_aux prec emax sx m e loc_Exact = rnd sx (m * 2 ^ (e + 1074)).
Proof.
  intros Hm He He0. rewrite fexp_eq in He0.
  set (N := m * 2 ^ (e + 1074)).
  assert (HN : 0 < N) by (pose proof (pow2_pos (e + 1074)); unfold N; nia).
  assert (HdN : Zdigits2 N = Zdigits2 m + e + 1074).
  { unfold N. rewrite Zdigits2_shift by lia. lia. }
  set (e0 := Z.max (Zdigits2 m + e - 53) (-1074)) in *.
  assert (Hk : drop N = e0 + 1074) by (unfold drop, e0; lia).
  unfold binary_round_aux, shr_fexp. rewrite fexp_eq. fold e0.
  cbn [shr_record_of_loc]. rewrite shr_nat by lia.
  pose proof (shifted_iter m (Z.to_nat (e0 - e)) ltac:(lia)) as Hsh.
  apply shifted_rne in Hsh as [_ Hrne]. rewrite Hrne. clear Hrne.
  rewrite Z2Nat.id by lia.
  assert (Hscale : rne m (e0 - e) = rne N (drop N)).
  { rewrite Hk. unfold N.
    replace (e0 + 1074) with (e0 - e + (e + 1074)) by lia.
    now rewrite rne_scale by lia. }
  rewrite Hscale. replace (e + (e0 - e)) with e0 by lia.
  unfold rnd. set (m2 := rne N (drop N)).
  pose proof (Zdigits2_bounds N HN) as [HNlo HNhi].
  pose proof (Zdigits2_pos m Hm) as Hdm.
  destruct (Z.le_gt_cases (Zdigits2 N) 53) as [Hsmall|Hbig].
  - (* no bit is dropped *)
    assert (Hk0 : drop N = 0) by (unfold drop; lia).
    assert (Hm2 : m2 = N).
    { unfold m2. rewrite Hk0. rewrite <- (Z.mul_1_r N) at 1.
      change 1 with (2 ^ 0). now apply rne_exact. }
    assert (He0' : e0 = -1074) by lia.
    assert (HN53 : N < 2 ^ 53).
    { assert (2 ^ Zdigits2 N <= 2 ^ 53) by (apply Z.pow_le_mono_r; lia). lia. }
    rewrite Hm2, Hk0, He0'.
    replace (fexp prec emax (Zdigits2 N + -1074) - -1074) with 0
      by (rewrite fexp_eq; lia).
    cbn [shr shr_m].
    replace (N =? 2 ^ 53) with false by (symmetry; apply Z.eqb_neq; lia).
    reflexivity.
  - (* 53 bits are kept *)
    assert (Hkd : drop N = Zdigits2 N - 53) by (unfold drop; lia).
    assert (Hlo : 2 ^ 52 <= m2).
    { apply rne_ge; [apply drop_nonneg|].
      rewrite <- Z.pow_add_r by lia.
      replace (52 + drop N) with (Zdigits2 N - 1) by lia. exact HNlo. }
    assert (Hhi : m2 <= 2 ^ 53).
    { apply rne_le; [apply drop_nonneg|].
      rewrite <- Z.pow_add_r by lia.
      replace (53 + drop N) with (Zdigits2 N) by lia. lia. }
    destruct (Z.eqb_spec m2 (2 ^ 53)) as [Hcarry|Hnocarry].
    + rewrite Hcarry.
      replace (fexp prec emax (Zdigits2 (2 ^ 53) + e0) - e0) with 1
        by (rewrite fexp_eq; change (Zdigits2 (2 ^ 53)) with 54; lia).
      cbn [shr iter_pos]. rewrite Hk.
      replace (e0 + 1074 + 1 - 1074) with (e0 + 1) by lia.
      reflexivity.
    + assert (Hd2 : Zdigits2 m2 = 53) by (apply Zdigits2_unique; lia).
      replace (fexp prec emax (Zdigits2 m2 + e0) - e0) with 0
        by (rewrite fexp_eq, Hd2; lia).
      cbn [shr shr_m]. rewrite Hk.
      replace (e0 + 1074 - 1074) with e0 by lia.
      reflexivity.
Qed.

Lemma binary_round_rnd (sx : bool) (mx : positive) (ex : Z) :
  -1074 <= ex ->
  binary_round prec emax sx mx ex = rnd sx (Zpos mx * 2 ^ (ex + 1074)).
Proof.
  intros Hex. unfold binary_round, shl_align.
  set (e0 := fexp prec emax (Zpos (digits2_pos mx) + ex)).
  assert (He0 : e0 = Z.max (Zpos (digits2_pos mx) + ex - 53) (-1074)) by reflexivity.
  destruct (e0 - ex) as [|d|d] eqn:Hshift.
  - apply binary_round_aux_exact; [lia|lia|].
    change (Zdigits2 (Zpos mx)) with (Zpos (digits2_pos mx)). fold e0. lia.
  - apply binary_round_aux_exact; [lia|lia|].
    change (Zdigits2 (Zpos mx)) with (Zpos (digits2_pos mx)). fold e0. lia.
  - rewrite binary_round_aux_exact.
    + f_equal. rewrite pos_iter_xO, <- Z.mul_assoc, <- Z.pow_add_r by lia.
      f_equal. f_equal. lia.
    + lia.
    + lia.
    + rewrite pos_iter_xO, Zdigits2_shift by lia.
      change (Zdigits2 (Zpos mx)) with (Zpos (digits2_pos mx)).
      rewrite fexp_eq. lia.
Qed.

(** *** Keys

    The value of a float in units of 2^-1074, the infinities at
    +-2^2098. *)
Definition BIG : Z := 2 ^ 2098.

Definition mag (m : positive) (e : Z) : Z := Zpos m * 2 ^ (e + 1074).

Definition key (x : spec_float) : Z :=
  match x with
  | S754_zero _ => 0
  | S754_infinity s => if s then - BIG else BIG
  | S754_nan => 0
  | S754_finite s m e => if s then - mag m e else mag m e
  end.

Definition is_nan (x : spec_float) : bool :=
  match x with S754_nan => true | _ => false end.

Definition valid (x : spec_float) : Prop := valid_binary x = true.

Lemma BIG_pos : 0 < BIG.
Proof. apply pow2_pos. lia. Qed.

Lemma valid_finite (s : bool) (m : positive) (e : Z) :
  valid (S754_finite s m e) ->
  -1074 <= e <= 971 /\ Zdigits2 (Zpos m) <= 53 /\
  (Zdigits2 (Zpos m) = 53 \/ e = -1074).
Proof.
  unfold valid, valid_binary, bounded, canonical_mantissa.
  rewrite andb_true_iff, Z.eqb_eq, Z.leb_le, fexp_eq.
  change (Zdigits2 (Zpos m)) with (Zpos (digits2_pos m)).
  change (emax - prec) with 971. lia.
Qed.

Lemma finite_valid (s : bool) (m : positive) (e : Z) :
  -1074 <= e <= 971 -> Zdigits2 (Zpos m) <= 53 ->
  (Zdigits2 (Zpos m) = 53 \/ e = -1074) ->
  valid (S754_finite s m e).
Proof.
  unfold valid, valid_binary, bounded, canonical_mantissa.
  rewrite andb_true_iff, Z.eqb_eq, Z.leb_le, fexp_eq.
  change (Zdigits2 (Zpos m)) with (Zpos (digits2_pos m)).
  change (emax - prec) with 971. lia.
Qed.

Lemma mag_pos (m : positive) (e : Z) : -1074 <= e -> 0 < mag m e.
Proof. intros He. unfold mag. pose proof (pow2_pos (e + 1074)). nia. Qed.

Lemma mag_bounds (m : positive) (e : Z) :
  -1074 <= e ->
  2 ^ (Zdigits2 (Zpos m) - 1 + (e + 1074)) <= mag m e
    < 2 ^ (Zdigits2 (Zpos m) + (e + 1074)).
Proof.
  intros He. unfold mag.
  pose proof (Zdigits2_bounds (Zpos m) ltac:(lia)) as [Hlo Hhi].
  pose proof (Zdigits2_pos (Zpos m) ltac:(lia)) as Hd.
  pose proof (pow2_pos (e + 1074) ltac:(lia)) as Hp.
  rewrite (Z.pow_add_r 2 (Zdigits2 (Zpos m) - 1)) by lia.
  rewrite (Z.pow_add_r 2 (Zdigits2 (Zpos m))) by lia.
  nia.
Qed.

Lemma mag_lt_BIG (s : bool) (m : positive) (e : Z) :
  valid (S754_finite s m e) -> mag m e < BIG.
Proof.
  intros Hv. apply valid_finite in Hv as (He & Hd & _).
  pose proof (mag_bounds m e ltac:(lia)) as [_ Hhi].
  assert (2 ^ (Zdigits2 (Zpos m) + (e + 1074)) <= BIG)
    by (unfold BIG; apply Z.pow_le_mono_r; lia).
  lia.
Qed.

(** Canonical floats are ordered as their keys. *)
Lemma mag_compare (s1 s2 : bool) (m1 m2 : positive) (e1 e2 : Z) :
  valid (S754_finite s1 m1 e1) -> valid (S754_finite s2 m2 e2) ->
  match e1 ?= e2 with
  | Lt => Lt
  | Gt => Gt
  | Eq => Pos.compare_cont Eq m1 m2
  end = (mag m1 e1 ?= mag m2 e2).
Proof.
  intros Hv1 Hv2.
  apply valid_finite in Hv1 as (He1 & Hd1 & Hc1).
  apply valid_finite in Hv2 as (He2 & Hd2 & Hc2).
  pose proof (mag_bounds m1 e1 ltac:(lia)) as [Hlo1 Hhi1].
  pose proof (mag_bounds m2 e2 ltac:(lia)) as [Hlo2 Hhi2].
  pose proof (Zdigits2_pos (Zpos m1) ltac:(lia)) as Hp1.
  pose proof (Zdigits2_pos (Zpos m2) ltac:(lia)) as Hp2.
  destruct (Z.compare_spec e1 e2) as [Heq|Hlt|Hgt]; symmetry.
  - subst e2. unfold mag. change (Pos.compare_cont Eq m1 m2) with (Zpos m1 ?= Zpos m2).
    pose proof (pow2_pos (e1 + 1074) ltac:(lia)) as Hp.
    destruct (Z.compare_spec (Zpos m1) (Zpos m2)) as [H|H|H].
    + apply Z.compare_eq_iff. now rewrite H.
    + apply Z.compare_lt_iff. nia.
    + apply Z.compare_gt_iff. nia.
  - apply Z.compare_lt_iff.
    assert (Zdigits2 (Zpos m2) = 53) by lia.
    assert (2 ^ (Zdigits2 (Zpos m1) + (e1 + 1074))
            <= 2 ^ (Zdigits2 (Zpos m2) - 1 + (e2 + 1074)))
      by (apply Z.pow_le_mono_r; lia).
    lia.
  - apply Z.compare_gt_iff.
    assert (Zdigits2 (Zpos m1) = 53) by lia.
    assert (2 ^ (Zdigits2 (Zpos m2) + (e2 + 1074))
            <= 2 ^ (Zdigits2 (Zpos m1) - 1 + (e1 + 1074)))
      by (apply Z.pow_le_mono_r; lia).
    lia.
Qed.

Ltac by_compare :=
  f_equal; symmetry;
  first [ apply Z.compare_eq_iff; lia
        | apply Z.compare_lt_iff; lia
        | apply Z.compare_gt_iff; lia ].

Lemma SFcompare_key (x y : spec_float) :
  valid x -> valid y -> is_nan x = false -> is_nan y = false ->
  SFcompare x y = Some (key x ?= key y).
Proof.
  intros Hx Hy Hnx Hny. pose proof BIG_pos as HB.
  destruct x as [sx|sx| |sx mx ex], y as [sy|sy| |sy my ey];
    try discriminate; cbn [SFcompare key].
  - reflexivity.
  - destruct sy; by_compare.
  - pose proof (mag_pos my ey ltac:(apply valid_finite in Hy; lia)).
    destruct sy; by_compare.
  - destruct sx; by_compare.
  - destruct sx, sy; by_compare.
  - pose proof (mag_lt_BIG sy my ey Hy).
    pose proof (mag_pos my ey ltac:(apply valid_finite in Hy; lia)).
    destruct sx, sy; by_compare.
  - pose proof (mag_pos mx ex ltac:(apply valid_finite in Hx; lia)).
    destruct sx; by_compare.
  - pose proof (mag_lt_BIG sx mx ex Hx).
    pose proof (mag_pos mx ex ltac:(apply valid_finite in Hx; lia)).
    destruct sx, sy; by_compare.
  - pose proof (mag_pos mx ex ltac:(apply valid_finite in Hx; lia)).
    pose proof (mag_pos my ey ltac:(apply valid_finite in Hy; lia)).
    pose proof (mag_compare sx sy mx my ex ey Hx Hy) as Hc.
    destruct sx, sy; f_equal.
    + rewrite Z.compare_opp, (Z.compare_antisym (mag mx ex) (mag my ey)), <- Hc.
      destruct (ex ?= ey); reflexivity.
    + symmetry. apply Z.compare_lt_iff. lia.
    + symmetry. apply Z.compare_gt_iff. lia.
    + exact Hc.
Qed.

Lemma SFltb_key (x y : spec_float) :
  valid x -> valid y -> is_nan x = false -> is_nan y = false ->
  SFltb x y = (key x <? key y).
Proof.
  intros Hx Hy Hnx Hny. unfold SFltb, Z.ltb.
  rewrite (SFcompare_key x y Hx Hy Hnx Hny). reflexivity.
Qed.

Lemma SFleb_key (x y : spec_float) :
  valid x -> valid y -> is_nan x = false -> is_nan y = false ->
  SFleb x y = (key x <=? key y).
Proof.
  intros Hx Hy Hnx Hny. unfold SFleb, Z.leb.
  rewrite (SFcompare_key x y Hx Hy Hnx Hny).
  destruct (key x ?= key y); reflexivity.
Qed.

Lemma SFltb_nan (x y : spec_float) :
  SFltb x y = true -> is_nan x = false /\ is_nan y = false.
Proof. destruct x as [| | |], y as [| | |]; cbn; auto; discriminate. Qed.

Lemma SFleb_nan (x y : spec_float) :
  SFleb x y = true -> is_nan x = false /\ is_nan y = false.
Proof. destruct x as [| | |], y as [| | |]; cbn; auto; discriminate. Qed.

(** The float [rnd] builds. *)
Definition sgn (s : bool) (z : Z) : Z := if s then - z else z.

Lemma rnd_spec (sx : bool) (N : Z) :
  0 < N ->
  valid (rnd sx N) /\ is_nan (rnd sx N) = false /\
  key (rnd sx N) = sgn sx (Z.min (W N) BIG).
Proof.
  intros HN. unfold rnd, W. set (k := drop N). set (m2 := rne N k).
  pose proof (Zdigits2_bounds N HN) as [HNlo HNhi].
  pose proof (Zdigits2_pos N HN) as Hd.
  pose proof (drop_nonneg N) as Hk. fold k in Hk.
  pose proof (pow2_pos k Hk) as Hpk.
  destruct (Z.le_gt_cases (Zdigits2 N) 53) as [Hsmall|Hbig].
  - assert (Hk0 : k = 0) by (unfold k, drop; lia).
    assert (Hm2 : m2 = N).
    { unfold m2. rewrite Hk0. rewrite <- (Z.mul_1_r N) at 1.
      change 1 with (2 ^ 0). now apply rne_exact. }
    assert (HN53 : N < 2 ^ 53).
    { assert (2 ^ Zdigits2 N <= 2 ^ 53) by (apply Z.pow_le_mono_r; lia). lia. }
    rewrite Hm2, Hk0.
    replace (N =? 2 ^ 53) with false by (symmetry; apply Z.eqb_neq; lia).
    destruct N as [|p|p]; try lia.
    change (0 - 1074 <=? 971) with true. cbv iota.
    split; [|split; [reflexivity|]].
    + apply finite_valid; [lia|exact Hsmall|now right].
    + cbn [key]. unfold mag. change (2 ^ (0 - 1074 + 1074)) with 1.
      change (2 ^ 0) with 1. rewrite !Z.mul_1_r.
      assert (Zpos p < BIG).
      { assert (2 ^ 53 <= BIG) by (unfold BIG; apply Z.pow_le_mono_r; lia). lia. }
      now rewrite Z.min_l by lia.
  - assert (Hkd : k = Zdigits2 N - 53) by (unfold k, drop; lia).
    assert (Hlo : 2 ^ 52 <= m2).
    { apply rne_ge; [exact Hk|].
      rewrite <- Z.pow_add_r by lia.
      replace (52 + k) with (Zdigits2 N - 1) by lia. exact HNlo. }
    assert (Hhi : m2 <= 2 ^ 53).
    { apply rne_le; [exact Hk|].
      rewrite <- Z.pow_add_r by lia.
      replace (53 + k) with (Zdigits2 N) by lia. lia. }
    set (m := if m2 =? 2 ^ 53 then 2 ^ 52 else m2).
    set (e := (if m2 =? 2 ^ 53 then k + 1 else k) - 1074).
    assert (Hm : 2 ^ 52 <= m < 2 ^ 53).
    { unfold m. destruct (Z.eqb_spec m2 (2 ^ 53)); lia. }
    assert (Hval : m * 2 ^ (e + 1074) = m2 * 2 ^ k).
    { unfold m, e. destruct (Z.eqb_spec m2 (2 ^ 53)) as [->|_].
      - replace (k + 1 - 1074 + 1074) with (Z.succ k) by lia.
        rewrite Z.pow_succ_r by lia. change (2 ^ 53) with (2 ^ 52 * 2). lia.
      - now replace (k - 1074 + 1074) with k by lia. }
    assert (He : -1074 <= e) by (unfold e; destruct (m2 =? 2 ^ 53); lia).
    assert (Hdm : Zdigits2 m = 53) by (apply Zdigits2_unique; lia).
    destruct m as [|p|p] eqn:Hmp; try lia.
    destruct (Z.leb_spec e 971) as [Hfin|Hover].
    + split; [|split; [reflexivity|]].
      * apply finite_valid; [lia|lia|now left].
      * cbn [key]. unfold mag. rewrite Hval.
        assert (Zpos p * 2 ^ (e + 1074) < BIG).
        { assert (2 ^ 53 * 2 ^ (e + 1074) <= BIG).
          { rewrite <- Z.pow_add_r by lia. unfold BIG.
            apply Z.pow_le_mono_r; lia. }
          pose proof (pow2_pos (e + 1074) ltac:(lia)). nia. }
        rewrite Z.min_l by lia. reflexivity.
    + split; [reflexivity|]. split; [reflexivity|].
      cbn [key].
      assert (BIG <= Zpos p * 2 ^ (e + 1074)).
      { assert (BIG <= 2 ^ 52 * 2 ^ (e + 1074)).
        { rewrite <- Z.pow_add_r by lia. unfold BIG.
          apply Z.pow_le_mono_r; lia. }
        pose proof (pow2_pos (e + 1074) ltac:(lia)). nia. }
      rewrite Z.min_r by lia. destruct sx; reflexivity.
Qed.

Lemma W_representable (s : bool) (m : positive) (e : Z) :
  valid (S754_finite s m e) -> W (mag m e) = mag m e.
Proof.
  intros Hv. apply valid_finite in Hv as (He & Hd & Hc).
  unfold W.
  assert (Hdrop : drop (mag m e) = e + 1074).
  { unfold drop, mag. rewrite Zdigits2_shift by lia. lia. }
  rewrite Hdrop. unfold mag at 1. rewrite rne_exact by lia. reflexivity.
Qed.

(** *** Rounding a signed scaled integer *)
Definition Vs (N : Z) : Z :=
  match N with
  | Z0 => 0
  | Zpos _ => Z.min (W N) BIG
  | Zneg _ => - Z.min (W (- N)) BIG
  end.

Lemma Vs_pos (N : Z) : 0 < N -> Vs N = Z.min (W N) BIG.
Proof. destruct N; try lia. reflexivity. Qed.

Lemma Vs_neg (N : Z) : N < 0 -> Vs N = - Z.min (W (- N)) BIG.
Proof. destruct N; try lia. reflexivity. Qed.

Lemma Vs_sign_pos (N : Z) : 0 < N -> 0 < Vs N.
Proof.
  intros HN. rewrite Vs_pos by exact HN.
  pose proof (W_pos N HN). pose proof BIG_pos. lia.
Qed.

Lemma Vs_sign_neg (N : Z) : N < 0 -> Vs N < 0.
Proof.
  intros HN. rewrite Vs_neg by exact HN.
  pose proof (W_pos (- N) ltac:(lia)). pose proof BIG_pos. lia.
Qed.

Lemma Vs_bound (N : Z) : - BIG <= Vs N <= BIG.
Proof.
  pose proof BIG_pos.
  destruct (Z.lt_trichotomy N 0) as [Hn|[->|Hp]].
  - rewrite Vs_neg by exact Hn. pose proof (W_pos (- N) ltac:(lia)). lia.
  - cbn. lia.
  - rewrite Vs_pos by exact Hp. pose proof (W_pos N Hp). lia.
Qed.

Lemma Vs_mono (a b : Z) : a <= b -> Vs a <= Vs b.
Proof.
  intros Hab.
  destruct (Z.lt_trichotomy a 0) as [Ha|[->|Ha]];
    destruct (Z.lt_trichotomy b 0) as [Hb|[->|Hb]]; try lia.
  - rewrite !Vs_neg by assumption.
    pose proof (W_mono (- b) (- a) ltac:(lia) ltac:(lia)). lia.
  - pose proof (Vs_sign_neg a Ha). cbn [Vs]. lia.
  - pose proof (Vs_sign_neg a Ha). pose proof (Vs_sign_pos b Hb). lia.
  - pose proof (Vs_sign_pos b Hb). cbn [Vs]. lia.
  - rewrite !Vs_pos by assumption.
    pose proof (W_mono a b Ha Hab). lia.
Qed.

Definition fin (x : spec_float) : bool :=
  match x with
  | S754_zero _ | S754_finite _ _ _ => true
  | _ => false
  end.

Lemma key_fin_bound (x : spec_float) :
  valid x -> fin x = true -> - BIG < key x < BIG.
Proof.
  intros Hv Hf. pose proof BIG_pos.
  destruct x as [s|s| |s m e]; try discriminate; cbn [key]; [lia|].
  pose proof (mag_lt_BIG s m e Hv).
  pose proof (mag_pos m e ltac:(apply valid_finite in Hv; lia)).
  destruct s; lia.
Qed.

Lemma Vs_key (x : spec_float) :
  valid x -> fin x = true -> Vs (key x) = key x.
Proof.
  intros Hv Hf. destruct x as [s|s| |s m e]; try discriminate; cbn [key];
    [reflexivity|].
  pose proof (mag_lt_BIG s m e Hv).
  pose proof (mag_pos m e ltac:(apply valid_finite in Hv; lia)).
  pose proof (W_representable s m e Hv) as HW.
  destruct s.
  - rewrite Vs_neg by lia. rewrite Z.opp_involutive, HW. lia.
  - rewrite Vs_pos by lia. rewrite HW. lia.
Qed.

Lemma shl_align_fst (mx : positive) (ex ez : Z) :
  ez <= ex -> Zpos (fst (shl_align mx ex ez)) = Zpos mx * 2 ^ (ex - ez).
Proof.
  intros Hle. unfold shl_align.
  destruct (ez - ex) as [|d|d] eqn:Hd; cbn [fst]; try lia.
  - replace (ex - ez) with 0 by lia. cbn. lia.
  - rewrite pos_iter_xO. f_equal. f_equal. lia.
Qed.

Lemma mag_align (mx : positive) (ex ez : Z) :
  -1074 <= ez -> ez <= ex ->
  mag mx ex = Zpos (fst (shl_align mx ex ez)) * 2 ^ (ez + 1074).
Proof.
  intros Hz Hle. rewrite shl_align_fst by exact Hle. unfold mag.
  rewrite <- Z.mul_assoc, <- Z.pow_add_r by lia. f_equal. f_equal. lia.
Qed.

Lemma binary_normalize_key (M ez : Z) :
  -1074 <= ez ->
  valid (binary_normalize prec emax M ez false) /\
  is_nan (binary_normalize prec emax M ez false) = false /\
  key (binary_normalize prec emax M ez false) = Vs (M * 2 ^ (ez + 1074)).
Proof.
  intros Hz. pose proof (pow2_pos (ez + 1074) ltac:(lia)) as Hp.
  destruct M as [|p|p]; cbn [binary_normalize].
  - repeat split.
  - rewrite binary_round_rnd by exact Hz.
    destruct (rnd_spec false (Zpos p * 2 ^ (ez + 1074)) ltac:(lia))
      as (Hv & Hn & Hk).
    split; [exact Hv|]. split; [exact Hn|].
    rewrite Hk, Vs_pos by lia. reflexivity.
  - rewrite binary_round_rnd by exact Hz.
    destruct (rnd_spec true (Zpos p * 2 ^ (ez + 1074)) ltac:(lia))
      as (Hv & Hn & Hk).
    split; [exact Hv|]. split; [exact Hn|].
    rewrite Hk, Vs_neg by lia. cbn [sgn].
    replace (- (Zneg p * 2 ^ (ez + 1074))) with (Zpos p * 2 ^ (ez + 1074)) by lia.
    reflexivity.
Qed.

(** *** Sums

    The sum of two finite floats. *)
Lemma SFadd_fin (x y : spec_float) :
  valid x -> valid y -> fin x = true -> fin y = true ->
  valid (SF64add x y) /\ is_nan (SF64add x y) = false /\
  key (SF64add x y) = Vs (key x + key y).
Proof.
  intros Hx Hy Hfx Hfy.
  destruct x as [sx|sx| |sx mx ex], y as [sy|sy| |sy my ey]; try discriminate.
  - cbn [SF64add SFadd key]. destruct sx, sy; repeat split.
  - change (SF64add (S754_zero sx) (S754_finite sy my ey))
      with (S754_finite sy my ey).
    split; [exact Hy|]. split; [reflexivity|].
    cbn [key]. rewrite Z.add_0_l.
    symmetry. exact (Vs_key (S754_finite sy my ey) Hy eq_refl).
  - change (SF64add (S754_finite sx mx ex) (S754_zero sy))
      with (S754_finite sx mx ex).
    split; [exact Hx|]. split; [reflexivity|].
    cbn [key]. rewrite Z.add_0_r.
    symmetry. exact (Vs_key (S754_finite sx mx ex) Hx eq_refl).
  - pose proof (valid_finite _ _ _ Hx) as (Hex & _).
    pose proof (valid_finite _ _ _ Hy) as (Hey & _).
    unfold SF64add, SFadd.
    set (ez := Z.min ex ey).
    set (M := cond_Zopp sx (Zpos (fst (shl_align mx ex ez)))
              + cond_Zopp sy (Zpos (fst (shl_align my ey ez)))).
    destruct (binary_normalize_key M ez ltac:(lia)) as (Hv & Hn & Hk).
    split; [exact Hv|]. split; [exact Hn|].
    rewrite Hk. f_equal. cbn [key].
    rewrite (mag_align mx ex ez), (mag_align my ey ez) by lia.
    unfold M. destruct sx, sy; cbn [cond_Zopp]; lia.
Qed.

(** Sums with infinities. *)
Definition opp_inf (a b : Z) : Prop :=
  (a = BIG /\ b = - BIG) \/ (a = - BIG /\ b = BIG).

Definition addk (a b : Z) : Z :=
  if (a =? BIG) || (a =? - BIG) then a
  else if (b =? BIG) || (b =? - BIG) then b
  else Vs (a + b).

Lemma key_range (x : spec_float) : valid x -> - BIG <= key x <= BIG.
Proof.
  intros Hv. pose proof BIG_pos.
  destruct x as [s|s| |s m e]; cbn [key]; try lia.
  - destruct s; lia.
  - pose proof (key_fin_bound (S754_finite s m e) Hv eq_refl) as Hb.
    cbn [key] in Hb. lia.
Qed.

Lemma addk_fin (a b : Z) :
  - BIG < a < BIG -> - BIG < b < BIG -> addk a b = Vs (a + b).
Proof.
  intros Ha Hb. unfold addk.
  destruct (Z.eqb_spec a BIG), (Z.eqb_spec a (- BIG)),
    (Z.eqb_spec b BIG), (Z.eqb_spec b (- BIG)); cbn [orb]; lia.
Qed.

Lemma addk_inf_l (b : Z) (s : bool) :
  addk (if s then - BIG else BIG) b = if s then - BIG else BIG.
Proof.
  pose proof BIG_pos. unfold addk.
  destruct s;
    [destruct (Z.eqb_spec (- BIG) BIG), (Z.eqb_spec (- BIG) (- BIG))
    |destruct (Z.eqb_spec BIG BIG), (Z.eqb_spec BIG (- BIG))];
    cbn [orb]; lia.
Qed.

Lemma addk_inf_r (a : Z) (s : bool) :
  - BIG < a < BIG ->
  addk a (if s then - BIG else BIG) = if s then - BIG else BIG.
Proof.
  intros Ha. pose proof BIG_pos. unfold addk.
  destruct (Z.eqb_spec a BIG), (Z.eqb_spec a (- BIG)); cbn [orb]; try lia.
  destruct s;
    [destruct (Z.eqb_spec (- BIG) BIG), (Z.eqb_spec (- BIG) (- BIG))
    |destruct (Z.eqb_spec BIG BIG), (Z.eqb_spec BIG (- BIG))];
    cbn [orb]; lia.
Qed.

Lemma SFadd_key (x y : spec_float) :
  valid x -> valid y -> is_nan x = false -> is_nan y = false ->
  ~ opp_inf (key x) (key y) ->
  valid (SF64add x y) /\ is_nan (SF64add x y) = false /\
  key (SF64add x y) = addk (key x) (key y).
Proof.
  intros Hx Hy Hnx Hny Hopp. pose proof BIG_pos as HB.
  destruct (fin x) eqn:Hfx; destruct (fin y) eqn:Hfy.
  - destruct (SFadd_fin x y Hx Hy Hfx Hfy) as (Hv & Hn & Hk).
    split; [exact Hv|]. split; [exact Hn|].
    rewrite Hk. symmetry. apply addk_fin; now apply key_fin_bound.
  - pose proof (key_fin_bound x Hx Hfx) as Hbx.
    destruct y as [sy|sy| |sy my ey]; try discriminate.
    assert (Hadd : SF64add x (S754_infinity sy) = S754_infinity sy)
      by (destruct x; try discriminate; reflexivity).
    rewrite Hadd. split; [reflexivity|]. split; [reflexivity|].
    cbn [key]. symmetry. now apply addk_inf_r.
  - pose proof (key_fin_bound y Hy Hfy) as Hby.
    destruct x as [sx|sx| |sx mx ex]; try discriminate.
    assert (Hadd : SF64add (S754_infinity sx) y = S754_infinity sx)
      by (destruct y; try discriminate; reflexivity).
    rewrite Hadd. split; [reflexivity|]. split; [reflexivity|].
    cbn [key]. symmetry. apply addk_inf_l.
  - destruct x as [sx|sx| |sx mx ex]; try discriminate.
    destruct y as [sy|sy| |sy my ey]; try discriminate.
    destruct sx, sy; cbn [key] in Hopp |- *;
      try (exfalso; apply Hopp; unfold opp_inf; lia);
      (split; [reflexivity|]; split; [reflexivity|]).
    + symmetry. apply (addk_inf_l (- BIG) true).
    + symmetry. apply (addk_inf_l BIG false).
Qed.

Lemma SFadd_nan (x y : spec_float) :
  valid x -> valid y ->
  is_nan (SF64add x y) = false ->
  is_nan x = false /\ is_nan y = false /\ ~ opp_inf (key x) (key y).
Proof.
  intros Hx Hy. pose proof BIG_pos as HB.
  pose proof (key_fin_bound x Hx) as Hbx.
  pose proof (key_fin_bound y Hy) as Hby.
  unfold SF64add.
  destruct x as [sx|sx| |sx mx ex], y as [sy|sy| |sy my ey];
    cbn [SFadd is_nan]; try discriminate; intros Hn;
    (split; [reflexivity|]; split; [reflexivity|]); unfold opp_inf;
    cbn [key fin] in *;
    try specialize (Hbx eq_refl); try specialize (Hby eq_refl).
  all: try lia.
  all: try (destruct sy; lia).
  all: try (destruct sx; lia).
  all: try (destruct sx, sy; try discriminate; lia).
Qed.

(** Monotonicity on keys. *)
Lemma addk_upper (a b b' v : Z) :
  - BIG <= b <= BIG -> - BIG <= b' <= BIG -> - BIG <= v ->
  b <= b' -> ~ opp_inf a b -> v < addk a b ->
  ~ opp_inf a b' /\ v < addk a b'.
Proof.
  intros Hb Hb' Hv Hle Hopp Hlt. pose proof BIG_pos as HB.
  pose proof (Vs_mono (a + b) (a + b') ltac:(lia)) as Hm.
  pose proof (Vs_bound (a + b)) as Hr. pose proof (Vs_bound (a + b')) as Hr'.
  unfold addk, opp_inf in *.
  destruct (Z.eqb_spec a BIG), (Z.eqb_spec a (- BIG)),
    (Z.eqb_spec b BIG), (Z.eqb_spec b (- BIG)),
    (Z.eqb_spec b' BIG), (Z.eqb_spec b' (- BIG));
    cbn [orb] in *; split; lia.
Qed.

Lemma addk_lower (a b b' v : Z) :
  - BIG <= b <= BIG -> - BIG <= b' <= BIG -> v <= BIG ->
  b <= b' -> ~ opp_inf a b' -> addk a b' < v ->
  ~ opp_inf a b /\ addk a b < v.
Proof.
  intros Hb Hb' Hv Hle Hopp Hlt. pose proof BIG_pos as HB.
  pose proof (Vs_mono (a + b) (a + b') ltac:(lia)) as Hm.
  pose proof (Vs_bound (a + b)) as Hr. pose proof (Vs_bound (a + b')) as Hr'.
  unfold addk, opp_inf in *.
  destruct (Z.eqb_spec a BIG), (Z.eqb_spec a (- BIG)),
    (Z.eqb_spec b BIG), (Z.eqb_spec b (- BIG)),
    (Z.eqb_spec b' BIG), (Z.eqb_spec b' (- BIG));
    cbn [orb] in *; split; lia.
Qed.

Lemma addk_nonpos (l u : Z) :
  - BIG <= l <= BIG -> - BIG <= u <= BIG ->
  ~ opp_inf l u -> addk l u <= 0 -> u <= - l.
Proof.
  intros Hl Hu Hopp Hle. pose proof BIG_pos as HB.
  assert (Hs : Vs (l + u) <= 0 -> l + u <= 0).
  { intros Hv. destruct (Z.le_gt_cases (l + u) 0) as [|Hp]; [assumption|].
    pose proof (Vs_sign_pos (l + u) ltac:(lia)). lia. }
  unfold addk, opp_inf in *.
  destruct (Z.eqb_spec l BIG), (Z.eqb_spec l (- BIG)),
    (Z.eqb_spec u BIG), (Z.eqb_spec u (- BIG));
    cbn [orb] in *; lia.
Qed.

(** *** The order laws on specification floats *)
Lemma SF_add_upper_mono (c u u' v : spec_float) :
  valid c -> valid u -> valid u' -> valid v ->
  SFleb u u' = true -> SFltb v (SF64add c u) = true ->
  SFltb v (SF64add c u') = true.
Proof.
  intros Hc Hu Hu' Hv Hle Hlt.
  destruct (SFleb_nan _ _ Hle) as [Hnu Hnu'].
  destruct (SFltb_nan _ _ Hlt) as [Hnv Hncu].
  destruct (SFadd_nan c u Hc Hu Hncu) as (Hnc & _ & Hopp).
  destruct (SFadd_key c u Hc Hu Hnc Hnu Hopp) as (Hvcu & _ & Hkcu).
  rewrite SFleb_key in Hle by assumption. apply Z.leb_le in Hle.
  rewrite SFltb_key in Hlt by assumption. apply Z.ltb_lt in Hlt.
  rewrite Hkcu in Hlt.
  destruct (addk_upper (key c) (key u) (key u') (key v)
              (key_range u Hu) (key_range u' Hu')
              (proj1 (key_range v Hv)) Hle Hopp Hlt) as [Hopp' Hlt'].
  destruct (SFadd_key c u' Hc Hu' Hnc Hnu' Hopp') as (Hvcu' & Hncu' & Hkcu').
  rewrite SFltb_key by assumption. apply Z.ltb_lt. now rewrite Hkcu'.
Qed.

Lemma SF_add_lower_mono (c u u' v : spec_float) :
  valid c -> valid u -> valid u' -> valid v ->
  SFleb u u' = true -> SFltb (SF64add c u') v = true ->
  SFltb (SF64add c u) v = true.
Proof.
  intros Hc Hu Hu' Hv Hle Hlt.
  destruct (SFleb_nan _ _ Hle) as [Hnu Hnu'].
  destruct (SFltb_nan _ _ Hlt) as [Hncu' Hnv].
  destruct (SFadd_nan c u' Hc Hu' Hncu') as (Hnc & _ & Hopp').
  destruct (SFadd_key c u' Hc Hu' Hnc Hnu' Hopp') as (Hvcu' & _ & Hkcu').
  rewrite SFleb_key in Hle by assumption. apply Z.leb_le in Hle.
  rewrite SFltb_key in Hlt by assumption. apply Z.ltb_lt in Hlt.
  rewrite Hkcu' in Hlt.
  destruct (addk_lower (key c) (key u) (key u') (key v)
              (key_range u Hu) (key_range u' Hu')
              (proj2 (key_range v Hv)) Hle Hopp' Hlt) as [Hopp Hlt'].
  destruct (SFadd_key c u Hc Hu Hnc Hnu Hopp) as (Hvcu & Hncu & Hkcu).
  rewrite SFltb_key by assumption. apply Z.ltb_lt. now rewrite Hkcu.
Qed.

Lemma SFopp_key (x : spec_float) :
  valid x -> valid (SFopp x) /\ is_nan (SFopp x) = is_nan x /\
  key (SFopp x) = - key x.
Proof.
  intros Hx. destruct x as [s|s| |s m e]; cbn [SFopp key is_nan].
  - repeat split.
  - repeat split. destruct s; cbn [negb]; lia.
  - repeat split.
  - split; [exact Hx|]. split; [reflexivity|]. destruct s; cbn [negb]; lia.
Qed.

Lemma SF_opp_le (l l' : spec_float) :
  valid l -> valid l' ->
  SFleb l l' = true -> SFleb (SFopp l') (SFopp l) = true.
Proof.
  intros Hl Hl' Hle. destruct (SFleb_nan _ _ Hle) as [Hn Hn'].
  destruct (SFopp_key l Hl) as (Hvo & Hno & Hko).
  destruct (SFopp_key l' Hl') as (Hvo' & Hno' & Hko').
  rewrite SFleb_key in Hle by assumption. apply Z.leb_le in Hle.
  rewrite SFleb_key by congruence. apply Z.leb_le. lia.
Qed.

Lemma SF_add_nonpos (l u : spec_float) :
  valid l -> valid u ->
  SFleb (SF64add l u) (S754_zero false) = true ->
  SFleb u (SFopp l) = true.
Proof.
  intros Hl Hu Hle. destruct (SFleb_nan _ _ Hle) as [Hnlu _].
  destruct (SFadd_nan l u Hl Hu Hnlu) as (Hnl & Hnu & Hopp).
  destruct (SFadd_key l u Hl Hu Hnl Hnu Hopp) as (Hvlu & _ & Hklu).
  destruct (SFopp_key l Hl) as (Hvo & Hno & Hko).
  rewrite SFleb_key in Hle by (try assumption; reflexivity).
  apply Z.leb_le in Hle. rewrite Hklu in Hle. cbn [key] in Hle.
  rewrite SFleb_key by congruence. apply Z.leb_le. rewrite Hko.
  exact (addk_nonpos (key l) (key u) (key_range l Hl) (key_range u Hu) Hopp Hle).
Qed.

Lemma SF_sub_add_opp (x y : spec_float) :
  SF64sub x y = SF64add x (SFopp y).
Proof.
  unfold SF64sub, SF64add.
  destruct x as [sx|sx| |sx mx ex], y as [sy|sy| |sy my ey];
    cbn [SFsub SFadd SFopp]; try reflexivity;
    destruct sx, sy; reflexivity.
Qed.

(** *** Quotients

    The second half of [binary_round_aux]: renormalising a rounded
    mantissa *)
Definition finish (sx : bool) (m2 e0 : Z) : spec_float :=
  let '(mrs, e) := shr_fexp prec emax m2 e0 loc_Exact in
  match shr_m mrs with
  | Z0 => S754_zero sx
  | Zpos m => if e <=? emax - prec then S754_finite sx m e else S754_infinity sx
  | Zneg _ => S754_nan
  end.

Lemma binary_round_aux_finish (sx : bool) (mx ex : Z) (lx : location) :
  binary_round_aux prec emax sx mx ex lx
  = finish sx
      (round_nearest_even (shr_m (fst (shr_fexp prec emax mx ex lx)))
         (loc_of_shr_record (fst (shr_fexp prec emax mx ex lx))))
      (snd (shr_fexp prec emax mx ex lx)).
Proof.
  unfold binary_round_aux, finish.
  destruct (shr_fexp prec emax mx ex lx) as [mrs e]. reflexivity.
Qed.

Lemma finish_spec (sx : bool) (m2 e0 : Z) :
  -1074 <= e0 -> 0 <= m2 <= 2 ^ 53 -> (m2 < 2 ^ 52 -> e0 = -1074) ->
  valid (finish sx m2 e0) /\ is_nan (finish sx m2 e0) = false /\
  key (finish sx m2 e0) = sgn sx (Z.min (m2 * 2 ^ (e0 + 1074)) BIG).
Proof.
  intros He0 Hm2 Hsub. pose proof BIG_pos as HB.
  pose proof (pow2_pos (e0 + 1074) ltac:(lia)) as Hp.
  unfold finish, shr_fexp. rewrite fexp_eq. cbn [shr_record_of_loc].
  change (emax - prec) with 971.
  destruct (Z.eq_dec m2 0) as [Hz|Hnz].
  - subst m2. change (Zdigits2 0) with 0.
    assert (Hs : Z.max (0 + e0 - 53) (-1074) - e0 <= 0) by lia.
    destruct (Z.max (0 + e0 - 53) (-1074) - e0) as [|p|p] eqn:E; try lia;
      cbn [shr shr_m key]; (split; [reflexivity|]; split; [reflexivity|]);
      rewrite Z.mul_0_l, Z.min_l by lia; destruct sx; reflexivity.
  - pose proof (Zdigits2_bounds m2 ltac:(lia)) as [Hlo Hhi].
    pose proof (Zdigits2_pos m2 ltac:(lia)) as Hd.
    destruct (Z.eq_dec m2 (2 ^ 53)) as [Hcarry|Hnc].
    + subst m2. change (Zdigits2 (2 ^ 53)) with 54.
      replace (Z.max (54 + e0 - 53) (-1074) - e0) with 1 by lia.
      cbn [shr iter_pos].
      assert (Hshr : shr_1 {| shr_m := 2 ^ 53; shr_r := false; shr_s := false |}
                     = {| shr_m := 4503599627370496; shr_r := false;
                          shr_s := false |}) by reflexivity.
      rewrite Hshr. cbn [shr_m].
      assert (Hval : 4503599627370496 * 2 ^ (e0 + 1 + 1074)
                     = 2 ^ 53 * 2 ^ (e0 + 1074)).
      { replace (e0 + 1 + 1074) with (Z.succ (e0 + 1074)) by lia.
        rewrite Z.pow_succ_r by lia.
        change (2 ^ 53) with (4503599627370496 * 2). lia. }
      destruct (Z.leb_spec (e0 + 1) 971) as [Hfin|Hover].
      * split; [|split; [reflexivity|]].
        -- apply finite_valid; [lia|cbn; lia|left; reflexivity].
        -- cbn [key]. unfold mag. rewrite Hval.
           assert (2 ^ 53 * 2 ^ (e0 + 1074) < BIG).
           { rewrite <- Z.pow_add_r by lia. unfold BIG.
             apply Z.pow_lt_mono_r; lia. }
           rewrite Z.min_l by lia. reflexivity.
      * split; [reflexivity|]. split; [reflexivity|]. cbn [key].
        assert (BIG <= 2 ^ 53 * 2 ^ (e0 + 1074)).
        { rewrite <- Z.pow_add_r by lia. unfold BIG.
          apply Z.pow_le_mono_r; lia. }
        rewrite Z.min_r by lia. destruct sx; reflexivity.
    + assert (Hd53 : Zdigits2 m2 <= 53).
      { destruct (Z.le_gt_cases (Zdigits2 m2) 53) as [|Hgt]; [assumption|].
        assert (2 ^ 53 <= 2 ^ (Zdigits2 m2 - 1)) by (apply Z.pow_le_mono_r; lia).
        lia. }
      assert (Hcanon : Zdigits2 m2 = 53 \/ e0 = -1074).
      { destruct (Z.lt_ge_cases m2 (2 ^ 52)) as [Hlt|Hge]; [right; auto|left].
        apply Zdigits2_unique; lia. }
      replace (Z.max (Zdigits2 m2 + e0 - 53) (-1074) - e0) with 0 by lia.
      cbn [shr shr_m].
      destruct m2 as [|p|p]; try lia.
      destruct (Z.leb_spec e0 971) as [Hfin|Hover].
      * split; [|split; [reflexivity|]].
        -- apply finite_valid; [lia|exact Hd53|exact Hcanon].
        -- cbn [key]. unfold mag.
           assert (Zpos p * 2 ^ (e0 + 1074) < BIG).
           { assert (2 ^ 53 * 2 ^ (e0 + 1074) <= BIG).
             { rewrite <- Z.pow_add_r by lia. unfold BIG.
               apply Z.pow_le_mono_r; lia. }
             nia. }
           rewrite Z.min_l by lia. reflexivity.
      * split; [reflexivity|]. split; [reflexivity|]. cbn [key].
        assert (Hbig : Zdigits2 (Zpos p) = 53) by lia.
        assert (BIG <= Zpos p * 2 ^ (e0 + 1074)).
        { assert (BIG <= 2 ^ 52 * 2 ^ (e0 + 1074)).
          { rewrite <- Z.pow_add_r by lia. unfold BIG.
            apply Z.pow_le_mono_r; lia. }
          rewrite Hbig in Hlo. change (2 ^ (53 - 1)) with (2 ^ 52) in Hlo. nia. }
        rewrite Z.min_r by lia. destruct sx; reflexivity.
Qed.

(** A mantissa with its location is two shift steps of a longer one. *)
Definition loc_code (l : location) : Z :=
  match l with
  | loc_Exact => 0
  | loc_Inexact Lt => 1
  | loc_Inexact Eq => 2
  | loc_Inexact Gt => 3
  end.

Lemma loc_code_range (l : location) : 0 <= loc_code l <= 3.
Proof. destruct l as [|[| |]]; cbn; lia. Qed.

Lemma shr_record_of_loc_iter (q : Z) (l : location) :
  0 <= q ->
  shr_record_of_loc q l
  = Nat.iter 2 shr_1 (Build_shr_record (4 * q + loc_code l) false false).
Proof.
  intros Hq. unfold Nat.iter. cbn [nat_rect].
  assert (Hhalf : forall c, 0 <= c <= 1 -> (2 * q + c) / 2 = q).
  { intros c Hc. symmetry. apply (Z.div_unique _ _ q c); lia. }
  assert (Hodd : forall c, Z.odd (2 * q + c) = Z.odd c).
  { intros c. rewrite Z.add_comm. apply Z.odd_add_mul_2. }
  destruct l as [|[| |]]; cbn [loc_code shr_record_of_loc].
  - rewrite shr_1_nonneg by lia.
    replace ((4 * q + 0) / 2) with (2 * q + 0)
      by (apply (Z.div_unique _ _ (2 * q + 0) 0); lia).
    replace (Z.odd (4 * q + 0)) with false
      by (replace (4 * q + 0) with (0 + 2 * (2 * q)) by lia;
          now rewrite Z.odd_add_mul_2).
    rewrite shr_1_nonneg by lia. now rewrite Hhalf, Hodd by lia.
  - rewrite shr_1_nonneg by lia.
    replace ((4 * q + 2) / 2) with (2 * q + 1)
      by (apply (Z.div_unique _ _ (2 * q + 1) 0); lia).
    replace (Z.odd (4 * q + 2)) with false
      by (replace (4 * q + 2) with (0 + 2 * (2 * q + 1)) by lia;
          now rewrite Z.odd_add_mul_2).
    rewrite shr_1_nonneg by lia. now rewrite Hhalf, Hodd by lia.
  - rewrite shr_1_nonneg by lia.
    replace ((4 * q + 1) / 2) with (2 * q + 0)
      by (apply (Z.div_unique _ _ (2 * q + 0) 1); lia).
    replace (Z.odd (4 * q + 1)) with true
      by (replace (4 * q + 1) with (1 + 2 * (2 * q)) by lia;
          now rewrite Z.odd_add_mul_2).
    rewrite shr_1_nonneg by lia. now rewrite Hhalf, Hodd by lia.
  - rewrite shr_1_nonneg by lia.
    replace ((4 * q + 3) / 2) with (2 * q + 1)
      by (apply (Z.div_unique _ _ (2 * q + 1) 1); lia).
    replace (Z.odd (4 * q + 3)) with true
      by (replace (4 * q + 3) with (1 + 2 * (2 * q + 1)) by lia;
          now rewrite Z.odd_add_mul_2).
    rewrite shr_1_nonneg by lia. now rewrite Hhalf, Hodd by lia.
Qed.

(** Rounding a quotient that is at most 1. *)
Lemma round_quotient (q e' : Z) (l : location) :
  0 <= q -> -1074 <= e' <= -53 ->
  4 * q + loc_code l <= 2 ^ (2 - e') ->
  (e' = -1074 /\ q < 2 ^ 53) \/ 2 ^ 52 <= q < 2 ^ 54 ->
  valid (binary_round_aux prec emax false q e' l) /\
  is_nan (binary_round_aux prec emax false q e' l) = false /\
  0 <= key (binary_round_aux prec emax false q e' l) <= 2 ^ 1074.
Proof.
  intros Hq He HM Hcase. pose proof BIG_pos as HB.
  pose proof (loc_code_range l) as Hc.
  set (M := 4 * q + loc_code l) in *.
  set (n1 := Z.max (Zdigits2 q + e' - 53) (-1074) - e').
  assert (Hn1 : (n1 = 0 /\ M <= 2 ^ 53 * 2 ^ 2 /\
                 (e' = -1074 \/ 2 ^ 52 * 2 ^ 2 <= M)) \/
                (n1 = 1 /\ M <= 2 ^ 53 * 2 ^ 3 /\ 2 ^ 52 * 2 ^ 3 <= M)).
  { destruct Hcase as [[He' Hq53]|[Hlo Hhi]].
    - left. split; [|split; [unfold M; lia|now left]].
      destruct (Z.eq_dec q 0) as [->|Hnz]; [unfold n1; cbn; lia|].
      pose proof (Zdigits2_bounds q ltac:(lia)) as [Hdlo _].
      assert (Zdigits2 q <= 53).
      { destruct (Z.le_gt_cases (Zdigits2 q) 53) as [|Hgt]; [assumption|].
        assert (2 ^ 53 <= 2 ^ (Zdigits2 q - 1)) by (apply Z.pow_le_mono_r; lia).
        lia. }
      unfold n1. lia.
    - destruct (Z.lt_ge_cases q (2 ^ 53)) as [Hlt|Hge].
      + left. assert (Zdigits2 q = 53) by (apply Zdigits2_unique; lia).
        split; [unfold n1; lia|]. split; [unfold M; lia|right; unfold M; lia].
      + right. assert (Zdigits2 q = 54) by (apply Zdigits2_unique; lia).
        split; [unfold n1; lia|]. split; unfold M; lia. }
  assert (Hn1' : 0 <= n1 <= 1) by lia.
  assert (Heq : binary_round_aux prec emax false q e' l
                = finish false (rne M (n1 + 2)) (e' + n1)).
  { rewrite binary_round_aux_finish. unfold shr_fexp.
    rewrite fexp_eq. fold n1.
    rewrite shr_nat by lia. cbn [fst snd].
    rewrite shr_record_of_loc_iter by exact Hq. fold M.
    rewrite <- Nat.iter_add.
    pose proof (shifted_iter M (Z.to_nat n1 + 2) ltac:(unfold M; lia)) as Hsh.
    apply shifted_rne in Hsh as [_ Hrne]. rewrite Hrne.
    now replace (Z.of_nat (Z.to_nat n1 + 2)) with (n1 + 2) by lia. }
  rewrite Heq. clear Heq.
  set (m2 := rne M (n1 + 2)).
  assert (Hm2lo : 0 <= m2).
  { apply rne_ge; [lia|]. unfold M. lia. }
  assert (Hm2hi : m2 <= 2 ^ 53).
  { apply rne_le; [lia|].
    destruct Hn1 as [(-> & H1 & _)|(-> & H1 & _)]; exact H1. }
  assert (Hm2sub : m2 < 2 ^ 52 -> e' + n1 = -1074).
  { intros Hlt.
    destruct Hn1 as [(Hn & _ & [He'|H2])|(Hn & _ & H2)].
    - lia.
    - assert (2 ^ 52 <= m2) by (apply rne_ge; [lia|]; now rewrite Hn). lia.
    - assert (2 ^ 52 <= m2) by (apply rne_ge; [lia|]; now rewrite Hn). lia. }
  assert (Hm2one : m2 <= 2 ^ (- (e' + n1))).
  { apply rne_le; [lia|].
    rewrite <- Z.pow_add_r by lia.
    replace (- (e' + n1) + (n1 + 2)) with (2 - e') by lia. exact HM. }
  destruct (finish_spec false m2 (e' + n1) ltac:(lia) ltac:(lia) Hm2sub)
    as (Hv & Hn & Hk).
  split; [exact Hv|]. split; [exact Hn|].
  rewrite Hk. cbn [sgn].
  pose proof (pow2_pos (e' + n1 + 1074) ltac:(lia)) as Hp.
  assert (Hval : m2 * 2 ^ (e' + n1 + 1074) <= 2 ^ 1074).
  { replace 1074 with (- (e' + n1) + (e' + n1 + 1074)) at 2 by lia.
    rewrite (Z.pow_add_r 2 (- (e' + n1))) by lia. nia. }
  split; [|lia].
  apply Z.min_glb; [nia|lia].
Qed.

(** The quotient of two positive integers, the smaller one on top. *)
Lemma new_location_0 (n : Z) : new_location n 0 = loc_Exact.
Proof. unfold new_location. destruct (Z.even n); reflexivity. Qed.

Lemma SFdiv_core_le_one (pm pn : positive) :
  Zpos pm <= Zpos pn ->
  exists q e' l,
    SFdiv_core_binary prec emax (Zpos pm) 0 (Zpos pn) 0 = (q, e', l) /\
    0 <= q /\ -1074 <= e' <= -53 /\
    4 * q + loc_code l <= 2 ^ (2 - e') /\
    ((e' = -1074 /\ q < 2 ^ 53) \/ 2 ^ 52 <= q < 2 ^ 54).
Proof.
  intros Hle. unfold SFdiv_core_binary.
  rewrite fexp_eq, !Z.add_0_r. change (0 - 0) with 0.
  pose proof (Zdigits2_bounds (Zpos pm) ltac:(lia)) as [Hm1 Hm2].
  pose proof (Zdigits2_bounds (Zpos pn) ltac:(lia)) as [Hn1 Hn2].
  pose proof (Zdigits2_pos (Zpos pm) ltac:(lia)) as Hd1.
  pose proof (Zdigits2_mono (Zpos pm) (Zpos pn) ltac:(lia) Hle) as Hd.
  set (d1 := Zdigits2 (Zpos pm)) in *. set (d2 := Zdigits2 (Zpos pn)) in *.
  rewrite (Z.min_l _ 0) by lia.
  set (e' := Z.max (d1 - d2 - 53) (-1074)).
  assert (He : -1074 <= e' <= -53) by (unfold e'; lia).
  destruct (0 - e') as [|s|s] eqn:Es; try lia.
  rewrite Z.shiftl_mul_pow2 by lia. rewrite <- Es. clear Es s.
  replace (0 - e') with (- e') by lia.
  set (m' := Zpos pm * 2 ^ (- e')).
  pose proof (pow2_pos (- e') ltac:(lia)) as Hp.
  pose proof (Z.div_mod m' (Zpos pn) ltac:(lia)) as Hdm.
  pose proof (Z.mod_pos_bound m' (Zpos pn) ltac:(lia)) as Hr.
  unfold Z.div, Z.modulo in Hdm, Hr.
  destruct (Z.div_eucl m' (Zpos pn)) as [q r].
  exists q, e', (new_location (Zpos pn) r).
  assert (Hq : 0 <= q) by nia.
  split; [reflexivity|]. split; [exact Hq|]. split; [exact He|]. split.
  - replace (2 - e') with (2 + - e') by lia.
    rewrite Z.pow_add_r by lia. change (2 ^ 2) with 4.
    destruct (Z.eq_dec r 0) as [->|Hnz].
    + rewrite new_location_0. cbn [loc_code].
      assert (q <= 2 ^ (- e')) by (unfold m' in Hdm; nia). lia.
    + pose proof (loc_code_range (new_location (Zpos pn) r)) as Hc.
      assert (q < 2 ^ (- e')) by (unfold m' in Hdm; nia). lia.
  - destruct (Z.le_gt_cases (-1074) (d1 - d2 - 53)) as [Hnorm|Hsub].
    + right. assert (Ee : - e' = 53 + d2 - d1) by (unfold e'; lia).
      assert (Hlow : 2 ^ 52 * 2 ^ d2 <= m').
      { unfold m'. rewrite Ee.
        replace (2 ^ 52 * 2 ^ d2) with (2 ^ (d1 - 1) * 2 ^ (53 + d2 - d1)).
        - apply Z.mul_le_mono_nonneg_r; [|exact Hm1].
          apply Z.pow_nonneg; lia.
        - rewrite <- !Z.pow_add_r by lia. f_equal. lia. }
      assert (Hupp : m' < 2 ^ 54 * 2 ^ (d2 - 1)).
      { unfold m'. rewrite Ee.
        replace (2 ^ 54 * 2 ^ (d2 - 1)) with (2 ^ d1 * 2 ^ (53 + d2 - d1)).
        - apply Z.mul_lt_mono_pos_r; [|exact Hm2].
          apply pow2_pos; lia.
        - rewrite <- !Z.pow_add_r by lia. f_equal. lia. }
      split; [|nia].
      destruct (Z.le_gt_cases (2 ^ 52) q) as [|Hlt]; [assumption|].
      assert (q + 1 <= 2 ^ 52) by lia.
      assert (Zpos pn * (q + 1) <= Zpos pn * 2 ^ 52)
        by (apply Z.mul_le_mono_nonneg_l; lia).
      assert (Zpos pn * 2 ^ 52 < 2 ^ d2 * 2 ^ 52)
        by (apply Z.mul_lt_mono_pos_r; [reflexivity|lia]).
      lia.
    + left. assert (Ee : e' = -1074) by (unfold e'; lia).
      split; [exact Ee|].
      assert (Hupp : m' < 2 ^ 53 * 2 ^ (d2 - 1)).
      { unfold m'. rewrite Ee. change (- -1074) with 1074.
        assert (Zpos pm * 2 ^ 1074 < 2 ^ d1 * 2 ^ 1074)
          by (apply Z.mul_lt_mono_pos_r; [reflexivity|exact Hm2]).
        assert (2 ^ d1 * 2 ^ 1074 <= 2 ^ 53 * 2 ^ (d2 - 1)).
        { rewrite <- !Z.pow_add_r by lia. apply Z.pow_le_mono_r; lia. }
        lia. }
      nia.
Qed.

Definition SF_of_nat (n : nat) : spec_float :=
  match n with
  | O => S754_zero false
  | S k => S754_finite false (Pos.of_succ_nat k) 0
  end.

Lemma SFdiv_le_one (m n : nat) :
  (m <= n)%nat -> (0 < n)%nat ->
  valid (SF64div (SF_of_nat m) (SF_of_nat n)) /\
  is_nan (SF64div (SF_of_nat m) (SF_of_nat n)) = false /\
  0 <= key (SF64div (SF_of_nat m) (SF_of_nat n)) <= 2 ^ 1074.
Proof.
  intros Hmn Hn. destruct n as [|n]; [lia|].
  destruct m as [|m]; cbn [SF_of_nat].
  - cbn. repeat split; try reflexivity; discriminate.
  - unfold SF64div, SFdiv.
    destruct (SFdiv_core_le_one (Pos.of_succ_nat m) (Pos.of_succ_nat n)
                ltac:(lia)) as (q & e' & l & -> & Hq & He & Hone & Hcase).
    cbn [xorb]. now apply round_quotient.
Qed.

(** *** Primitive floats

    [m / n] on two ints: CPython returns the quotient of the two integers
    rounded once to nearest, ties to even; on lengths below 2^53 this is
    the binary64 division of [float(m)] by [float(n)]. *)
Definition int_truediv (m n : nat) : float :=
  SF2Prim (SF64div (SF_of_nat m) (SF_of_nat n)).

Example int_truediv_2_3 :
  int_truediv 2 3 = PrimFloat.div 2%float 3%float /\
  int_truediv 3 4 = 0.75%float /\
  int_truediv 0 4 = 0%float.
Proof. repeat split; vm_compute; reflexivity. Qed.

(** *** Comparisons of primitive floats *)
Lemma SFcompare_nan_r x : SFcompare x S754_nan = None.
Proof. destruct x; reflexivity. Qed.

Lemma compare_cont_Eq_opp (p q : positive) :
  Pos.compare_cont Eq q p = CompOpp (Pos.compare_cont Eq p q).
Proof. apply (Pos.compare_antisym p q). Qed.

Lemma SFcompare_antisym x y :
  SFcompare y x = option_map CompOpp (SFcompare x y).
Proof.
  destruct x as [sx|sx| |sx mx ex], y as [sy|sy| |sy my ey]; simpl;
    try reflexivity;
    try (destruct sx; reflexivity);
    try (destruct sy; reflexivity);
    try (destruct sx, sy; reflexivity).
  destruct sx, sy; simpl; try reflexivity;
    rewrite (Z.compare_antisym ex ey), (compare_cont_Eq_opp mx my);
    destruct (ex ?= ey)%Z; simpl; try reflexivity;
    destruct (Pos.compare_cont Eq mx my); reflexivity.
Qed.

Lemma ltb_nan_l x : PrimFloat.ltb PrimFloat.nan x = false.
Proof. rewrite FloatAxioms.ltb_spec. reflexivity. Qed.

Lemma ltb_nan_r x : PrimFloat.ltb x PrimFloat.nan = false.
Proof.
  rewrite FloatAxioms.ltb_spec. unfold SFltb.
  change (Prim2SF PrimFloat.nan) with S754_nan.
  now rewrite SFcompare_nan_r.
Qed.

Lemma leb_nan_l x : PrimFloat.leb PrimFloat.nan x = false.
Proof. rewrite FloatAxioms.leb_spec. reflexivity. Qed.

Lemma leb_nan_r x : PrimFloat.leb x PrimFloat.nan = false.
Proof.
  rewrite FloatAxioms.leb_spec. unfold SFleb.
  change (Prim2SF PrimFloat.nan) with S754_nan.
  now rewrite SFcompare_nan_r.
Qed.

Lemma ltb_asym x y : PrimFloat.ltb x y = true -> PrimFloat.ltb y x = false.
Proof.
  rewrite !FloatAxioms.ltb_spec. unfold SFltb.
  rewrite (SFcompare_antisym (Prim2SF x) (Prim2SF y)).
  destruct (SFcompare (Prim2SF x) (Prim2SF y)) as [[]|]; simpl; congruence.
Qed.

Lemma leb_not_gt x y : PrimFloat.leb x y = true -> PrimFloat.ltb y x = false.
Proof.
  rewrite FloatAxioms.leb_spec, FloatAxioms.ltb_spec. unfold SFleb, SFltb.
  rewrite (SFcompare_antisym (Prim2SF x) (Prim2SF y)).
  destruct (SFcompare (Prim2SF x) (Prim2SF y)) as [[]|]; simpl; congruence.
Qed.

(** *** Arithmetic of primitive floats *)
Lemma float_add_upper_mono (c u u' v : float) :
  PrimFloat.leb u u' = true ->
  PrimFloat.ltb v (PrimFloat.add c u) = true ->
  PrimFloat.ltb v (PrimFloat.add c u') = true.
Proof.
  rewrite FloatAxioms.leb_spec, !FloatAxioms.ltb_spec, !FloatAxioms.add_spec.
  apply SF_add_upper_mono; apply FloatAxioms.Prim2SF_valid.
Qed.

Lemma float_add_lower_mono (c u u' v : float) :
  PrimFloat.leb u u' = true ->
  PrimFloat.ltb (PrimFloat.add c u') v = true ->
  PrimFloat.ltb (PrimFloat.add c u) v = true.
Proof.
  rewrite FloatAxioms.leb_spec, !FloatAxioms.ltb_spec, !FloatAxioms.add_spec.
  apply SF_add_lower_mono; apply FloatAxioms.Prim2SF_valid.
Qed.

Lemma float_sub_add_opp (c l : float) :
  PrimFloat.sub c l = PrimFloat.add c (PrimFloat.opp l).
Proof.
  apply FloatAxioms.Prim2SF_inj.
  rewrite FloatAxioms.sub_spec, FloatAxioms.add_spec, FloatAxioms.opp_spec.
  apply SF_sub_add_opp.
Qed.

Lemma float_opp_le (l l' : float) :
  PrimFloat.leb l l' = true ->
  PrimFloat.leb (PrimFloat.opp l') (PrimFloat.opp l) = true.
Proof.
  rewrite !FloatAxioms.leb_spec, !FloatAxioms.opp_spec.
  apply SF_opp_le; apply FloatAxioms.Prim2SF_valid.
Qed.

Lemma float_add_nonpos (l u : float) :
  PrimFloat.leb (PrimFloat.add l u) 0%float = true ->
  PrimFloat.leb u (PrimFloat.opp l) = true.
Proof.
  rewrite !FloatAxioms.leb_spec, FloatAxioms.add_spec, FloatAxioms.opp_spec.
  change (Prim2SF 0%float) with (S754_zero false).
  apply SF_add_nonpos; apply FloatAxioms.Prim2SF_valid.
Qed.

Lemma int_truediv_bounds (m n : nat) :
  (m <= n)%nat -> (0 < n)%nat ->
  PrimFloat.leb 0%float (int_truediv m n) = true /\
  PrimFloat.leb (int_truediv m n) 1%float = true.
Proof.
  intros Hmn Hn. destruct (SFdiv_le_one m n Hmn Hn) as (Hv & Hnan & Hk).
  unfold int_truediv.
  rewrite !FloatAxioms.leb_spec, FloatAxioms.Prim2SF_SF2Prim by exact Hv.
  change (Prim2SF 0%float) with (S754_zero false).
  change (Prim2SF 1%float) with (S754_finite false 4503599627370496 (-52)).
  rewrite !SFleb_key by (assumption || reflexivity).
  change (key (S754_zero false)) with 0.
  change (key (S754_finite false 4503599627370496 (-52))) with (2 ^ 1074).
  split; apply Z.leb_le; lia.
Qed.

#[global] Instance float64 : PyFloat float := {|
  nan := PrimFloat.nan;
  lit_0 := 0%float;
  lit_1 := 1%float;
  lit_0_2 := 0.2%float;
  lit_20 := 20%float;
  lt := PrimFloat.ltb;
  le := PrimFloat.leb;
  add := PrimFloat.add;
  sub := PrimFloat.sub;
  opp := PrimFloat.opp;
  truediv := int_truediv;
  lt_nan_l := ltb_nan_l;
  lt_nan_r := ltb_nan_r;
  le_nan_l := leb_nan_l;
  le_nan_r := leb_nan_r;
  lt_asym := ltb_asym;
  le_not_gt := leb_not_gt
|}.

#[global] Instance float64_arith : PyFloatArith float := {|
  add_upper_mono := float_add_upper_mono;
  add_lower_mono := float_add_lower_mono;
  sub_add_opp := float_sub_add_opp;
  opp_le := float_opp_le;
  add_nonpos := float_add_nonpos;
  truediv_bounds := int_truediv_bounds
|}.

End Binary64.

Module Quotient.
Import Binary64.
Local Open Scope Z_scope.

(** Rounding the fraction [a / p] to the nearest integer, ties to even. *)
Definition rnq (a p : Z) : Z :=
  let k := a / p in
  match 2 * (a mod p) ?= p with
  | Lt => k
  | Eq => if Z.even k then k else k + 1
  | Gt => k + 1
  end.

Lemma rnq_bounds (a p : Z) : a / p <= rnq a p <= a / p + 1.
Proof.
  unfold rnq. destruct (2 * (a mod p) ?= p); [destruct (Z.even _)|..]; lia.
Qed.

Lemma rnq_exact (k p : Z) : 0 < p -> rnq (k * p) p = k.
Proof.
  intros Hp. unfold rnq. rewrite Z.mod_mul, Z.div_mul by lia.
  replace (2 * 0 ?= p) with Lt by (symmetry; apply Z.compare_lt_iff; lia).
  reflexivity.
Qed.

Lemma rnq_scale (a p c : Z) :
  0 < p -> 0 < c -> rnq (a * c) (p * c) = rnq a p.
Proof.
  intros Hp Hc. unfold rnq.
  rewrite Z.div_mul_cancel_r by lia. rewrite Zmult_mod_distr_r.
  replace (2 * (a mod p * c) ?= p * c) with (2 * (a mod p) ?= p);
    [reflexivity|].
  replace (2 * (a mod p * c)) with (2 * (a mod p) * c) by ring.
  apply Zmult_compare_compat_r. lia.
Qed.

Lemma floor_mono (a p a' p' : Z) :
  0 < p -> 0 < p' -> a * p' <= a' * p -> a / p <= a' / p'.
Proof.
  intros Hp Hp' Hle.
  pose proof (Z.div_mod a p ltac:(lia)) as Ha.
  pose proof (Z.mod_pos_bound a p Hp) as Hr.
  pose proof (Z.div_mod a' p' ltac:(lia)) as Ha'.
  pose proof (Z.mod_pos_bound a' p' Hp') as Hr'.
  destruct (Z.le_gt_cases (a / p) (a' / p')) as [|Hgt]; [assumption|exfalso].
  assert (H1 : a' / p' + 1 <= a / p) by lia.
  assert (H2 : a' < p' * (a' / p' + 1)) by lia.
  assert (H3 : p' * (a' / p' + 1) <= p' * (a / p))
    by (apply Z.mul_le_mono_nonneg_l; lia).
  assert (H4 : p * (a / p) <= a) by lia.
  assert (H5 : a' * p < p' * (a / p) * p) by nia.
  assert (H6 : p' * (a / p) * p <= a * p') by nia.
  lia.
Qed.

Lemma rnq_mono (a p a' p' : Z) :
  0 < p -> 0 < p' -> a * p' <= a' * p -> rnq a p <= rnq a' p'.
Proof.
  intros Hp Hp' Hle.
  pose proof (floor_mono a p a' p' Hp Hp' Hle) as Hk.
  pose proof (rnq_bounds a p) as Hb. pose proof (rnq_bounds a' p') as Hb'.
  destruct (Z.eq_dec (a / p) (a' / p')) as [Heq|Hne]; [|lia].
  pose proof (Z.div_mod a p ltac:(lia)) as Ha.
  pose proof (Z.mod_pos_bound a p Hp) as Hr.
  pose proof (Z.div_mod a' p' ltac:(lia)) as Ha'.
  pose proof (Z.mod_pos_bound a' p' Hp') as Hr'.
  assert (Hrem : (a mod p) * p' <= (a' mod p') * p).
  { rewrite Heq in Ha. set (k := a' / p') in *. nia. }
  clear Hb Hb' Hk. unfold rnq. rewrite Heq.
  set (r := a mod p) in *. set (r' := a' mod p') in *. set (k := a' / p') in *.
  destruct (Z.compare_spec (2 * r) p) as [E|L|G],
           (Z.compare_spec (2 * r') p') as [E'|L'|G'];
    try (destruct (Z.even k)); try lia; exfalso; nia.
Qed.

Lemma rnq_le (a p c : Z) : 0 < p -> a <= c * p -> rnq a p <= c.
Proof.
  intros Hp Ha. rewrite <- (rnq_exact c p Hp). apply rnq_mono; try lia.
  now apply Z.mul_le_mono_nonneg_r; [lia|].
Qed.

Lemma rnq_ge (a p c : Z) : 0 < p -> c * p <= a -> c <= rnq a p.
Proof.
  intros Hp Ha. rewrite <- (rnq_exact c p Hp). apply rnq_mono; try lia.
  now apply Z.mul_le_mono_nonneg_r; [lia|].
Qed.

(** The fraction [a / b] rounded to 53 significant bits, in units of 1. *)
Definition Wq (a b : Z) : Z :=
  let g := drop (a / b) in rnq a (b * 2 ^ g) * 2 ^ g.

Lemma lt_mul_of_div_lt (a b c : Z) : 0 < b -> a / b < c -> a < c * b.
Proof.
  intros Hb Hlt.
  pose proof (Z.div_mod a b ltac:(lia)) as Ha.
  pose proof (Z.mod_pos_bound a b Hb) as Hr.
  assert (a / b + 1 <= c) by lia.
  assert (b * (a / b + 1) <= b * c) by (apply Z.mul_le_mono_nonneg_l; lia).
  lia.
Qed.

Lemma mul_le_of_le_div (a b c : Z) : 0 < b -> c <= a / b -> c * b <= a.
Proof.
  intros Hb Hle.
  pose proof (Z.div_mod a b ltac:(lia)) as Ha.
  pose proof (Z.mod_pos_bound a b Hb) as Hr.
  assert (b * c <= b * (a / b)) by (apply Z.mul_le_mono_nonneg_l; lia).
  lia.
Qed.

Lemma Wq_upper (a b : Z) :
  0 < b -> 0 < a / b -> Wq a b <= 2 ^ Zdigits2 (a / b).
Proof.
  intros Hb HQ. set (Q := a / b) in *.
  pose proof (Zdigits2_bounds Q HQ) as [_ Hhi].
  pose proof (Zdigits2_pos Q HQ) as Hd. pose proof (drop_nonneg Q) as Hg.
  unfold Wq. fold Q. set (g := drop Q) in *.
  pose proof (pow2_pos g Hg) as Hpg.
  assert (Hsplit : 2 ^ Zdigits2 Q = 2 ^ (Zdigits2 Q - g) * 2 ^ g).
  { rewrite <- Z.pow_add_r by (unfold g, drop; lia). f_equal. lia. }
  rewrite Hsplit. apply Z.mul_le_mono_nonneg_r; [lia|].
  apply rnq_le; [nia|].
  replace (2 ^ (Zdigits2 Q - g) * (b * 2 ^ g)) with (2 ^ Zdigits2 Q * b)
    by (rewrite Hsplit; ring).
  pose proof (lt_mul_of_div_lt a b (2 ^ Zdigits2 Q) Hb Hhi). lia.
Qed.

Lemma Wq_lower (a b : Z) :
  0 < b -> 0 < a / b -> 2 ^ (Zdigits2 (a / b) - 1) <= Wq a b.
Proof.
  intros Hb HQ. set (Q := a / b) in *.
  pose proof (Zdigits2_bounds Q HQ) as [Hlo _].
  pose proof (Zdigits2_pos Q HQ) as Hd. pose proof (drop_nonneg Q) as Hg.
  unfold Wq. fold Q. set (g := drop Q) in *.
  pose proof (pow2_pos g Hg) as Hpg.
  assert (Hsplit : 2 ^ (Zdigits2 Q - 1) = 2 ^ (Zdigits2 Q - 1 - g) * 2 ^ g).
  { rewrite <- Z.pow_add_r by (unfold g, drop; lia). f_equal. lia. }
  rewrite Hsplit. apply Z.mul_le_mono_nonneg_r; [lia|].
  apply rnq_ge; [nia|].
  replace (2 ^ (Zdigits2 Q - 1 - g) * (b * 2 ^ g))
    with (2 ^ (Zdigits2 Q - 1) * b) by (rewrite Hsplit; ring).
  now apply mul_le_of_le_div.
Qed.

Lemma Wq_mono (a b a' b' : Z) :
  0 <= a -> 0 < b -> 0 < b' -> a * b' <= a' * b -> Wq a b <= Wq a' b'.
Proof.
  intros Ha Hb Hb' Hle.
  pose proof (floor_mono a b a' b' Hb Hb' Hle) as HQ.
  assert (HQ0 : 0 <= a / b) by (apply Z.div_pos; lia).
  destruct (Z.eq_dec (a / b) 0) as [Hz|Hnz].
  - assert (Hsmall : Wq a b <= 1).
    { unfold Wq. rewrite Hz. change (drop 0) with 0.
      rewrite Z.mul_1_r. pose proof (rnq_bounds a (b * 1)) as Hbd.
      rewrite Z.mul_1_r in *. lia. }
    destruct (Z.eq_dec (a' / b') 0) as [Hz'|Hnz'].
    + unfold Wq. rewrite Hz, Hz'. change (drop 0) with 0.
      rewrite !Z.mul_1_r. now apply rnq_mono.
    + pose proof (Wq_lower a' b' Hb' ltac:(lia)) as Hlow.
      pose proof (Zdigits2_pos (a' / b') ltac:(lia)) as Hd.
      pose proof (pow2_pos (Zdigits2 (a' / b') - 1) ltac:(lia)). lia.
  - assert (HQpos : 0 < a / b) by lia.
    pose proof (Zdigits2_mono _ _ HQpos HQ) as Hd.
    destruct (Z.eq_dec (Zdigits2 (a / b)) (Zdigits2 (a' / b'))) as [Heq|Hneq].
    + unfold Wq, drop. rewrite Heq.
      set (g := Z.max (Zdigits2 (a' / b') - 53) 0).
      pose proof (pow2_pos g ltac:(unfold g; lia)) as Hpg.
      apply Z.mul_le_mono_nonneg_r; [lia|].
      apply rnq_mono; nia.
    + pose proof (Wq_upper a b Hb HQpos) as Hup.
      pose proof (Wq_lower a' b' Hb' ltac:(lia)) as Hlow.
      assert (2 ^ Zdigits2 (a / b) <= 2 ^ (Zdigits2 (a' / b') - 1))
        by (apply Z.pow_le_mono_r; lia).
      lia.
Qed.

(** The location [SFdiv_core_binary] attaches to a remainder. *)
Definition code (r b : Z) : Z :=
  if r =? 0 then 0
  else match 2 * r ?= b with
       | Lt => 1
       | Eq => 2
       | Gt => 3
       end.

Lemma loc_code_new_location (b r : Z) :
  loc_code (new_location b r) = code r b.
Proof.
  unfold new_location, new_location_even, new_location_odd, code.
  destruct (Z.even b) eqn:Hev; destruct (r =? 0); try reflexivity.
  assert (Hodd : Z.odd b = true) by (rewrite <- Z.negb_even, Hev; reflexivity).
  apply Z.odd_spec in Hodd as [h Hh].
  destruct (Z.compare_spec (2 * r + 1) b) as [E|L|G],
           (Z.compare_spec (2 * r) b) as [E'|L'|G'];
    try reflexivity; lia.
Qed.

Lemma SFdiv_core_eq (pm pn : positive) :
  Zpos pm <= Zpos pn ->
  let e' := Z.max (Zdigits2 (Zpos pm) - Zdigits2 (Zpos pn) - 53) (-1074) in
  let a := Zpos pm * 2 ^ (- e') in
  SFdiv_core_binary prec emax (Zpos pm) 0 (Zpos pn) 0
  = (a / Zpos pn, e', new_location (Zpos pn) (a mod Zpos pn)).
Proof.
  intros Hle e' a. unfold SFdiv_core_binary.
  rewrite fexp_eq, !Z.add_0_r. change (0 - 0) with 0.
  pose proof (Zdigits2_pos (Zpos pm) ltac:(lia)) as Hd1.
  pose proof (Zdigits2_mono (Zpos pm) (Zpos pn) ltac:(lia) Hle) as Hd.
  rewrite (Z.min_l _ 0) by lia. fold e'.
  assert (He : -1074 <= e' <= -53) by (unfold e'; lia).
  destruct (0 - e') as [|s|s] eqn:Es; try lia.
  rewrite Z.shiftl_mul_pow2 by lia. rewrite <- Es.
  replace (0 - e') with (- e') by lia. fold a.
  unfold Z.div, Z.modulo. now destruct (Z.div_eucl a (Zpos pn)).
Qed.

(** A quotient with the location of its remainder rounds as the
    fraction. *)
Lemma rne_sticky (a b j : Z) :
  0 <= a -> 0 < b -> 2 <= j ->
  rne (4 * (a / b) + code (a mod b) b) j = rnq a (b * 2 ^ (j - 2)).
Proof.
  intros Ha Hb Hj. set (w := j - 2).
  pose proof (pow2_pos w ltac:(unfold w; lia)) as Hw.
  assert (Hj2 : 2 ^ j = 4 * 2 ^ w).
  { replace j with (2 + w) by (unfold w; lia).
    rewrite Z.pow_add_r by (unfold w; lia). reflexivity. }
  pose proof (Z.div_mod a b ltac:(lia)) as Hab.
  pose proof (Z.mod_pos_bound a b Hb) as Hr.
  set (q := a / b) in *. set (r := a mod b) in *.
  assert (Hq : 0 <= q) by (apply Z.div_pos; lia).
  pose proof (Z.div_mod q (2 ^ w) ltac:(lia)) as Hqw.
  pose proof (Z.mod_pos_bound q (2 ^ w) Hw) as Hs.
  set (k := q / 2 ^ w) in *. set (s := q mod 2 ^ w) in *.
  set (c := code r b).
  assert (Hc : 0 <= c <= 3).
  { unfold c, code. destruct (r =? 0); [lia|]. destruct (2 * r ?= b); lia. }
  assert (Hdiv1 : (4 * q + c) / 2 ^ j = k).
  { symmetry. apply (Z.div_unique _ _ k (4 * s + c)); lia. }
  assert (Hmod1 : (4 * q + c) mod 2 ^ j = 4 * s + c).
  { symmetry. apply (Z.mod_unique _ _ k (4 * s + c)); lia. }
  assert (Hdiv2 : a / (b * 2 ^ w) = k).
  { symmetry. apply (Z.div_unique _ _ k (b * s + r)); nia. }
  assert (Hmod2 : a mod (b * 2 ^ w) = b * s + r).
  { symmetry. apply (Z.mod_unique _ _ k (b * s + r)); nia. }
  unfold rne, rnq. rewrite Hdiv1, Hmod1, Hdiv2, Hmod2, Hj2.
  assert (Hcmp : (2 * (4 * s + c) ?= 4 * 2 ^ w)
                 = (2 * (b * s + r) ?= b * 2 ^ w)).
  { unfold c, code. destruct (Z.eqb_spec r 0) as [Hr0|Hr0].
    - subst r. rewrite Hr0.
      replace (2 * (4 * s + 0)) with (4 * (2 * s)) by ring.
      replace (2 * (b * s + 0)) with (b * (2 * s)) by ring.
      rewrite <- !Zmult_compare_compat_l by lia. reflexivity.
    - destruct (Z.compare_spec (2 * r) b) as [E|L|G].
      + replace (2 * (4 * s + 2)) with (4 * (2 * s + 1)) by ring.
        replace (2 * (b * s + r)) with (b * (2 * s + 1)) by lia.
        rewrite <- !Zmult_compare_compat_l by lia. reflexivity.
      + destruct (Z.lt_ge_cases (2 * s) (2 ^ w)) as [Hlt|Hge].
        * replace (2 * (4 * s + 1) ?= 4 * 2 ^ w) with Lt
            by (symmetry; apply Z.compare_lt_iff; lia).
          symmetry. apply Z.compare_lt_iff. nia.
        * replace (2 * (4 * s + 1) ?= 4 * 2 ^ w) with Gt
            by (symmetry; apply Z.compare_gt_iff; lia).
          symmetry. apply Z.compare_gt_iff. nia.
      + destruct (Z.le_gt_cases (2 * s + 2) (2 ^ w)) as [Hle|Hgt].
        * replace (2 * (4 * s + 3) ?= 4 * 2 ^ w) with Lt
            by (symmetry; apply Z.compare_lt_iff; lia).
          symmetry. apply Z.compare_lt_iff. nia.
        * replace (2 * (4 * s + 3) ?= 4 * 2 ^ w) with Gt
            by (symmetry; apply Z.compare_gt_iff; lia).
          symmetry. apply Z.compare_gt_iff. nia. }
  now rewrite Hcmp.
Qed.

Lemma round_quotient_key (q e' : Z) (l : location) :
  0 <= q -> -1074 <= e' <= -53 ->
  4 * q + loc_code l <= 2 ^ (2 - e') ->
  (e' = -1074 /\ q < 2 ^ 53) \/ 2 ^ 52 <= q < 2 ^ 54 ->
  let n1 := Z.max (Zdigits2 q + e' - 53) (-1074) - e' in
  0 <= n1 /\
  key (binary_round_aux prec emax false q e' l)
  = rne (4 * q + loc_code l) (n1 + 2) * 2 ^ (e' + n1 + 1074).
Proof.
  intros Hq He HM Hcase. cbv zeta. pose proof BIG_pos as HB.
  pose proof (loc_code_range l) as Hc.
  set (M := 4 * q + loc_code l) in *.
  set (n1 := Z.max (Zdigits2 q + e' - 53) (-1074) - e').
  assert (Hn1 : (n1 = 0 /\ M <= 2 ^ 53 * 2 ^ 2 /\
                 (e' = -1074 \/ 2 ^ 52 * 2 ^ 2 <= M)) \/
                (n1 = 1 /\ M <= 2 ^ 53 * 2 ^ 3 /\ 2 ^ 52 * 2 ^ 3 <= M)).
  { destruct Hcase as [[He' Hq53]|[Hlo Hhi]].
    - left. split; [|split; [unfold M; lia|now left]].
      destruct (Z.eq_dec q 0) as [->|Hnz]; [unfold n1; cbn; lia|].
      pose proof (Zdigits2_bounds q ltac:(lia)) as [Hdlo _].
      assert (Zdigits2 q <= 53).
      { destruct (Z.le_gt_cases (Zdigits2 q) 53) as [|Hgt]; [assumption|].
        assert (2 ^ 53 <= 2 ^ (Zdigits2 q - 1)) by (apply Z.pow_le_mono_r; lia).
        lia. }
      unfold n1. lia.
    - destruct (Z.lt_ge_cases q (2 ^ 53)) as [Hlt|Hge].
      + left. assert (Zdigits2 q = 53) by (apply Zdigits2_unique; lia).
        split; [unfold n1; lia|]. split; [unfold M; lia|right; unfold M; lia].
      + right. assert (Zdigits2 q = 54) by (apply Zdigits2_unique; lia).
        split; [unfold n1; lia|]. split; unfold M; lia. }
  assert (Hn1' : 0 <= n1 <= 1) by lia.
  assert (Heq : binary_round_aux prec emax false q e' l
                = finish false (rne M (n1 + 2)) (e' + n1)).
  { rewrite binary_round_aux_finish. unfold shr_fexp.
    rewrite fexp_eq. fold n1.
    rewrite shr_nat by lia. cbn [fst snd].
    rewrite shr_record_of_loc_iter by exact Hq. fold M.
    rewrite <- Nat.iter_add.
    pose proof (shifted_iter M (Z.to_nat n1 + 2) ltac:(unfold M; lia)) as Hsh.
    apply shifted_rne in Hsh as [_ Hrne]. rewrite Hrne.
    now replace (Z.of_nat (Z.to_nat n1 + 2)) with (n1 + 2) by lia. }
  rewrite Heq. clear Heq.
  set (m2 := rne M (n1 + 2)).
  assert (Hm2lo : 0 <= m2).
  { apply rne_ge; [lia|]. unfold M. lia. }
  assert (Hm2hi : m2 <= 2 ^ 53).
  { apply rne_le; [lia|].
    destruct Hn1 as [(-> & H1 & _)|(-> & H1 & _)]; exact H1. }
  assert (Hm2sub : m2 < 2 ^ 52 -> e' + n1 = -1074).
  { intros Hlt.
    destruct Hn1 as [(Hn & _ & [He'|H2])|(Hn & _ & H2)].
    - lia.
    - assert (2 ^ 52 <= m2) by (apply rne_ge; [lia|]; now rewrite Hn). lia.
    - assert (2 ^ 52 <= m2) by (apply rne_ge; [lia|]; now rewrite Hn). lia. }
  assert (Hm2one : m2 <= 2 ^ (- (e' + n1))).
  { apply rne_le; [lia|].
    rewrite <- Z.pow_add_r by lia.
    replace (- (e' + n1) + (n1 + 2)) with (2 - e') by lia. exact HM. }
  destruct (finish_spec false m2 (e' + n1) ltac:(lia) ltac:(lia) Hm2sub)
    as (Hv & Hn & Hk).
  split; [exact (proj1 Hn1')|].
  rewrite Hk. cbn [sgn].
  pose proof (pow2_pos (e' + n1 + 1074) ltac:(lia)) as Hp.
  assert (Hval : m2 * 2 ^ (e' + n1 + 1074) <= 2 ^ 1074).
  { replace 1074 with (- (e' + n1) + (e' + n1 + 1074)) at 2 by lia.
    rewrite (Z.pow_add_r 2 (- (e' + n1))) by lia. nia. }
  assert (2 ^ 1074 < BIG) by (unfold BIG; apply Z.pow_lt_mono_r; lia).
  apply Z.min_l. lia.
Qed.

Lemma Zdigits2_floor_scale (a b t : Z) :
  0 < b -> 0 <= t -> 0 < a / b ->
  Zdigits2 (a * 2 ^ t / b) = Zdigits2 (a / b) + t.
Proof.
  intros Hb Ht Hq. pose proof (pow2_pos t Ht) as Hp.
  pose proof (Z.div_mod a b ltac:(lia)) as Hab.
  pose proof (Z.mod_pos_bound a b Hb) as Hr.
  set (q := a / b) in *. set (r := a mod b) in *.
  pose proof (Zdigits2_bounds q Hq) as [Hlo Hhi].
  pose proof (Zdigits2_pos q Hq) as Hd.
  assert (Hlow : q * 2 ^ t <= a * 2 ^ t / b).
  { apply Z.div_le_lower_bound; [lia|]. nia. }
  assert (Hupp : a * 2 ^ t / b < (q + 1) * 2 ^ t).
  { apply Z.div_lt_upper_bound; [lia|]. nia. }
  apply Zdigits2_unique; [|lia].
  replace (Zdigits2 q + t - 1) with (Zdigits2 q - 1 + t) by lia.
  rewrite !Z.pow_add_r by lia. nia.
Qed.

(** The quotient of two positive integers, the smaller one on top, is the
    fraction rounded to 53 significant bits, in units of 2^-1074. *)
Lemma SFdiv_key (pm pn : positive) :
  Zpos pm <= Zpos pn ->
  key (SF64div (S754_finite false pm 0) (S754_finite false pn 0))
  = Wq (Zpos pm * 2 ^ 1074) (Zpos pn).
Proof.
  intros Hle. unfold SF64div, SFdiv.
  destruct (SFdiv_core_le_one pm pn Hle)
    as (q & e' & l & Hcore & Hq & He & Hone & Hcase).
  pose proof (SFdiv_core_eq pm pn Hle) as Heq. cbv zeta in Heq.
  rewrite Hcore in Heq.
  pose proof (f_equal (fun x => fst (fst x)) Heq) as Eq'.
  pose proof (f_equal (fun x => snd (fst x)) Heq) as Ee.
  pose proof (f_equal snd Heq) as El.
  cbn [fst snd] in Eq', Ee, El. clear Heq.
  rewrite <- Ee in Eq', El. clear Ee.
  rewrite Hcore. cbn [xorb].
  destruct (round_quotient_key q e' l Hq He Hone Hcase) as [Hn1 Hkey].
  rewrite Hkey. clear Hkey.
  set (n1 := Z.max (Zdigits2 q + e' - 53) (-1074) - e') in *.
  set (a := Zpos pm * 2 ^ (- e')) in *.
  set (t := e' + 1074).
  assert (Ht : 0 <= t) by (unfold t; lia).
  pose proof (pow2_pos t Ht) as Hpt. pose proof (pow2_pos n1 Hn1) as Hpn.
  assert (HA : Zpos pm * 2 ^ 1074 = a * 2 ^ t).
  { unfold a, t. rewrite <- Z.mul_assoc, <- Z.pow_add_r by lia.
    f_equal. f_equal. lia. }
  assert (Ha : 0 <= a) by (unfold a; pose proof (pow2_pos (- e')); nia).
  rewrite El, loc_code_new_location. rewrite Eq' at 1.
  rewrite rne_sticky by lia.
  replace (n1 + 2 - 2) with n1 by lia.
  unfold Wq. rewrite HA.
  assert (Hg : drop (a * 2 ^ t / Zpos pn) = n1 + t).
  { unfold drop. destruct Hcase as [[He' _]|[Hlo _]].
    - assert (t = 0) by (unfold t; lia).
      replace t with 0 by lia. rewrite Z.mul_1_r, Z.add_0_r, <- Eq'.
      unfold n1. lia.
    - rewrite Zdigits2_floor_scale by (rewrite <- ?Eq'; lia).
      rewrite <- Eq'. unfold n1, t. lia. }
  rewrite Hg.
  replace (Zpos pn * 2 ^ (n1 + t)) with (Zpos pn * 2 ^ n1 * 2 ^ t)
    by (rewrite Z.pow_add_r by lia; ring).
  rewrite rnq_scale by lia.
  replace (e' + n1 + 1074) with (n1 + t) by (unfold t; lia).
  reflexivity.
Qed.

Local Open Scope nat_scope.

Lemma int_truediv_mono (m n m' n' : nat) :
  m <= n -> m' <= n' -> 0 < n -> 0 < n' -> m * n' <= m' * n ->
  PrimFloat.leb (int_truediv m n) (int_truediv m' n') = true.
Proof.
  intros Hmn Hmn' Hn Hn' Hle.
  destruct (SFdiv_le_one m n Hmn Hn) as (Hv & Hnan & Hk).
  destruct (SFdiv_le_one m' n' Hmn' Hn') as (Hv' & Hnan' & Hk').
  unfold int_truediv.
  rewrite FloatAxioms.leb_spec, !FloatAxioms.Prim2SF_SF2Prim by assumption.
  rewrite SFleb_key by assumption. apply Z.leb_le.
  destruct m as [|m]; [cbn [SF_of_nat]|].
  - destruct n as [|n]; [lia|]. cbn [SF_of_nat SF64div SFdiv xorb key]. lia.
  - destruct n as [|n]; [lia|]. destruct n' as [|n']; [lia|].
    destruct m' as [|m']; [lia|]. cbn [SF_of_nat].
    rewrite !SFdiv_key by lia.
    pose proof (pow2_pos 1074 ltac:(lia)) as Hp.
    assert (Hz : (Z.of_nat (S m) * Z.of_nat (S n')
                  <= Z.of_nat (S m') * Z.of_nat (S n))%Z)
      by (rewrite <- !Nat2Z.inj_mul; apply Nat2Z.inj_le; exact Hle).
    rewrite !Nat2Z.inj_succ, <- !Zpos_P_of_succ_nat in Hz.
    apply Wq_mono; [lia|lia|lia|nia].
Qed.

End Quotient.


(** ** The command-line driver *)

(** What the driver can raise: an exception of an estimator, or one of its
    own. *)
Inductive error : Type :=
| Raised (e : exn)
| ValueError (msg : string)
| KeyError (label : string).

(** Python values that are not [None]: the cells of a frame read by
    [pd.read_csv] and the floats of the command line.  [isna v] is
    [pd.isna(v)], [float_ v] is [float(v)], which can raise. *)
Class PyValue (V F : Type) `{PyFloat F} : Type := {
  isna : V -> bool;
  float_ : V -> error + F;
  of_float : F -> V;
  float_of_float : forall x, float_ (of_float x) = inr x;
  float_isna : forall v x, isna v = true -> float_ v = inr x -> x = nan
}.

(** Code that raises or returns, without selections. *)
Definition try_ {A B} (m : error + A) (k : A -> error + B) : error + B :=
  match m with
  | inl e => inl e
  | inr a => k a
  end.

Notation "x <~ c ;; k" := (try_ c (fun x => k))
  (at level 61, c at next level, right associativity).
Notation "' p <~ c ;; k" := (try_ c (fun x => match x with p => k end))
  (at level 61, p pattern, c at next level, right associativity).

(** [str.lower()] on the ASCII letters. *)
Definition lower_ascii (c : ascii) : ascii :=
  let n := nat_of_ascii c in
  if (65 <=? n) && (n <=? 90) then ascii_of_nat (n + 32) else c.

Fixpoint lower (s : string) : string :=
  match s with
  | EmptyString => EmptyString
  | String c s' => String (lower_ascii c) (lower s')
  end.

Module Pd.

(** A labelled row, as [iterrows] yields it: each label of the index with
    its cell. *)
Definition Series (V : Type) : Type := list (string * V).

Definition index {V} (row : Series V) : list string := map fst row.

(** A frame: its column labels and the cells of its rows. *)
Record Frame (V : Type) : Type := mkFrame {
  columns : list string;
  rows : list (list V)
}.
Arguments mkFrame {V} _ _.
Arguments columns {V} _.
Arguments rows {V} _.

(** [columns.get_loc(label)], on distinct labels *)
Fixpoint get_loc (label : string) (columns : list string) : option nat :=
  match columns with
  | [] => None
  | c :: cs =>
      if String.eqb c label then Some 0 else option_map S (get_loc label cs)
  end.

(** [row[label]], on distinct labels *)
Definition getitem {V} (row : Series V) (label : string) : error + V :=
  match find (fun c => String.eqb (fst c) label) row with
  | Some c => inr (snd c)
  | None => inl (KeyError label)
  end.

(** [row.get(label, None)] *)
Definition get {V} (row : Series V) (label : string) : option V :=
  match getitem row label with
  | inr v => Some v
  | inl _ => None
  end.

(** [batch_df.iterrows()]: the position of each row and the row. *)
Definition iterrows {V} (df : Frame V) : list (nat * Series V) :=
  combine (seq 0 (List.length (rows df)))
    (map (combine (columns df)) (rows df)).

(** Frames as [pd.read_csv] builds them: distinct labels, every row as
    wide as the header. *)
Fixpoint distinct (labels : list string) : bool :=
  match labels with
  | [] => true
  | c :: cs => negb (existsb (String.eqb c) cs) && distinct cs
  end.

Definition well_formed {V} (df : Frame V) : bool :=
  distinct (columns df)
  && forallb (fun r => List.length r =? List.length (columns df)) (rows df).

End Pd.

Section Helper.
Context {V F : Type} `{PyValue V F}.

(** [_get_val_limits], lines 204-243 *)
Definition _get_val_limits (row : Pd.Series V) (columns : list string)
  (param_name : string) : error + (option V * option V * option V) :=
  if negb (existsb (String.eqb param_name) columns) then
    inr (None, None, None)
  else
    match Pd.get_loc param_name columns with
    | None => inl (KeyError param_name)
    | Some i =>
        val <~ Pd.getitem row param_name ;;
        let val := if isna val then None else Some val in
        val_lower <~
          (if i + 1 <? List.length columns then
             let col1 := nth (i + 1) columns EmptyString in
             if contains "lim" (lower col1) || contains "limit" (lower col1)
             then
               tmp <~ Pd.getitem row col1 ;;
               inr (if negb (isna tmp) then Some tmp else None)
             else inr None
           else inr None) ;;
        val_upper <~
          (if i + 2 <? List.length columns then
             let col2 := nth (i + 2) columns EmptyString in
             if contains "lim" (lower col2) || contains "limit" (lower col2)
             then
               tmp <~ Pd.getitem row col2 ;;
               inr (if negb (isna tmp) then Some tmp else None)
             else inr None
           else inr None) ;;
        inr (val, val_lower, val_upper)
    end.

End Helper.

(** ** The estimators on unconverted arguments *)

(** The two estimators convert their numeric arguments with [float(..)]
    as they go (lines 68-70, 81-82, 93-94, 101-102 and 145-147, 162-163,
    173-174, 181-182).  [calculate_reliability] and
    [calculate_completeness] above take the converted values; here the
    arguments are Python values and each conversion is a step that can
    raise. *)
Module Untyped.

(** The selections performed so far, and an exception or a value. *)
Definition R (F A : Type) : Type := (list (event F) * (error + A))%type.

Definition ret {F A} (a : A) : R F A := ([], inr a).

Definition bind {F A B} (m : R F A) (k : A -> R F B) : R F B :=
  match m with
  | (tr, inl e) => (tr, inl e)
  | (tr, inr a) => let (tr', r) := k a in (tr ++ tr', r)
  end.

(** A step of the estimators above. *)
Definition lift {F A} (m : M F A) : R F A :=
  (fst m, match snd m with
          | inl e => inl (Raised e)
          | inr a => inr a
          end).

(** [float(v)] *)
Definition float {V F} `{PyValue V F} (v : V) : R F F := ([], float_ v).

Definition result {F A} (m : R F A) : error + A := snd m.

Notation "x <-- c ;; k" := (bind c (fun x => k))
  (at level 61, c at next level, right associativity).
Notation "c ;;;; k" := (bind c (fun _ => k))
  (at level 61, right associativity).

Section Estimators.
Context {V F : Type} `{PyValue V F}.

(** [calculate_reliability], lines 68-122 *)
Definition calculate_reliability (df : DataFrame F) (a : Args V)
  : R F (option F) :=
  input_period <-- float (input_period a) ;;
  period_lower_limit <-- float (period_lower_limit a) ;;
  period_upper_limit <-- float (period_upper_limit a) ;;
  lift (assert_ ((lit_0_2 <. input_period) && (input_period <. lit_20))
          "The input rotation period must be between 0.2 and 20 days") ;;;;
  lift (assert_ (existsb is_not_None [ls a; t a; snr a])
          "Please specify a value for at least one of LS, T, SNR") ;;;;
  lift (assert_ (existsb (String.eqb (mode a)) ["match"; "alias"; "recovery"])
          "Mode must be one of 'match', 'alias', or 'recovery'") ;;;;
  param_df <-- lift (loc Df.c_prot_rh20
    (fun r => (Df.prot_rh20 r <. input_period +. period_upper_limit) &&
              (Df.prot_rh20 r >. input_period -. period_lower_limit)) df) ;;
  param_df <--
    match ls a with
    | Some ls =>
        ls <-- float ls ;;
        ls_lower_limit <-- float (ls_lower_limit a) ;;
        ls_upper_limit <-- float (ls_upper_limit a) ;;
        lift (assert_ ((lit_0 <. ls) && (ls <. lit_1))
                "Lomb-Scargle power must be between 0 and 1") ;;;;
        lift (loc Df.c_power
          (fun r => (Df.power r >. ls -. ls_lower_limit) &&
                    (Df.power r <. ls +. ls_upper_limit)) param_df)
    | None => ret param_df
    end ;;
  param_df <--
    match t a with
    | Some t =>
        t <-- float t ;;
        t_lower_limit <-- float (t_lower_limit a) ;;
        t_upper_limit <-- float (t_upper_limit a) ;;
        lift (loc Df.c_Tmag
          (fun r => (Df.Tmag r >. t -. t_lower_limit) &&
                    (Df.Tmag r <. t +. t_upper_limit)) param_df)
    | None => ret param_df
    end ;;
  param_df <--
    match snr a with
    | Some snr =>
        snr <-- float snr ;;
        snr_lower_limit <-- float (snr_lower_limit a) ;;
        snr_upper_limit <-- float (snr_upper_limit a) ;;
        lift (assert_ (snr >. lit_0) "SNR must be greater than 0") ;;;;
        lift (loc Df.c_snr
          (fun r => (Df.snr r >. snr -. snr_lower_limit) &&
                    (Df.snr r <. snr +. snr_upper_limit)) param_df)
    | None => ret param_df
    end ;;
  if List.length param_df <? 3 then ret None
  else
    rel_df <-- lift
      (if String.eqb (mode a) "match" then
         loc Df.c_status (fun r => String.eqb (Df.status r) "match") param_df
       else if String.eqb (mode a) "alias" then
         loc Df.c_status (fun r => String.eqb (Df.status r) "alias") param_df
       else
         loc Df.c_status
           (fun r => negb (String.eqb (Df.status r) "not_recovered")) param_df) ;;
    q <-- lift (len_div rel_df param_df) ;;
    ret (Some q).

(** [calculate_completeness], lines 145-201 *)
Definition calculate_completeness (df : DataFrame F) (a : Args V)
  : R F (option F) :=
  input_period <-- float (input_period a) ;;
  period_lower_limit <-- float (period_lower_limit a) ;;
  period_upper_limit <-- float (period_upper_limit a) ;;
  lift (assert_ ((lit_0_2 <. input_period) && (input_period <. lit_20))
          "The input rotation period must be between 0 and 20 days") ;;;;
  lift (assert_ (existsb is_not_None [ls a; t a; snr a])
          "Please specify a value for at least one of LS, T, SNR") ;;;;
  lift (assert_ (existsb (String.eqb (mode a)) ["match"; "alias"; "recovery"])
          "Mode must be one of 'match', 'alias', or 'recovery'") ;;;;
  all_df <-- lift (loc Df.c_prot_rh20
    (fun r => (Df.prot_rh20 r <. input_period +. period_upper_limit) &&
              (Df.prot_rh20 r >. input_period -. period_lower_limit)) df) ;;
  let param_df := all_df in
  param_df <--
    match ls a with
    | Some ls =>
        ls <-- float ls ;;
        ls_lower_limit <-- float (ls_lower_limit a) ;;
        ls_upper_limit <-- float (ls_upper_limit a) ;;
        lift (assert_ ((lit_0 <. ls) && (ls <. lit_1))
                "Lomb-Scargle power must be between 0 and 1") ;;;;
        lift (loc Df.c_power
          (fun r => (Df.power r >. ls -. ls_lower_limit) &&
                    (Df.power r <. ls +. ls_upper_limit)) param_df)
    | None => ret param_df
    end ;;
  param_df <--
    match t a with
    | Some t =>
        t <-- float t ;;
        t_lower_limit <-- float (t_lower_limit a) ;;
        t_upper_limit <-- float (t_upper_limit a) ;;
        lift (loc Df.c_Tmag
          (fun r => (Df.Tmag r >. t -. t_lower_limit) &&
                    (Df.Tmag r <. t +. t_upper_limit)) param_df)
    | None => ret param_df
    end ;;
  param_df <--
    match snr a with
    | Some snr =>
        snr <-- float snr ;;
        snr_lower_limit <-- float (snr_lower_limit a) ;;
        snr_upper_limit <-- float (snr_upper_limit a) ;;
        lift (assert_ (snr >. lit_0) "SNR must be greater than 0") ;;;;
        lift (loc Df.c_snr
          (fun r => (Df.snr r >. snr -. snr_lower_limit) &&
                    (Df.snr r <. snr +. snr_upper_limit)) param_df)
    | None => ret param_df
    end ;;
  if List.length all_df <? 3 then ret None
  else
    comp_df <-- lift
      (if String.eqb (mode a) "match" then
         loc Df.c_status (fun r => String.eqb (Df.status r) "match") param_df
       else if String.eqb (mode a) "alias" then
         loc Df.c_status (fun r => String.eqb (Df.status r) "alias") param_df
       else
         loc Df.c_status
           (fun r => negb (String.eqb (Df.status r) "not_recovered")) param_df) ;;
    q <-- lift (len_div comp_df all_df) ;;
    ret (Some q).

Definition run (est : Estimator) : DataFrame F -> Args V -> R F (option F) :=
  match est with
  | Reliability => calculate_reliability
  | Completeness => calculate_completeness
  end.

End Estimators.
End Untyped.

(** ** [main]: the parsed command line, single-star mode and batch mode *)

(** The namespace [parser.parse_args()] returns (lines 247-367): every
    numeric option has [type=float]. *)
Module Cli.
Record Namespace (F : Type) : Type := mkNamespace {
  function : string;
  input_period : option F;
  ls : option F;
  t : option F;
  snr : option F;
  period_lower_limit : F;
  period_upper_limit : F;
  ls_lower_limit : F;
  ls_upper_limit : F;
  t_lower_limit : F;
  t_upper_limit : F;
  snr_lower_limit : F;
  snr_upper_limit : F;
  mode : string;
  batch_file : option string
}.
Arguments mkNamespace {F} _ _ _ _ _ _ _ _ _ _ _ _ _ _ _.
Arguments function {F} _.
Arguments input_period {F} _.
Arguments ls {F} _.
Arguments t {F} _.
Arguments snr {F} _.
Arguments period_lower_limit {F} _.
Arguments period_upper_limit {F} _.
Arguments ls_lower_limit {F} _.
Arguments ls_upper_limit {F} _.
Arguments t_lower_limit {F} _.
Arguments t_upper_limit {F} _.
Arguments snr_lower_limit {F} _.
Arguments snr_upper_limit {F} _.
Arguments mode {F} _.
Arguments batch_file {F} _.
End Cli.

(** What a call leaves to its caller: the value, or the exception. *)
Definition propagate {F A} (m : M F A) : error + A :=
  match outcome m with
  | inl e => inl (Raised e)
  | inr a => inr a
  end.

(** The estimator [args.function] selects. *)
Definition selected {F} (args : Cli.Namespace F) : Estimator :=
  if String.eqb (Cli.function args) "reliability" then Reliability
  else Completeness.

Section Driver.
Context {V F : Type} `{PyValue V F}.

(** Single-star mode, lines 534-574: the result that is printed. *)
Definition single_star (args : Cli.Namespace F) (df : DataFrame F)
  : error + option F :=
  match Cli.input_period args with
  | None =>
      inl (ValueError
             "You must provide --input-period or use --batch-file. No batch file supplied, so single-star mode expects an input period.")
  | Some input_period =>
      let a :=
        mkArgs input_period
          (Cli.period_lower_limit args) (Cli.period_upper_limit args)
          (Cli.ls args) (Cli.ls_lower_limit args) (Cli.ls_upper_limit args)
          (Cli.t args) (Cli.t_lower_limit args) (Cli.t_upper_limit args)
          (Cli.snr args) (Cli.snr_lower_limit args) (Cli.snr_upper_limit args)
          (Cli.mode args) in
      if String.eqb (Cli.function args) "reliability" then
        propagate (calculate_reliability df a)
      else
        propagate (calculate_completeness df a)
  end.

(** [x if x is not None else d] *)
Definition or_default (x : option V) (d : F) : V :=
  match x with
  | Some v => v
  | None => of_float d
  end.

(** The keyword arguments of the six calls of lines 419-510, which differ
    in the mode only. *)
Definition call (args : Cli.Namespace F) (input_period : V)
  (ls_val ls_low ls_up t_val t_low t_up snr_val snr_low snr_up : option V)
  (mode : string) : Args V :=
  mkArgs input_period
    (of_float (Cli.period_lower_limit args))
    (of_float (Cli.period_upper_limit args))
    ls_val
    (or_default ls_low (Cli.ls_lower_limit args))
    (or_default ls_up (Cli.ls_upper_limit args))
    t_val
    (or_default t_low (Cli.t_lower_limit args))
    (or_default t_up (Cli.t_upper_limit args))
    snr_val
    (or_default snr_low (Cli.snr_lower_limit args))
    (or_default snr_up (Cli.snr_upper_limit args))
    mode.

(** The limits after the fall-back of lines 402-404, 408-410, 414-416. *)
Definition fall_back (val low up : option V) (low_default up_default : F)
  : option V * option V :=
  if is_not_None val && (negb (is_not_None low) || negb (is_not_None up)) then
    (Some (or_default low low_default), Some (or_default up up_default))
  else (low, up).

(** The body of the [try] of the batch loop, lines 394-511: the three
    values it appends. *)
Definition try_row (args : Cli.Namespace F) (df : DataFrame F)
  (columns : list string) (row : Pd.Series V)
  : error + (option F * option F * option F) :=
  input_period <~
    match Pd.get row "input_period" with
    | Some v => inr v
    | None => inl (ValueError "Missing 'input_period'.")
    end ;;
  ' (ls_val, ls_low, ls_up) <~ _get_val_limits row columns "ls" ;;
  let '(ls_low, ls_up) :=
    fall_back ls_val ls_low ls_up
      (Cli.ls_lower_limit args) (Cli.ls_upper_limit args) in
  ' (t_val, t_low, t_up) <~ _get_val_limits row columns "t" ;;
  let '(t_low, t_up) :=
    fall_back t_val t_low t_up
      (Cli.t_lower_limit args) (Cli.t_upper_limit args) in
  ' (snr_val, snr_low, snr_up) <~ _get_val_limits row columns "snr" ;;
  let '(snr_low, snr_up) :=
    fall_back snr_val snr_low snr_up
      (Cli.snr_lower_limit args) (Cli.snr_upper_limit args) in
  let call :=
    call args input_period ls_val ls_low ls_up t_val t_low t_up
      snr_val snr_low snr_up in
  if String.eqb (Cli.function args) "reliability" then
    r_match <~ Untyped.result (Untyped.calculate_reliability df (call "match")) ;;
    r_alias <~ Untyped.result (Untyped.calculate_reliability df (call "alias")) ;;
    r_recovery <~
      Untyped.result (Untyped.calculate_reliability df (call "recovery")) ;;
    inr (r_match, r_alias, r_recovery)
  else
    c_match <~ Untyped.result (Untyped.calculate_completeness df (call "match")) ;;
    c_alias <~ Untyped.result (Untyped.calculate_completeness df (call "alias")) ;;
    c_recovery <~
      Untyped.result (Untyped.calculate_completeness df (call "recovery")) ;;
    inr (c_match, c_alias, c_recovery).

(** The three lists and the rows reported as skipped. *)
Record Lists : Type := mkLists {
  match_list : list (option F);
  alias_list : list (option F);
  recovery_list : list (option F);
  skipped : list (nat * error)
}.

(** One turn of the loop, lines 393-521: the values are appended, or
    after any exception three [None]. *)
Definition loop_body (args : Cli.Namespace F) (df : DataFrame F)
  (columns : list string) (lists : Lists) (item : nat * Pd.Series V) : Lists :=
  let (idx, row) := item in
  match try_row args df columns row with
  | inr (r_match, r_alias, r_recovery) =>
      mkLists (match_list lists ++ [r_match])
        (alias_list lists ++ [r_alias])
        (recovery_list lists ++ [r_recovery])
        (skipped lists)
  | inl e =>
      mkLists (match_list lists ++ [None])
        (alias_list lists ++ [None])
        (recovery_list lists ++ [None])
        (skipped lists ++ [(idx, e)])
  end.

(** Batch mode, lines 379-532: the three columns added to the batch frame
    with their labels, and the rows reported as skipped. *)
Definition batch_mode (args : Cli.Namespace F) (df : DataFrame F)
  (batch_df : Pd.Frame V)
  : error + (list (string * list (option F)) * list (nat * error)) :=
  if List.length (Pd.columns batch_df) <? 2 then
    inl (ValueError
           "The batch CSV must have at least 3 columns: 1) star name, 2) input_period, and 3) at least one of 'ls', 't', 'snr'.")
  else
    let lists :=
      fold_left (loop_body args df (Pd.columns batch_df))
        (Pd.iterrows batch_df) (mkLists [] [] [] []) in
    if String.eqb (Cli.function args) "reliability" then
      inr ([("reliability_match", match_list lists);
            ("reliability_alias", alias_list lists);
            ("reliability_recovery", recovery_list lists)], skipped lists)
    else
      inr ([("completeness_match", match_list lists);
            ("completeness_alias", alias_list lists);
            ("completeness_recovery", recovery_list lists)], skipped lists).


(** What one turn appends, and what it reports. *)
Definition row_values (args : Cli.Namespace F) (df : DataFrame F)
  (columns : list string) (row : Pd.Series V)
  : option F * option F * option F :=
  match try_row args df columns row with
  | inr values => values
  | inl _ => (None, None, None)
  end.

Definition row_skipped (args : Cli.Namespace F) (df : DataFrame F)
  (columns : list string) (item : nat * Pd.Series V) : list (nat * error) :=
  match try_row args df columns (snd item) with
  | inr _ => []
  | inl e => [(fst item, e)]
  end.

End Driver.

(** ** Reading a row by position *)

Section Positions.
Context {V F : Type} `{PyValue V F}.

(** A cell that is there and is not blank. *)
Definition not_na (cell : option V) : option V :=
  match cell with
  | Some v => if isna v then None else Some v
  | None => None
  end.

(** The cell in position [j], when there is a column [j] and its label in
    lower case contains "lim". *)
Definition limit_cell (columns : list string) (cells : list V) (j : nat)
  : option V :=
  match nth_error columns j with
  | Some col =>
      if contains "lim" (lower col) then not_na (nth_error cells j) else None
  | None => None
  end.

End Positions.

(** ** Arguments and their conversions *)

(** [a] called with [mode=m]. *)
Definition with_mode {F} (a : Args F) (m : Mode) : Args F :=
  mkArgs (input_period a) (period_lower_limit a) (period_upper_limit a)
    (ls a) (ls_lower_limit a) (ls_upper_limit a)
    (t a) (t_lower_limit a) (t_upper_limit a)
    (snr a) (snr_lower_limit a) (snr_upper_limit a) (mode_name m).

Section Conversions.
Context {V F : Type} `{PyValue V F}.

(** The floats an axis is converted to, when it is supplied. *)
Definition converted_axis (center : option V) (lower upper : V)
  (center' : option F) (lower' upper' : F) : Prop :=
  match center, center' with
  | Some c, Some c' =>
      float_ c = inr c' /\ float_ lower = inr lower' /\ float_ upper = inr upper'
  | None, None => True
  | _, _ => False
  end.

(** [b] holds the floats the arguments [a] convert to; the limits of an
    axis that is not supplied are not converted. *)
Definition converted (a : Args V) (b : Args F) : Prop :=
  float_ (input_period a) = inr (input_period b) /\
  float_ (period_lower_limit a) = inr (period_lower_limit b) /\
  float_ (period_upper_limit a) = inr (period_upper_limit b) /\
  converted_axis (ls a) (ls_lower_limit a) (ls_upper_limit a)
    (ls b) (ls_lower_limit b) (ls_upper_limit b) /\
  converted_axis (t a) (t_lower_limit a) (t_upper_limit a)
    (t b) (t_lower_limit b) (t_upper_limit b) /\
  converted_axis (snr a) (snr_lower_limit a) (snr_upper_limit a)
    (snr b) (snr_lower_limit b) (snr_upper_limit b) /\
  mode a = mode b.

(** Two calls that differ at most in the limits of axes that are not
    supplied. *)
Definition same_axis (center : option V) (lower upper : V)
  (center' : option V) (lower' upper' : V) : Prop :=
  center = center' /\ (center <> None -> lower = lower' /\ upper = upper').

Definition same_supplied (a a' : Args V) : Prop :=
  input_period a = input_period a' /\
  period_lower_limit a = period_lower_limit a' /\
  period_upper_limit a = period_upper_limit a' /\
  same_axis (ls a) (ls_lower_limit a) (ls_upper_limit a)
    (ls a') (ls_lower_limit a') (ls_upper_limit a') /\
  same_axis (t a) (t_lower_limit a) (t_upper_limit a)
    (t a') (t_lower_limit a') (t_upper_limit a') /\
  same_axis (snr a) (snr_lower_limit a) (snr_upper_limit a)
    (snr a') (snr_lower_limit a') (snr_upper_limit a') /\
  mode a = mode a'.

End Conversions.

(** What a result tells apart in the output: the exception, [None], or a
    number. *)
Definition kind {F} (r : error + option F) : error + bool :=
  match r with
  | inl e => inl e
  | inr None => inr false
  | inr (Some _) => inr true
  end.

(** Two computations that end alike. *)
Definition alike {F A} (m1 m2 : Untyped.R F (option A)) : Prop :=
  kind (Untyped.result m1) = kind (Untyped.result m2).

(** ** Cells of binary64 frames *)

(** A cell of a frame read from a CSV file: a number (a blank is a NaN),
    or a text that does not read as a number, such as a star name.  The
    message of [float(..)] shows the text as [repr] writes it: between
    single quotes, for a text of printable characters without quotes or
    backslashes. *)
Module Cell.

Inductive cell : Type :=
| Num (x : float)
| Text (s : string).

Definition cell_isna (c : cell) : bool :=
  match c with
  | Num x => PrimFloat.is_nan x
  | Text _ => false
  end.

Definition cell_float (c : cell) : error + float :=
  match c with
  | Num x => inr x
  | Text s =>
      inl (ValueError ("could not convert string to float: '" ++ s ++ "'"))
  end.

Lemma SFcompare_refl (x : spec_float) :
  x <> S754_nan -> SFcompare x x = Some Eq.
Proof.
  destruct x as [s|s| |s m e]; intros Hx; try contradiction.
  - now destruct s.
  - now destruct s.
  - cbn. destruct s; rewrite Z.compare_refl.
    + now rewrite Pos.compare_cont_refl.
    + change (Pos.compare_cont Eq m m) with (Pos.compare m m).
      now rewrite Pos.compare_refl.
Qed.

Lemma is_nan_nan (x : float) : PrimFloat.is_nan x = true -> x = PrimFloat.nan.
Proof.
  unfold PrimFloat.is_nan. rewrite FloatAxioms.eqb_spec. intros Hx.
  apply FloatAxioms.Prim2SF_inj. change (Prim2SF PrimFloat.nan) with S754_nan.
  destruct (Prim2SF x) as [s|s| |s m e] eqn:E; try reflexivity;
    unfold SFeqb in Hx; rewrite SFcompare_refl in Hx by discriminate;
    discriminate.
Qed.

Lemma cell_float_isna (c : cell) (x : float) :
  cell_isna c = true -> cell_float c = inr x -> x = nan.
Proof.
  destruct c as [y|s]; cbn; [|discriminate].
  intros Hy [= <-]. now apply is_nan_nan.
Qed.

#[global] Instance cells : PyValue cell float := {|
  isna := cell_isna;
  float_ := cell_float;
  of_float := Num;
  float_of_float := fun _ => eq_refl;
  float_isna := cell_float_isna
|}.

End Cell.

(** ** Concrete catalogs and queries *)

Module Scenario.
Local Open Scope float_scope.

(** A call that leaves every window limit at its keyword default:
    1 and 1 for the period, 0.05 and 0.05 for [ls], 0.5 and 0.5 for [t],
    2.5 and 2.5 for [snr]. *)
Definition call (input_period : float) (ls t snr : option float)
  (mode : string) : Args float :=
  mkArgs input_period 1 1 ls 0.05 0.05 t 0.5 0.5 snr 2.5 2.5 mode.

(** [input_period=9, ls=0.1, ls_lower_limit=0.05, ls_upper_limit=0.05] *)
Definition query (mode : string) : Args float :=
  call 9 (Some 0.1) None None mode.

(** [input_period=9, ls=0.1, ls_lower_limit=0.03, ls_upper_limit=0.03] *)
Definition narrow : Args float :=
  mkArgs 9 1 1 (Some 0.1) 0.03 0.03 None 0.5 0.5 None 2.5 2.5 "match".

(** The narrow query with the power window increased to (0.05, 0.05) and
    the upper period limit increased to 7. *)
Definition wider : Args float :=
  mkArgs 9 1 7 (Some 0.1) 0.05 0.05 None 0.5 0.5 None 2.5 2.5 "match".

(** [input_period=9, ls=0.1, ls_lower_limit=-0.05, ls_upper_limit=0.02] *)
Definition negative_window : Args float :=
  mkArgs 9 1 1 (Some 0.1) (-0.05) 0.02 None 0.5 0.5 None 2.5 2.5 "match".

(** [input_period=9, ls=0.5]: no row of the catalog has a power near 0.5. *)
Definition far_power : Args float := call 9 (Some 0.5) None None "match".

(** [input_period=9, ls=0.1, ls_lower_limit=0, ls_upper_limit=0] *)
Definition zero_window : Args float :=
  mkArgs 9 1 1 (Some 0.1) 0 0 None 0.5 0.5 None 2.5 2.5 "match".

(** [input_period=9, ls=1.5]: the power is outside (0, 1). *)
Definition bad_power : Args float := call 9 (Some 1.5) None None "match".

(** [input_period=9, t=10, snr=-1]: the snr is not positive. *)
Definition bad_snr : Args float :=
  call 9 None (Some 10) (Some (-1)) "match".

(** Five rows with periods 8.5, 9.0, 9.4, 9.6 and 15; one magnitude is
    missing. *)
Definition catalog : DataFrame float :=
  [ Df.mkRow 8.5 0.08 10.1 5.5 "match";
    Df.mkRow 9.0 0.10 9.7 6.0 "match";
    Df.mkRow 9.4 0.12 PrimFloat.nan 7.5 "not_recovered";
    Df.mkRow 9.6 0.14 11.3 8.0 "match";
    Df.mkRow 15 0.10 10.4 9.0 "match" ].

(** The same periods with any power values; the status of row [k] is
    "not_recovered", every other status is "match". *)
Definition status_at (k i : nat) : string :=
  if (i =? k)%nat then "not_recovered" else "match".

Definition catalog_with (p0 p1 p2 p3 p4 : float) (k : nat) : DataFrame float :=
  [ Df.mkRow 8.5 p0 PrimFloat.nan PrimFloat.nan (status_at k 0);
    Df.mkRow 9.0 p1 PrimFloat.nan PrimFloat.nan (status_at k 1);
    Df.mkRow 9.4 p2 PrimFloat.nan PrimFloat.nan (status_at k 2);
    Df.mkRow 9.6 p3 PrimFloat.nan PrimFloat.nan (status_at k 3);
    Df.mkRow 15 p4 PrimFloat.nan PrimFloat.nan (status_at k 4) ].

End Scenario.

(** A batch run on binary64 cells. *)
Module BatchScenario.
Import Cell.
Local Open Scope float_scope.

(** [reliability --batch-file stars.csv --t-upper-limit 1], every other
    option at its default. *)
Definition args : Cli.Namespace float :=
  Cli.mkNamespace "reliability" None None None None
    1 1 0.05 0.05 0.5 1 2.5 2.5 "match" (Some "stars.csv").

(** [completeness --input-period 9], no auxiliary option. *)
Definition args_single : Cli.Namespace float :=
  Cli.mkNamespace "completeness" (Some 9) None None None
    1 1 0.05 0.05 0.5 0.5 2.5 2.5 "match" None.

Definition header : list string :=
  ["star"; "input_period"; "ls"; "ls_lower_limit"; "ls_upper_limit"; "t"].

(** A power with a lower limit; the upper limit and the magnitude are
    blank. *)
Definition star_a : list cell :=
  [Text "A"; Num 9; Num 0.1; Num 0.03; Num PrimFloat.nan; Num PrimFloat.nan].

(** Neither a power nor a magnitude. *)
Definition star_b : list cell :=
  [Text "B"; Num 9; Num PrimFloat.nan; Num 0.03; Num 0.03; Num PrimFloat.nan].

(** A period that is not a number. *)
Definition star_c : list cell :=
  [Text "C"; Text "unknown"; Num 0.1; Num PrimFloat.nan; Num PrimFloat.nan;
   Num 10].

(** A power no row of the catalog is near. *)
Definition star_d : list cell :=
  [Text "D"; Num 9; Num 0.5; Num PrimFloat.nan; Num PrimFloat.nan;
   Num PrimFloat.nan].

Definition batch : Pd.Frame cell :=
  Pd.mkFrame header [star_a; star_b; star_c; star_d].

(** [input_period=9, t=10] with limits of the power axis that are not
    numbers, and with the defaults. *)
Definition odd_limits : Args cell :=
  mkArgs (Num 9) (Num 1) (Num 1) None (Text "low") (Text "high")
    (Some (Num 10)) (Num 0.5) (Num 0.5) None (Num 2.5) (Num 2.5) "match".

Definition plain_limits : Args cell :=
  mkArgs (Num 9) (Num 1) (Num 1) None (Num 0.05) (Num 0.05)
    (Some (Num 10)) (Num 0.5) (Num 0.5) None (Num 2.5) (Num 2.5) "match".

(** The arguments of the calls for [star_a], as floats. *)
Definition star_a_call : Args float :=
  mkArgs 9 1 1 (Some 0.1) 0.03 0.05 None 0.5 1 None 2.5 2.5 "match".

End BatchScenario.

(** * Lemmas *)

(** ** Running the estimators *)

Section Runs.
Context {F : Type} `{PyFloat F}.

Lemma lt_irrefl (x : F) : x <. x = false.
Proof.
  destruct (x <. x) eqn:E; [|reflexivity].
  rewrite <- E. now apply lt_asym.
Qed.

Lemma filter_and {A} (f g : A -> bool) (l : list A) :
  filter g (filter f l) = filter (fun x => f x && g x) l.
Proof.
  induction l as [|x l IH]; simpl; [reflexivity|].
  destruct (f x); simpl; [destruct (g x)|]; now rewrite IH.
Qed.

Lemma filter_all {A} (l : list A) : filter (fun _ => true) l = l.
Proof. induction l as [|x l IH]; simpl; [reflexivity|]. now rewrite IH. Qed.

Lemma filter_length_le {A} (f : A -> bool) (l : list A) :
  List.length (filter f l) <= List.length l.
Proof. induction l as [|x l IH]; simpl; [lia|]. destruct (f x); simpl; lia. Qed.

Lemma filter_length_mono {A} (f g : A -> bool) (l : list A) :
  (forall x, f x = true -> g x = true) ->
  List.length (filter f l) <= List.length (filter g l).
Proof.
  intros Hfg. induction l as [|x l IH]; simpl; [lia|].
  destruct (f x) eqn:Ef.
  - rewrite (Hfg x Ef). simpl. lia.
  - destruct (g x); simpl; lia.
Qed.

(** The period mask as the source writes it, upper test first. *)
Lemma period_mask_source (a : Args F) (df : DataFrame F) :
  filter (fun r => (Df.prot_rh20 r <. input_period a +. period_upper_limit a) &&
                   (Df.prot_rh20 r >. input_period a -. period_lower_limit a)) df
  = filter (period_mask a) df.
Proof. apply filter_ext. intros r. apply andb_comm. Qed.

Lemma after_snr_box (a : Args F) (df : DataFrame F) :
  after_snr a df = filter (box_mask a) df.
Proof.
  unfold after_snr, after_magnitude, after_power, after_period.
  rewrite !filter_and. apply filter_ext. intros r.
  unfold box_mask, aux_mask. now rewrite !andb_assoc.
Qed.

Lemma after_snr_aux (a : Args F) (df : DataFrame F) :
  after_snr a df = filter (aux_mask a) (filter (period_mask a) df).
Proof.
  unfold after_snr, after_magnitude, after_power, after_period.
  rewrite (filter_and (magnitude_mask a) (snr_mask a)).
  rewrite (filter_and (power_mask a)).
  apply filter_ext. intros r. unfold aux_mask. now rewrite andb_assoc.
Qed.

Lemma parse_mode_Some (s : string) (m : Mode) :
  parse_mode s = Some m -> s = mode_name m.
Proof.
  unfold parse_mode.
  destruct (String.eqb_spec s "match"); [intros [= <-]; assumption|].
  destruct (String.eqb_spec s "alias"); [intros [= <-]; assumption|].
  destruct (String.eqb_spec s "recovery"); [intros [= <-]; assumption|].
  discriminate.
Qed.

Lemma parse_mode_name (m : Mode) : parse_mode (mode_name m) = Some m.
Proof. destruct m; reflexivity. Qed.

Lemma check_mode_source (a : Args F) :
  existsb (String.eqb (mode a)) ["match"; "alias"; "recovery"] = check_mode a.
Proof.
  unfold check_mode, parse_mode. simpl.
  destruct (String.eqb (mode a) "match"); [reflexivity|].
  destruct (String.eqb (mode a) "alias"); [reflexivity|].
  destruct (String.eqb (mode a) "recovery"); reflexivity.
Qed.

Lemma check_aux_source (a : Args F) :
  existsb is_not_None [ls a; t a; snr a] = check_aux a.
Proof. unfold check_aux. cbn [existsb]. now rewrite orb_false_r, orb_assoc. Qed.

Lemma valid_query_checks (a : Args F) :
  valid_query a = true ->
  check_period a = true /\ check_aux a = true /\ check_mode a = true /\
  check_power a = true /\ check_snr a = true.
Proof.
  unfold valid_query. rewrite !andb_true_iff. tauto.
Qed.

Lemma valid_query_mode (a : Args F) :
  valid_query a = true -> exists m, parse_mode (mode a) = Some m.
Proof.
  intros Hv. apply valid_query_checks in Hv as (_ & _ & Hm & _).
  unfold check_mode in Hm. destruct (parse_mode (mode a)) as [m|]; [|discriminate].
  now exists m.
Qed.

(** *** Stepping through a body *)

Lemma bind_returns {A B} (m : M F A) (k : A -> M F B) tr1 v tr2 r tr :
  m = (tr1, inr v) -> k v = (tr2, r) -> tr = tr1 ++ tr2 ->
  bind m k = (tr, r).
Proof. intros -> Hk ->. unfold bind. now rewrite Hk. Qed.

Lemma bind_raises {A B} (m : M F A) (k : A -> M F B) tr e :
  m = (tr, inl e) -> bind m k = (tr, inl e).
Proof. now intros ->. Qed.

Lemma bind_assert_holds {B} (cond : bool) (msg : string) (k : unit -> M F B) :
  cond = true -> bind (assert_ cond msg) k = k tt.
Proof. intros ->. simpl. now destruct (k tt). Qed.

Lemma bind_assert_fails {B} (cond : bool) (msg : string) (k : unit -> M F B) :
  cond = false -> bind (assert_ cond msg) k = ([], inl (AssertionError msg)).
Proof. now intros ->. Qed.

(** Lines 77-80 and 154-157. *)
Lemma period_stage (a : Args F) (df : DataFrame F) :
  loc Df.c_prot_rh20
    (fun r => (Df.prot_rh20 r <. input_period a +. period_upper_limit a) &&
              (Df.prot_rh20 r >. input_period a -. period_lower_limit a)) df
  = ([Loc Df.c_prot_rh20 df (after_period a df)], inr (after_period a df)).
Proof. unfold loc. now rewrite period_mask_source. Qed.

(** Lines 83-90 and 162-169. *)
Lemma power_stage (a : Args F) (src : DataFrame F) :
  check_power a = true ->
  match ls a with
  | Some ls =>
      assert_ ((lit_0 <. ls) && (ls <. lit_1))
        "Lomb-Scargle power must be between 0 and 1" ;;;
      loc Df.c_power
        (fun r => (Df.power r >. ls -. ls_lower_limit a) &&
                  (Df.power r <. ls +. ls_upper_limit a)) src
  | None => ret src
  end
  = (axis_events Df.c_power (ls a) (ls_lower_limit a) (ls_upper_limit a)
       Df.power src,
     inr (filter (power_mask a) src)).
Proof.
  unfold check_power, power_mask. destruct (ls a) as [x|]; simpl.
  - intros ->. reflexivity.
  - intros _. unfold ret. now rewrite filter_all.
Qed.

(** Lines 93-99 and 172-178. *)
Lemma magnitude_stage (a : Args F) (src : DataFrame F) :
  match t a with
  | Some t =>
      loc Df.c_Tmag
        (fun r => (Df.Tmag r >. t -. t_lower_limit a) &&
                  (Df.Tmag r <. t +. t_upper_limit a)) src
  | None => ret src
  end
  = (axis_events Df.c_Tmag (t a) (t_lower_limit a) (t_upper_limit a)
       Df.Tmag src,
     inr (filter (magnitude_mask a) src)).
Proof.
  unfold magnitude_mask. destruct (t a) as [x|]; simpl.
  - reflexivity.
  - unfold ret. now rewrite filter_all.
Qed.

(** Lines 102-109 and 181-188. *)
Lemma snr_stage (a : Args F) (src : DataFrame F) :
  check_snr a = true ->
  match snr a with
  | Some snr =>
      assert_ (snr >. lit_0) "SNR must be greater than 0" ;;;
      loc Df.c_snr
        (fun r => (Df.snr r >. snr -. snr_lower_limit a) &&
                  (Df.snr r <. snr +. snr_upper_limit a)) src
  | None => ret src
  end
  = (axis_events Df.c_snr (snr a) (snr_lower_limit a) (snr_upper_limit a)
       Df.snr src,
     inr (filter (snr_mask a) src)).
Proof.
  unfold check_snr, snr_mask. destruct (snr a) as [x|]; simpl.
  - intros ->. reflexivity.
  - intros _. unfold ret. now rewrite filter_all.
Qed.

(** Lines 111-122 and 190-201: the floor of 3 rows on [den], the status
    selection on [src], the ratio. *)
Lemma ratio_stage (a : Args F) (m : Mode) (den src : DataFrame F) :
  parse_mode (mode a) = Some m ->
  (if List.length den <? 3 then ret None
   else
     rel_df <-
       (if String.eqb (mode a) "match" then
          loc Df.c_status (fun r => String.eqb (Df.status r) "match") src
        else if String.eqb (mode a) "alias" then
          loc Df.c_status (fun r => String.eqb (Df.status r) "alias") src
        else
          loc Df.c_status
            (fun r => negb (String.eqb (Df.status r) "not_recovered")) src) ;;
     q <- len_div rel_df den ;;
     ret (Some q))
  = (status_events m den src,
     inr (ratio_or_None (filter (status_mask m) src) den)).
Proof.
  intros Hm. apply parse_mode_Some in Hm.
  unfold status_events, ratio_or_None.
  destruct (List.length den <? 3) eqn:Hlen; [reflexivity|].
  apply Nat.ltb_ge in Hlen.
  assert (Hz : (List.length den =? 0) = false) by (apply Nat.eqb_neq; lia).
  unfold len_div. rewrite Hz, Hm.
  destruct m; reflexivity.
Qed.

(** A valid call of [calculate_reliability], spelled out. *)
Lemma reliability_run (df : DataFrame F) (a : Args F) (m : Mode) :
  valid_query a = true ->
  parse_mode (mode a) = Some m ->
  calculate_reliability df a =
    (axis_trace a df ++ status_events m (after_snr a df) (after_snr a df),
     inr (ratio_or_None (filter (status_mask m) (after_snr a df)) (after_snr a df))).
Proof.
  intros Hv Hm. apply valid_query_checks in Hv as (Hp & Ha & Hmo & Hpw & Hs).
  unfold calculate_reliability. cbv zeta.
  rewrite check_aux_source, check_mode_source.
  rewrite !bind_assert_holds by assumption.
  eapply bind_returns;
    [apply period_stage| |unfold axis_trace; now rewrite <- app_assoc].
  eapply bind_returns;
    [apply power_stage, Hpw| |now rewrite <- app_assoc].
  eapply bind_returns;
    [apply magnitude_stage| |now rewrite <- app_assoc].
  eapply bind_returns; [apply snr_stage, Hs| |reflexivity].
  apply ratio_stage, Hm.
Qed.

(** A valid call of [calculate_completeness], spelled out. *)
Lemma completeness_run (df : DataFrame F) (a : Args F) (m : Mode) :
  valid_query a = true ->
  parse_mode (mode a) = Some m ->
  calculate_completeness df a =
    (axis_trace a df ++ status_events m (after_period a df) (after_snr a df),
     inr (ratio_or_None (filter (status_mask m) (after_snr a df))
            (after_period a df))).
Proof.
  intros Hv Hm. apply valid_query_checks in Hv as (Hp & Ha & Hmo & Hpw & Hs).
  unfold calculate_completeness. cbv zeta.
  rewrite check_aux_source, check_mode_source.
  rewrite !bind_assert_holds by assumption.
  eapply bind_returns;
    [apply period_stage| |unfold axis_trace; now rewrite <- app_assoc].
  eapply bind_returns;
    [apply power_stage, Hpw| |now rewrite <- app_assoc].
  eapply bind_returns;
    [apply magnitude_stage| |now rewrite <- app_assoc].
  eapply bind_returns; [apply snr_stage, Hs| |reflexivity].
  apply ratio_stage, Hm.
Qed.

End Runs.

(** ** Failing assertions *)

Section Failures.
Context {F : Type} `{PyFloat F}.

Lemma first_failure_None (a : Args F) :
  first_failure a = None <-> valid_query a = true.
Proof.
  unfold first_failure, valid_query.
  destruct (check_period a), (check_aux a), (check_mode a), (check_power a),
    (check_snr a); simpl; split; congruence.
Qed.

Lemma power_stage_fails (a : Args F) (src : DataFrame F) :
  check_power a = false ->
  match ls a with
  | Some ls =>
      assert_ ((lit_0 <. ls) && (ls <. lit_1))
        "Lomb-Scargle power must be between 0 and 1" ;;;
      loc Df.c_power
        (fun r => (Df.power r >. ls -. ls_lower_limit a) &&
                  (Df.power r <. ls +. ls_upper_limit a)) src
  | None => ret src
  end
  = ([], inl (AssertionError "Lomb-Scargle power must be between 0 and 1")).
Proof.
  unfold check_power. destruct (ls a) as [x|]; [|discriminate].
  intros ->. reflexivity.
Qed.

Lemma snr_stage_fails (a : Args F) (src : DataFrame F) :
  check_snr a = false ->
  match snr a with
  | Some snr =>
      assert_ (snr >. lit_0) "SNR must be greater than 0" ;;;
      loc Df.c_snr
        (fun r => (Df.snr r >. snr -. snr_lower_limit a) &&
                  (Df.snr r <. snr +. snr_upper_limit a)) src
  | None => ret src
  end
  = ([], inl (AssertionError "SNR must be greater than 0")).
Proof.
  unfold check_snr. destruct (snr a) as [x|]; [|discriminate].
  intros ->. reflexivity.
Qed.

(** Walks a body assertion by assertion until the one that fails. *)
Ltac walk_to_failure a Hk :=
  destruct (check_period a) eqn:?; cbn [negb] in Hk;
    [|injection Hk as <-; now rewrite bind_assert_fails];
  rewrite bind_assert_holds by reflexivity;
  destruct (check_aux a) eqn:?; cbn [negb] in Hk;
    [|injection Hk as <-; now rewrite bind_assert_fails];
  rewrite bind_assert_holds by reflexivity;
  destruct (check_mode a) eqn:?; cbn [negb] in Hk;
    [|injection Hk as <-; now rewrite bind_assert_fails];
  rewrite bind_assert_holds by reflexivity;
  destruct (check_power a) eqn:?; cbn [negb] in Hk;
    [destruct (check_snr a) eqn:?; cbn [negb] in Hk; [discriminate|]|];
  injection Hk as <-; unfold selections_before;
  [ rewrite <- (app_nil_r (axis_events Df.c_Tmag _ _ _ _ _));
    (eapply bind_returns; [apply period_stage| |reflexivity]);
    (eapply bind_returns; [now apply power_stage| |reflexivity]);
    (eapply bind_returns; [apply magnitude_stage| |reflexivity]);
    apply bind_raises; now apply snr_stage_fails
  | rewrite <- (app_nil_r [Loc _ _ _]);
    (eapply bind_returns; [apply period_stage| |reflexivity]);
    apply bind_raises; now apply power_stage_fails ].

(** A call whose query fails validation, spelled out. *)
Lemma run_failure (est : Estimator) (df : DataFrame F) (a : Args F)
  (k : ErrorKind) :
  first_failure a = Some k ->
  run est df a
  = (selections_before k a df, inl (AssertionError (error_message est k))).
Proof.
  unfold first_failure. intros Hk.
  destruct est; unfold run, calculate_reliability, calculate_completeness;
    cbv zeta; rewrite check_aux_source, check_mode_source;
    fold (check_period a).
  - walk_to_failure a Hk.
  - walk_to_failure a Hk.
Qed.

(** Every call either fails its validation or runs as [reliability_run]
    and [completeness_run] say. *)
Lemma run_cases (est : Estimator) (df : DataFrame F) (a : Args F) :
  (exists k, first_failure a = Some k /\
     run est df a
     = (selections_before k a df, inl (AssertionError (error_message est k))))
  \/
  (exists m, valid_query a = true /\ parse_mode (mode a) = Some m /\
     run est df a
     = (axis_trace a df
          ++ status_events m
               (match est with
                | Reliability => after_snr a df
                | Completeness => after_period a df
                end) (after_snr a df),
        inr (ratio_or_None (filter (status_mask m) (after_snr a df))
               (match est with
                | Reliability => after_snr a df
                | Completeness => after_period a df
                end)))).
Proof.
  destruct (first_failure a) as [k|] eqn:Hk.
  - left. exists k. split; [reflexivity|]. now apply run_failure.
  - right. apply first_failure_None in Hk.
    destruct (valid_query_mode a Hk) as [m Hm]. exists m.
    split; [assumption|]. split; [assumption|].
    destruct est; [now apply reliability_run|now apply completeness_run].
Qed.

End Failures.

(** ** What each selection keeps *)

Section Selections.
Context {F : Type} `{PyFloat F}.

Lemma messages_name_fields (est : Estimator) (k : ErrorKind) :
  contains (field_named k) (error_message est k) = true.
Proof. destruct est, k; reflexivity. Qed.

Lemma in_window_true (center lower upper value : F) :
  in_window center lower upper value = true <->
  (value >. center -. lower) = true /\ (value <. center +. upper) = true.
Proof. unfold in_window. apply andb_true_iff. Qed.

Lemma in_window_nan (center lower upper : F) :
  in_window center lower upper nan = false.
Proof. unfold in_window. now rewrite lt_nan_l, andb_false_r. Qed.

Lemma in_window_lower_bound (center lower upper : F) :
  in_window center lower upper (center -. lower) = false.
Proof. unfold in_window. now rewrite lt_irrefl. Qed.

Lemma in_window_upper_bound (center lower upper : F) :
  in_window center lower upper (center +. upper) = false.
Proof. unfold in_window. now rewrite lt_irrefl, andb_false_r. Qed.

Lemma selections_before_axis_trace (k : ErrorKind) (a : Args F)
  (df : DataFrame F) :
  incl (selections_before k a df) (axis_trace a df).
Proof.
  intros e He. unfold axis_trace.
  destruct k; cbn [selections_before] in He;
    rewrite ?in_app_iff in He; rewrite ?in_app_iff;
    cbn [In] in He |- *; tauto.
Qed.


(** Every selection of a run is one of the axis stage or the status
    selection of the query's mode. *)
Lemma trace_events (est : Estimator) (df : DataFrame F) (a : Args F)
  (e : event F) :
  In e (trace (run est df a)) ->
  In e (axis_trace a df) \/
  exists m src, parse_mode (mode a) = Some m /\
    e = Loc Df.c_status src (filter (status_mask m) src).
Proof.
  destruct (run_cases est df a) as [(k & _ & Hrun)|(m & _ & Hm & Hrun)];
    rewrite Hrun; unfold trace; cbn [fst].
  - intros He. left. now apply (selections_before_axis_trace k).
  - rewrite in_app_iff. intros [He|He]; [now left|right].
    unfold status_events in He.
    destruct (List.length _ <? 3); [destruct He|].
    destruct He as [<-|[]]. now exists m, (after_snr a df).
Qed.

Lemma axis_trace_window (ax : Axis) (a : Args F) (df src kept : DataFrame F) :
  In (Loc (axis_column ax) src kept) (axis_trace a df) ->
  exists center lower upper,
    axis_window ax a = Some (center, lower, upper) /\
    kept = filter (fun r => in_window center lower upper (axis_value ax r)) src.
Proof.
  unfold axis_trace, axis_events, after_period, period_mask.
  destruct ax; cbn [axis_column axis_window axis_value];
    destruct (ls a) as [x|], (t a) as [y|], (snr a) as [z|];
    cbn [app In option_map];
    intros Hin;
    repeat match goal with
      | Hor : _ \/ _ |- _ => destruct Hor as [Hor|Hor]
      | Hf : False |- _ => destruct Hf
      | Heq : Loc _ _ _ = Loc _ _ _ |- _ =>
          first [discriminate Heq | injection Heq as <- <-]
      end;
    do 3 eexists; split; reflexivity.
Qed.

End Selections.

(** ** Denominators *)

Section Denominators.
Context {F : Type} `{PyFloat F}.

Lemma axis_frames_app (tr1 tr2 : list (event F)) :
  axis_frames (tr1 ++ tr2) = axis_frames tr1 ++ axis_frames tr2.
Proof. unfold axis_frames. apply flat_map_app. Qed.

Lemma axis_frames_status (m : Mode) (den src : DataFrame F) :
  axis_frames (status_events m den src) = [].
Proof. unfold status_events. now destruct (List.length den <? 3). Qed.

Lemma after_power_None (a : Args F) (df : DataFrame F) :
  ls a = None -> after_power a df = after_period a df.
Proof.
  intros Hls. unfold after_power, power_mask. rewrite Hls. apply filter_all.
Qed.

Lemma after_magnitude_None (a : Args F) (df : DataFrame F) :
  t a = None -> after_magnitude a df = after_power a df.
Proof.
  intros Ht. unfold after_magnitude, magnitude_mask. rewrite Ht.
  apply filter_all.
Qed.

Lemma after_snr_None (a : Args F) (df : DataFrame F) :
  snr a = None -> after_snr a df = after_magnitude a df.
Proof.
  intros Hs. unfold after_snr, snr_mask. rewrite Hs. apply filter_all.
Qed.

(** The last frame of the axis stage is the frame after the snr axis. *)
Lemma last_axis_frame (a : Args F) (df : DataFrame F) :
  last (axis_frames (axis_trace a df)) [] = after_snr a df.
Proof.
  unfold axis_trace.
  destruct (snr a) as [z|] eqn:Hs; cbn [axis_events].
  - rewrite !app_assoc, axis_frames_app. cbn [axis_frames flat_map app].
    rewrite app_comm_cons, last_last. unfold after_snr, snr_mask. now rewrite Hs.
  - rewrite after_snr_None, app_nil_r by assumption.
    destruct (t a) as [y|] eqn:Ht; cbn [axis_events].
    + rewrite !app_assoc, axis_frames_app. cbn [axis_frames flat_map app].
      rewrite app_comm_cons, last_last. unfold after_magnitude, magnitude_mask. now rewrite Ht.
    + rewrite after_magnitude_None, app_nil_r by assumption.
      destruct (ls a) as [x|] eqn:Hl; cbn [axis_events].
      * cbn [axis_frames flat_map app last].
        unfold after_power, power_mask. now rewrite Hl.
      * rewrite after_power_None by assumption. reflexivity.
Qed.

(** On a valid query [calculate_reliability] divides by the frame in the
    whole box. *)
Lemma denominator_reliability (df : DataFrame F) (a : Args F) :
  valid_query a = true ->
  denominator Reliability df a = filter (box_mask a) df.
Proof.
  intros Hv. destruct (valid_query_mode a Hv) as [m Hm].
  unfold denominator, final_frame, trace.
  rewrite (reliability_run df a m Hv Hm). cbn [fst].
  rewrite axis_frames_app, axis_frames_status, app_nil_r, last_axis_frame.
  apply after_snr_box.
Qed.

(** On a valid query [calculate_completeness] divides by the frame in the
    period window. *)
Lemma denominator_completeness (df : DataFrame F) (a : Args F) :
  valid_query a = true ->
  denominator Completeness df a = filter (period_mask a) df.
Proof.
  intros Hv. destruct (valid_query_mode a Hv) as [m Hm].
  unfold denominator, period_frame, trace.
  rewrite (completeness_run df a m Hv Hm). reflexivity.
Qed.

Lemma box_in_period (a : Args F) (df : DataFrame F) :
  filter (box_mask a) df = filter (aux_mask a) (filter (period_mask a) df).
Proof. now rewrite <- after_snr_box, after_snr_aux. Qed.

(** The outcome of a valid call, by estimator. *)
Lemma run_outcome (est : Estimator) (df : DataFrame F) (a : Args F) (m : Mode) :
  valid_query a = true ->
  parse_mode (mode a) = Some m ->
  outcome (run est df a)
  = inr (ratio_or_None
           (filter (status_mask m) (filter (box_mask a) df))
           (denominator est df a)).
Proof.
  intros Hv Hm. destruct est.
  - rewrite denominator_reliability by assumption. unfold run.
    rewrite (reliability_run df a m Hv Hm). unfold outcome. cbn [snd].
    now rewrite after_snr_box.
  - rewrite denominator_completeness by assumption. unfold run.
    rewrite (completeness_run df a m Hv Hm). unfold outcome. cbn [snd].
    now rewrite after_snr_box.
Qed.

Lemma numerator_le_denominator (est : Estimator) (df : DataFrame F)
  (a : Args F) (m : Mode) :
  valid_query a = true ->
  List.length (filter (status_mask m) (filter (box_mask a) df))
  <= List.length (denominator est df a).
Proof.
  intros Hv. destruct est.
  - rewrite denominator_reliability by assumption. apply filter_length_le.
  - rewrite denominator_completeness by assumption. rewrite box_in_period.
    etransitivity; [apply filter_length_le|apply filter_length_le].
Qed.

End Denominators.

Section SelectionsRun.
Context {F : Type} `{PyFloat F}.

(** On a valid query every supplied axis is selected on. *)
Lemma supplied_axis_is_selected (est : Estimator) (df : DataFrame F)
  (a : Args F) (ax : Axis) (c l u : F) :
  valid_query a = true ->
  axis_window ax a = Some (c, l, u) ->
  exists src,
    In (Loc (axis_column ax) src
          (filter (fun r => in_window c l u (axis_value ax r)) src))
       (trace (run est df a)).
Proof.
  intros Hv Hw.
  destruct (run_cases est df a) as [(k & Hk & _)|(m & _ & _ & Hrun)].
  { apply first_failure_None in Hv. congruence. }
  rewrite Hrun. unfold trace. cbn [fst]. unfold axis_trace.
  destruct ax; cbn [axis_window axis_column axis_value] in *.
  - injection Hw as <- <- <-. exists df. rewrite !in_app_iff. left. left. now left.
  - destruct (ls a) as [x|]; [|discriminate]. injection Hw as <- <- <-.
    exists (after_period a df). rewrite !in_app_iff. left. right. left.
    now left.
  - destruct (t a) as [y|]; [|discriminate]. injection Hw as <- <- <-.
    exists (after_power a df). rewrite !in_app_iff. left. right. right. left.
    now left.
  - destruct (snr a) as [z|]; [|discriminate]. injection Hw as <- <- <-.
    exists (after_magnitude a df). rewrite !in_app_iff. left. right. right.
    right. now left.
Qed.


End SelectionsRun.

(** ** Widening and emptying windows *)

Section Windows.
Context {F : Type} `{PyFloatArith F}.

Lemma lower_bound_mono (c l l' v : F) :
  grows l l' -> (v >. c -. l) = true -> (v >. c -. l') = true.
Proof.
  intros [<-|Hle] Hv; [exact Hv|].
  rewrite sub_add_opp in Hv |- *.
  apply add_lower_mono with (u' := opp l); [now apply opp_le|exact Hv].
Qed.

Lemma upper_bound_mono (c u u' v : F) :
  grows u u' -> (v <. c +. u) = true -> (v <. c +. u') = true.
Proof.
  intros [<-|Hle] Hv; [exact Hv|].
  now apply add_upper_mono with (u := u).
Qed.

Lemma in_window_mono (c l l' u u' v : F) :
  grows l l' -> grows u u' ->
  in_window c l u v = true -> in_window c l' u' v = true.
Proof.
  intros Hl Hu. unfold in_window. rewrite !andb_true_iff.
  intros [Hlo Hup]. split.
  - now apply lower_bound_mono with (l := l).
  - now apply upper_bound_mono with (u := u).
Qed.

Lemma in_axis_mono (center : option F) (l l' u u' v : F) :
  grows l l' -> grows u u' ->
  in_axis center l u v = true -> in_axis center l' u' v = true.
Proof.
  destruct center as [c|]; cbn [in_axis]; [apply in_window_mono|trivial].
Qed.

Lemma period_mask_mono (a a' : Args F) (r : Df.Row F) :
  widens a a' -> period_mask a r = true -> period_mask a' r = true.
Proof.
  intros (Hp & _ & _ & _ & _ & Hpl & Hpu & _). unfold period_mask.
  rewrite Hp. now apply in_window_mono.
Qed.

Lemma box_mask_mono (a a' : Args F) (r : Df.Row F) :
  widens a a' -> box_mask a r = true -> box_mask a' r = true.
Proof.
  intros Hw. pose proof (period_mask_mono a a' r Hw) as Hperiod.
  destruct Hw as (_ & Hls & Ht & Hs & _ & _ & _ & Hll & Hlu & Htl & Htu & Hsl & Hsu).
  unfold box_mask, aux_mask, power_mask, magnitude_mask, snr_mask.
  rewrite Hls, Ht, Hs, !andb_true_iff.
  intros (Hp & (Hpow & Hmag) & Hsnr).
  repeat split; [now apply Hperiod|..];
    eapply in_axis_mono; eassumption.
Qed.

Lemma widens_valid (a a' : Args F) :
  widens a a' -> valid_query a' = valid_query a.
Proof.
  intros (Hp & Hls & Ht & Hs & Hm & _).
  unfold valid_query, check_period, check_aux, check_mode, check_power,
    check_snr.
  now rewrite Hp, Hls, Ht, Hs, Hm.
Qed.

Lemma filter_incl_mono {A} (f g : A -> bool) (l : list A) :
  (forall x, f x = true -> g x = true) ->
  forall x, In x (filter f l) -> In x (filter g l).
Proof.
  intros Hfg x. rewrite !filter_In. intros [Hin Hf]. split; auto.
Qed.

End Windows.

Section EmptyWindows.
Context {F : Type} `{PyFloatArith F}.

Lemma empty_window_excludes (c l u v : F) :
  empty_window l u -> in_window c l u v = false.
Proof.
  unfold empty_window, in_window. intros Hsum.
  destruct (v >. c -. l) eqn:Hlo; [|reflexivity].
  destruct (v <. c +. u) eqn:Hup; [|reflexivity].
  apply add_nonpos in Hsum.
  apply (add_upper_mono c u (opp l) v Hsum) in Hup.
  rewrite <- sub_add_opp in Hup.
  apply lt_asym in Hup. congruence.
Qed.

Lemma filter_none {A} (f : A -> bool) (l : list A) :
  (forall x, f x = false) -> filter f l = [].
Proof.
  intros Hf. induction l as [|x l IH]; cbn [filter]; [reflexivity|].
  now rewrite Hf.
Qed.

Lemma aux_mask_axis (ax : Axis) (a : Args F) (r : Df.Row F) (c l u : F) :
  ax <> Period ->
  axis_window ax a = Some (c, l, u) ->
  aux_mask a r = true -> in_window c l u (axis_value ax r) = true.
Proof.
  unfold aux_mask, power_mask, magnitude_mask, snr_mask.
  rewrite !andb_true_iff. intros Hax Hw ((Hpow & Hmag) & Hsnr).
  destruct ax; cbn [axis_window axis_value] in *; [contradiction|..].
  - destruct (ls a); [|discriminate]. now injection Hw as <- <- <-.
  - destruct (t a); [|discriminate]. now injection Hw as <- <- <-.
  - destruct (snr a); [|discriminate]. now injection Hw as <- <- <-.
Qed.

Lemma box_mask_axis (ax : Axis) (a : Args F) (r : Df.Row F) (c l u : F) :
  axis_window ax a = Some (c, l, u) ->
  box_mask a r = true -> in_window c l u (axis_value ax r) = true.
Proof.
  unfold box_mask. rewrite andb_true_iff. intros Hw [Hper Haux].
  destruct ax; try (apply (aux_mask_axis _ a); [discriminate|assumption..]).
  cbn [axis_window axis_value] in *. now injection Hw as <- <- <-.
Qed.

Lemma empty_window_empty_box (ax : Axis) (a : Args F) (df : DataFrame F)
  (c l u : F) :
  axis_window ax a = Some (c, l, u) -> empty_window l u ->
  filter (box_mask a) df = [].
Proof.
  intros Hw He. apply filter_none. intros r.
  destruct (box_mask a r) eqn:Hb; [|reflexivity].
  apply (box_mask_axis ax a r c l u Hw) in Hb.
  now rewrite empty_window_excludes in Hb.
Qed.

End EmptyWindows.

(** ** The five-row scenario *)

Section FiveRows.
Local Open Scope float_scope.

Lemma scenario_box_mask (mode : string) (period pw tm sn : float)
  (st : string) :
  box_mask (Scenario.query mode) (Df.mkRow period pw tm sn st)
  = in_window 9 1 1 period && in_window 0.1 0.05 0.05 pw.
Proof.
  unfold box_mask, aux_mask, period_mask, power_mask, magnitude_mask, snr_mask.
  cbn [Scenario.query input_period period_lower_limit period_upper_limit
       ls ls_lower_limit ls_upper_limit t snr in_axis
       Df.prot_rh20 Df.power].
  now rewrite !andb_true_r.
Qed.

Lemma scenario_box (mode : string) (p0 p1 p2 p3 p4 : float) (k : nat) :
  in_window 0.1 0.05 0.05 p0 = true ->
  in_window 0.1 0.05 0.05 p1 = true ->
  in_window 0.1 0.05 0.05 p2 = true ->
  in_window 0.1 0.05 0.05 p3 = true ->
  filter (box_mask (Scenario.query mode)) (Scenario.catalog_with p0 p1 p2 p3 p4 k)
  = firstn 4 (Scenario.catalog_with p0 p1 p2 p3 p4 k).
Proof.
  intros H0 H1 H2 H3. unfold Scenario.catalog_with.
  cbn [filter firstn]. rewrite !scenario_box_mask, H0, H1, H2, H3.
  replace (in_window 9 1 1 8.5) with true by (vm_compute; reflexivity).
  replace (in_window 9 1 1 9.0) with true by (vm_compute; reflexivity).
  replace (in_window 9 1 1 9.4) with true by (vm_compute; reflexivity).
  replace (in_window 9 1 1 9.6) with true by (vm_compute; reflexivity).
  replace (in_window 9 1 1 15) with false by (vm_compute; reflexivity).
  reflexivity.
Qed.

End FiveRows.

(** ** Catalogs and modes *)

Section Catalogs.
Context {F : Type} `{PyFloat F}.

Lemma with_mode_valid (a : Args F) (m : Mode) :
  valid_query a = true -> valid_query (with_mode a m) = true.
Proof.
  intros Hv. apply valid_query_checks in Hv as (Hp & Ha & _ & Hpw & Hs).
  unfold valid_query, check_mode. cbn [with_mode mode].
  rewrite parse_mode_name.
  change (check_period (with_mode a m)) with (check_period a).
  change (check_aux (with_mode a m)) with (check_aux a).
  change (check_power (with_mode a m)) with (check_power a).
  change (check_snr (with_mode a m)) with (check_snr a).
  now rewrite Hp, Ha, Hpw, Hs.
Qed.

Lemma with_mode_box (a : Args F) (m : Mode) (df : DataFrame F) :
  filter (box_mask (with_mode a m)) df = filter (box_mask a) df.
Proof. reflexivity. Qed.

Lemma with_mode_denominator (est : Estimator) (df : DataFrame F) (a : Args F)
  (m : Mode) :
  valid_query a = true ->
  denominator est df (with_mode a m) = denominator est df a.
Proof.
  intros Hv. pose proof (with_mode_valid a m Hv) as Hv'.
  destruct est.
  - now rewrite !denominator_reliability.
  - now rewrite !denominator_completeness.
Qed.

Lemma status_counts (l : DataFrame F) :
  List.length (filter (status_mask Match) l)
  + List.length (filter (status_mask Alias) l)
  <= List.length (filter (status_mask Recovery) l).
Proof.
  unfold status_mask, StatusClassifier.
  induction l as [|r l IH]; cbn [filter List.length]; [lia|].
  destruct (String.eqb_spec (Df.status r) "match") as [E|_].
  - rewrite E. cbn. lia.
  - destruct (String.eqb_spec (Df.status r) "alias") as [E|_].
    + rewrite E. cbn. lia.
    + destruct (negb (Df.status r =? "not_recovered")%string); cbn; lia.
Qed.

Lemma filter_length_perm {A} (f : A -> bool) (l l' : list A) :
  Permutation l l' -> List.length (filter f l) = List.length (filter f l').
Proof.
  intros Hp. induction Hp as [|x l l' _ IH|x y l|l l' l'' _ IH1 _ IH2];
    cbn [filter].
  - reflexivity.
  - destruct (f x); cbn [List.length]; now rewrite IH.
  - destruct (f x), (f y); reflexivity.
  - now rewrite IH1.
Qed.

Lemma run_outcome_lengths (est : Estimator) (df : DataFrame F) (a : Args F)
  (m : Mode) :
  valid_query a = true ->
  parse_mode (mode a) = Some m ->
  outcome (run est df a)
  = inr (let k := List.length (filter (status_mask m) (filter (box_mask a) df)) in
         let n := List.length
                    (filter (match est with
                             | Reliability => box_mask a
                             | Completeness => period_mask a
                             end) df) in
         if n <? 3 then None else Some (truediv k n)).
Proof.
  intros Hv Hm. rewrite (run_outcome est df a m Hv Hm). unfold ratio_or_None.
  destruct est.
  - now rewrite denominator_reliability.
  - now rewrite denominator_completeness.
Qed.

End Catalogs.

Section Ratios.

Lemma returns_is_valid {F : Type} `{PyFloat F} (est : Estimator)
  (df : DataFrame F) (a : Args F) (v : option F) :
  outcome (run est df a) = inr v -> valid_query a = true.
Proof.
  intros Hv. destruct (run_cases est df a) as [(k & _ & Hrun)|(m & Hq & _)];
    [|exact Hq].
  rewrite Hrun in Hv. discriminate Hv.
Qed.

Lemma ratio_le (k n k' n' : nat) (q q' : float) :
  k <= n -> k' <= n' -> k * n' <= k' * n ->
  (if n <? 3 then None else Some (truediv k n)) = Some q ->
  (if n' <? 3 then None else Some (truediv k' n')) = Some q' ->
  q <=. q' = true.
Proof.
  intros Hk Hk' Hle.
  destruct (Nat.ltb_spec n 3); [discriminate|].
  destruct (Nat.ltb_spec n' 3); [discriminate|].
  intros [= <-] [= <-].
  apply Quotient.int_truediv_mono; lia.
Qed.

End Ratios.

(** ** NaN windows *)

Section NaNWindows.

Lemma float_add_nan_r (c : float) : PrimFloat.add c PrimFloat.nan = PrimFloat.nan.
Proof.
  apply FloatAxioms.Prim2SF_inj. rewrite FloatAxioms.add_spec.
  change (Prim2SF PrimFloat.nan) with S754_nan.
  now destruct (Prim2SF c).
Qed.

Lemma float_add_nan_l (u : float) : PrimFloat.add PrimFloat.nan u = PrimFloat.nan.
Proof.
  apply FloatAxioms.Prim2SF_inj. rewrite FloatAxioms.add_spec. reflexivity.
Qed.

Lemma float_sub_nan_r (c : float) : PrimFloat.sub c PrimFloat.nan = PrimFloat.nan.
Proof.
  apply FloatAxioms.Prim2SF_inj. rewrite FloatAxioms.sub_spec.
  change (Prim2SF PrimFloat.nan) with S754_nan.
  now destruct (Prim2SF c).
Qed.

Lemma float_sub_nan_l (l : float) : PrimFloat.sub PrimFloat.nan l = PrimFloat.nan.
Proof.
  apply FloatAxioms.Prim2SF_inj. rewrite FloatAxioms.sub_spec. reflexivity.
Qed.

Lemma nan_window_excludes (c l u v : float) :
  c = PrimFloat.nan \/ l = PrimFloat.nan \/ u = PrimFloat.nan ->
  in_window c l u v = false.
Proof.
  unfold in_window. cbn [lt add sub Binary64.float64].
  intros [->|[->| ->]].
  - now rewrite float_sub_nan_l, Binary64.ltb_nan_l.
  - now rewrite float_sub_nan_r, Binary64.ltb_nan_l.
  - rewrite float_add_nan_r, Binary64.ltb_nan_r. apply andb_false_r.
Qed.

End NaNWindows.

(** ** Labels *)

Lemma prefix_app (sub s : string) :
  String.prefix sub s = true <-> exists post, s = (sub ++ post)%string.
Proof.
  revert s. induction sub as [|c sub IH]; intros s.
  - split; [intros _; now exists s|].
    intros _. destruct s; reflexivity.
  - destruct s as [|d s]; cbn.
    + split; [discriminate|intros [post Hp]; discriminate].
    + destruct (Ascii.ascii_dec c d) as [->|Hne].
      * rewrite IH. split; intros [post Hp]; exists post.
        -- now rewrite Hp.
        -- now injection Hp.
      * split; [discriminate|]. intros [post Hp]. injection Hp as -> _.
        contradiction.
Qed.

Lemma contains_app (sub s : string) :
  contains sub s = true <-> exists pre post, s = (pre ++ sub ++ post)%string.
Proof.
  induction s as [|c s IH]; cbn [contains].
  - destruct (String.prefix sub EmptyString) eqn:Hp.
    + apply prefix_app in Hp as [post Hp]. split; [|reflexivity].
      intros _. exists EmptyString, post. exact Hp.
    + split; [discriminate|]. intros (pre & post & Heq).
      destruct pre; [|discriminate].
      assert (String.prefix sub EmptyString = true)
        by (apply prefix_app; now exists post).
      congruence.
  - destruct (String.prefix sub (String c s)) eqn:Hp.
    + apply prefix_app in Hp as [post Hp]. split; [|reflexivity].
      intros _. exists EmptyString, post. exact Hp.
    + rewrite IH. split.
      * intros (pre & post & ->). now exists (String c pre), post.
      * intros (pre & post & Heq). destruct pre as [|d pre].
        -- assert (String.prefix sub (String c s) = true)
             by (apply prefix_app; now exists post).
           congruence.
        -- injection Heq as _ ->. now exists pre, post.
Qed.

Lemma lower_app (s1 s2 : string) : lower (s1 ++ s2)%string = (lower s1 ++ lower s2)%string.
Proof. induction s1 as [|c s1 IH]; cbn; [reflexivity|now rewrite IH]. Qed.

Lemma lower_split (s l1 l2 : string) :
  lower s = (l1 ++ l2)%string ->
  exists s1 s2, s = (s1 ++ s2)%string /\ lower s1 = l1 /\ lower s2 = l2.
Proof.
  revert s. induction l1 as [|c l1 IH]; intros s Hs.
  - exists EmptyString, s. auto.
  - destruct s as [|d s]; [discriminate|]. cbn in Hs.
    injection Hs as Hc Hs. apply IH in Hs as (s1 & s2 & -> & H1 & H2).
    exists (String d s1), s2. cbn. now rewrite Hc, H1.
Qed.

Lemma contains_limit_lim (s : string) :
  contains "limit" s = true -> contains "lim" s = true.
Proof.
  rewrite !contains_app. intros (pre & post & ->).
  exists pre, ("it" ++ post)%string. reflexivity.
Qed.

Lemma limit_label (col : string) :
  contains "lim" (lower col) || contains "limit" (lower col)
  = contains "lim" (lower col).
Proof.
  destruct (contains "lim" (lower col)) eqn:Hlim; [reflexivity|].
  destruct (contains "limit" (lower col)) eqn:Hlimit; [|reflexivity].
  apply contains_limit_lim in Hlimit. congruence.
Qed.

(** ** Rows and labels *)

Section Rows.
Context {V : Type}.

Lemma get_loc_bound (label : string) (columns : list string) (i : nat) :
  Pd.get_loc label columns = Some i -> i < List.length columns.
Proof.
  revert i. induction columns as [|c cs IH]; intros i; cbn; [discriminate|].
  destruct (String.eqb c label).
  - intros [= <-]. lia.
  - destruct (Pd.get_loc label cs) as [j|]; [|discriminate].
    intros [= <-]. specialize (IH j eq_refl). lia.
Qed.

Lemma get_loc_nth (label : string) (columns : list string) (i : nat) :
  Pd.get_loc label columns = Some i -> nth_error columns i = Some label.
Proof.
  revert i. induction columns as [|c cs IH]; intros i; cbn; [discriminate|].
  destruct (String.eqb_spec c label) as [->|_].
  - now intros [= <-].
  - destruct (Pd.get_loc label cs) as [j|]; [|discriminate].
    intros [= <-]. now apply IH.
Qed.

Lemma get_loc_In (label : string) (columns : list string) :
  existsb (String.eqb label) columns = true <->
  exists i, Pd.get_loc label columns = Some i.
Proof.
  induction columns as [|c cs IH]; cbn.
  - split; [discriminate|intros [i Hi]; discriminate].
  - rewrite (String.eqb_sym label c).
    destruct (String.eqb c label); cbn.
    + split; [intros _; now exists 0|reflexivity].
    + rewrite IH. split; intros [i Hi].
      * exists (S i). now rewrite Hi.
      * destruct (Pd.get_loc label cs) as [j|]; [now exists j|discriminate].
Qed.

Lemma distinct_get_loc (columns : list string) (j : nat) (label : string) :
  Pd.distinct columns = true ->
  nth_error columns j = Some label ->
  Pd.get_loc label columns = Some j.
Proof.
  revert j. induction columns as [|c cs IH]; intros j Hd Hj.
  - destruct j; discriminate.
  - cbn in Hd. apply andb_true_iff in Hd as [Hc Hd].
    destruct j as [|j]; cbn in Hj |- *.
    + injection Hj as ->. now rewrite String.eqb_refl.
    + destruct (String.eqb_spec c label) as [->|_].
      * apply nth_error_In in Hj.
        assert (existsb (String.eqb label) cs = true).
        { apply existsb_exists. exists label. split; [assumption|].
          apply String.eqb_refl. }
        rewrite H in Hc. discriminate.
      * now rewrite (IH j Hd Hj).
Qed.

Lemma getitem_combine (columns : list string) (cells : list V)
  (label : string) :
  List.length cells = List.length columns ->
  Pd.getitem (combine columns cells) label
  = match Pd.get_loc label columns with
    | Some i =>
        match nth_error cells i with
        | Some v => inr v
        | None => inl (KeyError label)
        end
    | None => inl (KeyError label)
    end.
Proof.
  unfold Pd.getitem. revert cells.
  induction columns as [|c cs IH]; intros cells Hlen; [reflexivity|].
  destruct cells as [|v cells]; [discriminate|]. cbn.
  destruct (String.eqb c label); [reflexivity|].
  rewrite IH by (cbn in Hlen; lia).
  destruct (Pd.get_loc label cs); reflexivity.
Qed.

Lemma getitem_nth (columns : list string) (cells : list V) (j : nat)
  (label : string) :
  Pd.distinct columns = true ->
  List.length cells = List.length columns ->
  nth_error columns j = Some label ->
  exists v, nth_error cells j = Some v /\
            Pd.getitem (combine columns cells) label = inr v.
Proof.
  intros Hd Hlen Hj. rewrite getitem_combine by assumption.
  rewrite (distinct_get_loc columns j label Hd Hj).
  assert (Hlt : j < List.length cells).
  { rewrite Hlen. apply nth_error_Some. congruence. }
  destruct (nth_error cells j) as [v|] eqn:Hv.
  - now exists v.
  - apply nth_error_None in Hv. lia.
Qed.

End Rows.

(** ** [_get_val_limits] *)

Section HelperLemmas.
Context {V F : Type} `{PyValue V F}.

Lemma limit_block (columns : list string) (cells : list V) (j : nat) :
  Pd.distinct columns = true ->
  List.length cells = List.length columns ->
  (if j <? List.length columns then
     let col := nth j columns EmptyString in
     if contains "lim" (lower col) || contains "limit" (lower col) then
       tmp <~ Pd.getitem (combine columns cells) col ;;
       inr (if negb (isna tmp) then Some tmp else None)
     else inr None
   else inr None)
  = inr (limit_cell columns cells j).
Proof.
  intros Hd Hlen. unfold limit_cell.
  destruct (Nat.ltb_spec j (List.length columns)) as [Hlt|Hge].
  - destruct (nth_error columns j) as [col|] eqn:Hcol;
      [|apply nth_error_None in Hcol; lia].
    rewrite (nth_error_nth _ _ EmptyString Hcol). cbv zeta.
    rewrite limit_label.
    destruct (contains "lim" (lower col)); [|reflexivity].
    destruct (getitem_nth columns cells j col Hd Hlen Hcol) as (v & -> & ->).
    cbn. now destruct (isna v).
  - assert (Hnone : nth_error columns j = None) by now apply nth_error_None.
    now rewrite Hnone.
Qed.

Lemma get_val_limits_combine (columns : list string) (cells : list V)
  (param_name : string) :
  Pd.distinct columns = true ->
  List.length cells = List.length columns ->
  _get_val_limits (combine columns cells) columns param_name
  = inr (match Pd.get_loc param_name columns with
         | None => (None, None, None)
         | Some i =>
             (not_na (nth_error cells i),
              limit_cell columns cells (i + 1),
              limit_cell columns cells (i + 2))
         end).
Proof.
  intros Hd Hlen. unfold _get_val_limits.
  destruct (existsb (String.eqb param_name) columns) eqn:Hin; cbn [negb].
  - apply get_loc_In in Hin as [i Hi]. rewrite Hi.
    destruct (getitem_nth columns cells i param_name Hd Hlen
                (get_loc_nth _ _ _ Hi)) as (v & Hv & ->).
    cbn [try_]. rewrite !limit_block by assumption. cbn [try_].
    rewrite Hv. cbn [not_na]. reflexivity.
  - destruct (Pd.get_loc param_name columns) as [i|] eqn:Hi; [|reflexivity].
    assert (existsb (String.eqb param_name) columns = true)
      by (apply get_loc_In; now exists i).
    congruence.
Qed.

End HelperLemmas.

Section HelperNaN.
Context {V F : Type} `{PyValue V F}.

Lemma limit_block_not_na (row : Pd.Series V) (columns : list string) (j : nat)
  (lo : option V) :
  (if j <? List.length columns then
     let col := nth j columns EmptyString in
     if contains "lim" (lower col) || contains "limit" (lower col) then
       tmp <~ Pd.getitem row col ;;
       inr (if negb (isna tmp) then Some tmp else None)
     else inr None
   else inr None)
  = inr lo ->
  forall v, lo = Some v -> isna v = false.
Proof.
  destruct (j <? List.length columns); [|intros [= <-]; discriminate].
  cbv zeta.
  destruct (contains "lim" (lower (nth j columns EmptyString))
            || contains "limit" (lower (nth j columns EmptyString)));
    [|intros [= <-]; discriminate].
  destruct (Pd.getitem row (nth j columns EmptyString)) as [e|tmp];
    [discriminate|].
  cbn [try_]. destruct (isna tmp) eqn:Hna; cbn [negb];
    intros [= <-] v; [discriminate|].
  now intros [= <-].
Qed.

Lemma get_val_limits_not_na (row : Pd.Series V) (columns : list string)
  (param_name : string) (val lo up : option V) :
  _get_val_limits row columns param_name = inr (val, lo, up) ->
  forall v, val = Some v \/ lo = Some v \/ up = Some v -> isna v = false.
Proof.
  unfold _get_val_limits.
  destruct (negb (existsb (String.eqb param_name) columns)).
  { intros [= <- <- <-] v [|[|]]; discriminate. }
  destruct (Pd.get_loc param_name columns) as [i|]; [|discriminate].
  destruct (Pd.getitem row param_name) as [e|cell]; [discriminate|].
  cbn [try_].
  match goal with
  | |- try_ ?b1 _ = _ -> _ => destruct b1 as [e|lo'] eqn:Hlo
  end; [discriminate|]. cbn [try_].
  match goal with
  | |- try_ ?b2 _ = _ -> _ => destruct b2 as [e|up'] eqn:Hup
  end; [discriminate|]. cbn [try_].
  intros [= <- <- <-] v [Hv|[Hv|Hv]].
  - destruct (isna cell) eqn:Hna; [discriminate|]. now injection Hv as <-.
  - exact (limit_block_not_na row columns (i + 1) lo' Hlo v Hv).
  - exact (limit_block_not_na row columns (i + 2) up' Hup v Hv).
Qed.

End HelperNaN.

(** ** The estimators on unconverted arguments *)

Section UntypedLemmas.
Context {V F : Type} `{PyValue V F}.

Ltac crunch :=
  unfold Untyped.bind, Untyped.lift, Untyped.ret, Untyped.float,
    Untyped.result, bind, assert_, loc, len_div, ret, raise;
  repeat first
    [ progress cbn [fst snd app existsb is_not_None orb kind
                    String.eqb Ascii.eqb Bool.eqb mode_name]
    | match goal with
      | |- context [match float_ ?v with _ => _ end] =>
          destruct (float_ v)
      | |- context [if ?c then _ else _] => destruct c
      end ].

Lemma untyped_converted (est : Estimator) (df : DataFrame F)
  (a : Args V) (b : Args F) :
  converted a b ->
  Untyped.run est df a = Untyped.lift (run est df b).
Proof.
  destruct a as [ip pl pu lsv lsl lsu tv tl tu sv sl su mo].
  destruct b as [ip' pl' pu' lsv' lsl' lsu' tv' tl' tu' sv' sl' su' mo'].
  unfold converted, converted_axis.
  cbn [input_period period_lower_limit period_upper_limit ls ls_lower_limit
       ls_upper_limit t t_lower_limit t_upper_limit snr snr_lower_limit
       snr_upper_limit mode].
  intros (Hip & Hpl & Hpu & Hls & Ht & Hs & <-).
  destruct est; cbn [Untyped.run run];
    unfold Untyped.calculate_reliability, Untyped.calculate_completeness,
      calculate_reliability, calculate_completeness;
    cbn [input_period period_lower_limit period_upper_limit ls ls_lower_limit
         ls_upper_limit t t_lower_limit t_upper_limit snr snr_lower_limit
         snr_upper_limit mode];
    cbv zeta; unfold Untyped.float at 1 2 3; rewrite Hip, Hpl, Hpu;
    destruct lsv as [lsv|], lsv' as [lsv'|]; try contradiction;
    destruct tv as [tv|], tv' as [tv'|]; try contradiction;
    destruct sv as [sv|], sv' as [sv'|]; try contradiction;
    repeat match goal with
           | Hc : _ /\ _ |- _ => destruct Hc
           end;
    unfold Untyped.float;
    repeat match goal with
           | Hc : float_ _ = inr _ |- _ => rewrite Hc; clear Hc
           end;
    crunch; reflexivity.
Qed.

Lemma bind_float (v : V) {B} (k : F -> Untyped.R F B) :
  Untyped.bind (Untyped.float v) k
  = match float_ v with
    | inl e => ([], inl e)
    | inr x => k x
    end.
Proof.
  unfold Untyped.bind, Untyped.float.
  destruct (float_ v) as [e|x]; [reflexivity|]. now destruct (k x).
Qed.

Lemma bind_lift_assert (cond : bool) (msg : string) {B}
  (k : unit -> Untyped.R F B) :
  Untyped.bind (Untyped.lift (assert_ cond msg)) k
  = if cond then k tt else ([], inl (Raised (AssertionError msg))).
Proof.
  unfold Untyped.bind, Untyped.lift, assert_.
  destruct cond; cbn; [now destruct (k tt)|reflexivity].
Qed.

Lemma alike_bind {A B} (m : Untyped.R F A)
  (k1 k2 : A -> Untyped.R F (option B)) :
  (forall x, alike (k1 x) (k2 x)) ->
  alike (Untyped.bind m k1) (Untyped.bind m k2).
Proof.
  intros Hk. unfold alike, Untyped.bind, Untyped.result.
  destruct m as [tr [e|x]]; [reflexivity|].
  specialize (Hk x). unfold alike, Untyped.result in Hk.
  destruct (k1 x) as [tr1 r1], (k2 x) as [tr2 r2]. exact Hk.
Qed.

Lemma alike_tail (mode1 mode2 : string) (param_df den : DataFrame F) :
  alike
    (if List.length den <? 3 then Untyped.ret None
     else
       Untyped.bind
         (Untyped.lift
            (if String.eqb mode1 "match" then
               loc Df.c_status (fun r => String.eqb (Df.status r) "match")
                 param_df
             else if String.eqb mode1 "alias" then
               loc Df.c_status (fun r => String.eqb (Df.status r) "alias")
                 param_df
             else
               loc Df.c_status
                 (fun r => negb (String.eqb (Df.status r) "not_recovered"))
                 param_df))
         (fun rel_df =>
            Untyped.bind (Untyped.lift (len_div rel_df den))
              (fun q => Untyped.ret (Some q))))
    (if List.length den <? 3 then Untyped.ret None
     else
       Untyped.bind
         (Untyped.lift
            (if String.eqb mode2 "match" then
               loc Df.c_status (fun r => String.eqb (Df.status r) "match")
                 param_df
             else if String.eqb mode2 "alias" then
               loc Df.c_status (fun r => String.eqb (Df.status r) "alias")
                 param_df
             else
               loc Df.c_status
                 (fun r => negb (String.eqb (Df.status r) "not_recovered"))
                 param_df))
         (fun rel_df =>
            Untyped.bind (Untyped.lift (len_div rel_df den))
              (fun q => Untyped.ret (Some q)))).
Proof.
  unfold alike. destruct (List.length den <? 3); [reflexivity|].
  unfold len_div.
  destruct (String.eqb mode1 "match"), (String.eqb mode1 "alias"),
    (String.eqb mode2 "match"), (String.eqb mode2 "alias");
    cbn; destruct (List.length den =? 0); reflexivity.
Qed.

Lemma untyped_modes (est : Estimator) (df : DataFrame F) (a : Args V)
  (m : Mode) :
  kind (Untyped.result (Untyped.run est df (with_mode a m)))
  = kind (Untyped.result (Untyped.run est df (with_mode a Match))).
Proof.
  change (alike (Untyped.run est df (with_mode a m))
            (Untyped.run est df (with_mode a Match))).
  assert (Hmode : forall m',
    existsb (String.eqb (mode (with_mode a m'))) ["match"; "alias"; "recovery"]
    = true) by (intros []; reflexivity).
  destruct est; cbn [Untyped.run];
    unfold Untyped.calculate_reliability, Untyped.calculate_completeness;
    rewrite !Hmode;
    change (ls (with_mode a m)) with (ls a);
    change (t (with_mode a m)) with (t a);
    change (snr (with_mode a m)) with (snr a);
    change (ls (with_mode a Match)) with (ls a);
    change (t (with_mode a Match)) with (t a);
    change (snr (with_mode a Match)) with (snr a);
    cbn [with_mode input_period period_lower_limit period_upper_limit
         ls_lower_limit ls_upper_limit t_lower_limit t_upper_limit
         snr_lower_limit snr_upper_limit];
    cbv zeta;
    repeat (apply alike_bind; intros ?);
    apply alike_tail.
Qed.

Lemma untyped_same_supplied (est : Estimator) (df : DataFrame F)
  (a a' : Args V) :
  same_supplied a a' ->
  Untyped.run est df a = Untyped.run est df a'.
Proof.
  destruct a as [ip pl pu lsv lsl lsu tv tl tu sv sl su mo].
  destruct a' as [ip' pl' pu' lsv' lsl' lsu' tv' tl' tu' sv' sl' su' mo'].
  unfold same_supplied, same_axis.
  cbn [input_period period_lower_limit period_upper_limit ls ls_lower_limit
       ls_upper_limit t t_lower_limit t_upper_limit snr snr_lower_limit
       snr_upper_limit mode].
  intros (<- & <- & <- & (<- & Hls) & (<- & Ht) & (<- & Hs) & <-).
  destruct est; cbn [Untyped.run];
    unfold Untyped.calculate_reliability, Untyped.calculate_completeness;
    cbn [input_period period_lower_limit period_upper_limit ls ls_lower_limit
         ls_upper_limit t t_lower_limit t_upper_limit snr snr_lower_limit
         snr_upper_limit mode];
    cbv zeta;
    (destruct lsv as [lsv|];
     [destruct (Hls ltac:(discriminate)) as [<- <-]|clear Hls]);
    (destruct tv as [tv|];
     [destruct (Ht ltac:(discriminate)) as [<- <-]|clear Ht]);
    (destruct sv as [sv|];
     [destruct (Hs ltac:(discriminate)) as [<- <-]|clear Hs]);
    reflexivity.
Qed.

End UntypedLemmas.


(** ** The batch loop *)

Section DriverLemmas.
Context {V F : Type} `{PyValue V F}.

Lemma or_default_fall_back (val low up : option V) (d1 d2 : F) :
  or_default (fst (fall_back val low up d1 d2)) d1 = or_default low d1 /\
  or_default (snd (fall_back val low up d1 d2)) d2 = or_default up d2.
Proof.
  unfold fall_back.
  destruct (is_not_None val && (negb (is_not_None low) || negb (is_not_None up)));
    cbn [fst snd or_default]; auto.
Qed.

(** The [try] body, once the row is read. *)
Lemma try_row_calls (args : Cli.Namespace F) (df : DataFrame F)
  (columns : list string) (row : Pd.Series V)
  (vp : V) (lsv lsl lsu tv tl tu sv sl su : option V) :
  Pd.get row "input_period" = Some vp ->
  _get_val_limits row columns "ls" = inr (lsv, lsl, lsu) ->
  _get_val_limits row columns "t" = inr (tv, tl, tu) ->
  _get_val_limits row columns "snr" = inr (sv, sl, su) ->
  let c := call args vp lsv lsl lsu tv tl tu sv sl su "match" in
  try_row args df columns row
  = (r_match <~
       Untyped.result (Untyped.run (selected args) df (with_mode c Match)) ;;
     r_alias <~
       Untyped.result (Untyped.run (selected args) df (with_mode c Alias)) ;;
     r_recovery <~
       Untyped.result (Untyped.run (selected args) df (with_mode c Recovery)) ;;
     inr (r_match, r_alias, r_recovery)).
Proof.
  intros Hp Hls Ht Hs c. unfold try_row. rewrite Hp, Hls, Ht, Hs.
  cbn [try_].
  destruct (or_default_fall_back lsv lsl lsu (Cli.ls_lower_limit args)
              (Cli.ls_upper_limit args)) as [Hl1 Hl2].
  destruct (or_default_fall_back tv tl tu (Cli.t_lower_limit args)
              (Cli.t_upper_limit args)) as [Ht1 Ht2].
  destruct (or_default_fall_back sv sl su (Cli.snr_lower_limit args)
              (Cli.snr_upper_limit args)) as [Hs1 Hs2].
  destruct (fall_back lsv lsl lsu _ _) as [lsl' lsu'].
  destruct (fall_back tv tl tu _ _) as [tl' tu'].
  destruct (fall_back sv sl su _ _) as [sl' su'].
  cbn [fst snd] in *. unfold call, selected. rewrite Hl1, Hl2, Ht1, Ht2, Hs1, Hs2.
  destruct (String.eqb (Cli.function args) "reliability"); reflexivity.
Qed.

Lemma three_alike (est : Estimator) (df : DataFrame F) (c : Args V)
  (r1 r2 r3 : option F) :
  (r_match <~ Untyped.result (Untyped.run est df (with_mode c Match)) ;;
   r_alias <~ Untyped.result (Untyped.run est df (with_mode c Alias)) ;;
   r_recovery <~ Untyped.result (Untyped.run est df (with_mode c Recovery)) ;;
   inr (r_match, r_alias, r_recovery)) = inr (r1, r2, r3) ->
  (r1 = None /\ r2 = None /\ r3 = None) \/
  (exists x y z, r1 = Some x /\ r2 = Some y /\ r3 = Some z).
Proof.
  pose proof (untyped_modes est df c Alias) as Ha.
  pose proof (untyped_modes est df c Recovery) as Hr.
  destruct (Untyped.result (Untyped.run est df (with_mode c Match)))
    as [e|m1]; [discriminate|].
  destruct (Untyped.result (Untyped.run est df (with_mode c Alias)))
    as [e|m2]; [discriminate|].
  destruct (Untyped.result (Untyped.run est df (with_mode c Recovery)))
    as [e|m3]; [discriminate|].
  cbn [try_]. intros [= <- <- <-].
  destruct m1, m2, m3; cbn in Ha, Hr; try discriminate;
    [right; now repeat eexists|left; auto].
Qed.

Lemma try_row_all_or_nothing (args : Cli.Namespace F) (df : DataFrame F)
  (columns : list string) (row : Pd.Series V) (r1 r2 r3 : option F) :
  try_row args df columns row = inr (r1, r2, r3) ->
  (r1 = None /\ r2 = None /\ r3 = None) \/
  (exists x y z, r1 = Some x /\ r2 = Some y /\ r3 = Some z).
Proof.
  destruct (Pd.get row "input_period") as [vp|] eqn:Hp.
  2:{ unfold try_row. rewrite Hp. discriminate. }
  destruct (_get_val_limits row columns "ls") as [e|[[lsv lsl] lsu]] eqn:Hls.
  1:{ unfold try_row. rewrite Hp, Hls. discriminate. }
  destruct (_get_val_limits row columns "t") as [e|[[tv tl] tu]] eqn:Ht.
  1:{ unfold try_row. rewrite Hp, Hls, Ht. cbn [try_].
      destruct (fall_back _ _ _ _ _). discriminate. }
  destruct (_get_val_limits row columns "snr") as [e|[[sv sl] su]] eqn:Hs.
  1:{ unfold try_row. rewrite Hp, Hls, Ht, Hs. cbn [try_].
      destruct (fall_back _ _ _ _ _). destruct (fall_back _ _ _ _ _).
      discriminate. }
  rewrite (try_row_calls args df columns row vp _ _ _ _ _ _ _ _ _ Hp Hls Ht Hs).
  apply three_alike.
Qed.

Lemma loop_lists (args : Cli.Namespace F) (df : DataFrame F)
  (columns : list string) (items : list (nat * Pd.Series V)) (init : Lists) :
  fold_left (loop_body args df columns) items init
  = mkLists
      (match_list init
       ++ map (fun it => fst (fst (row_values args df columns (snd it)))) items)
      (alias_list init
       ++ map (fun it => snd (fst (row_values args df columns (snd it)))) items)
      (recovery_list init
       ++ map (fun it => snd (row_values args df columns (snd it))) items)
      (skipped init ++ flat_map (row_skipped args df columns) items).
Proof.
  revert init. induction items as [|[idx row] items IH]; intros init.
  - cbn. rewrite !app_nil_r. now destruct init.
  - cbn [fold_left]. rewrite IH. unfold loop_body at 1 2 3 4.
    unfold row_values at 4 5 6, row_skipped at 2. cbn [snd fst map flat_map].
    destruct (try_row args df columns row) as [e|[[r1 r2] r3]];
      cbn [match_list alias_list recovery_list skipped fst snd app];
      now rewrite <- !app_assoc.
Qed.

End DriverLemmas.

Section BatchLemmas.
Context {V F : Type} `{PyValue V F}.

Lemma combine_seq_In {A} (l : list A) (s i : nat) (x : A) :
  In (i, x) (combine (seq s (List.length l)) l) ->
  s <= i /\ nth_error l (i - s) = Some x.
Proof.
  revert s. induction l as [|y l IH]; intros s; cbn; [contradiction|].
  intros [[= <- <-]|Hin].
  - rewrite Nat.sub_diag. auto.
  - apply IH in Hin as [Hle Hnth]. split; [lia|].
    replace (i - s) with (S (i - S s)) by lia. exact Hnth.
Qed.

Lemma combine_seq_nth {A} (l : list A) (s i : nat) (x : A) :
  nth_error l i = Some x ->
  nth_error (combine (seq s (List.length l)) l) i = Some (s + i, x).
Proof.
  revert s i. induction l as [|y l IH]; intros s i; [now destruct i|].
  destruct i as [|i]; cbn.
  - intros [= <-]. now rewrite Nat.add_0_r.
  - intros Hi. rewrite (IH (S s) i Hi). f_equal. f_equal. lia.
Qed.

Lemma iterrows_length (batch_df : Pd.Frame V) :
  List.length (Pd.iterrows batch_df) = List.length (Pd.rows batch_df).
Proof.
  unfold Pd.iterrows. rewrite length_combine, length_seq, length_map. lia.
Qed.

Lemma iterrows_nth (batch_df : Pd.Frame V) (i : nat) :
  i < List.length (Pd.rows batch_df) ->
  exists cells,
    nth_error (Pd.rows batch_df) i = Some cells /\
    nth_error (Pd.iterrows batch_df) i
    = Some (i, combine (Pd.columns batch_df) cells).
Proof.
  intros Hi. destruct (nth_error (Pd.rows batch_df) i) as [cells|] eqn:Hc.
  2:{ apply nth_error_None in Hc. lia. }
  exists cells. split; [reflexivity|]. unfold Pd.iterrows.
  rewrite <- (length_map (combine (Pd.columns batch_df))).
  apply (combine_seq_nth _ 0 i). now apply map_nth_error.
Qed.

Lemma iterrows_In (batch_df : Pd.Frame V) (i : nat) (row : Pd.Series V) :
  In (i, row) (Pd.iterrows batch_df) ->
  nth_error (Pd.iterrows batch_df) i = Some (i, row).
Proof.
  unfold Pd.iterrows.
  rewrite <- (length_map (combine (Pd.columns batch_df)) (Pd.rows batch_df)).
  intros Hin. apply combine_seq_In in Hin as [_ Hnth].
  rewrite Nat.sub_0_r in Hnth. now apply (combine_seq_nth _ 0 i).
Qed.

End BatchLemmas.

Section RowLemmas.
Context {V F : Type} `{PyValue V F}.

Lemma get_combine (columns : list string) (cells : list V) (label : string) :
  List.length cells = List.length columns ->
  Pd.get (combine columns cells) label
  = match Pd.get_loc label columns with
    | Some i => nth_error cells i
    | None => None
    end.
Proof.
  intros Hlen. unfold Pd.get. rewrite getitem_combine by assumption.
  destruct (Pd.get_loc label columns) as [i|]; [|reflexivity].
  now destruct (nth_error cells i).
Qed.

Lemma get_val_limits_val (columns : list string) (cells : list V)
  (param_name : string) :
  Pd.distinct columns = true ->
  List.length cells = List.length columns ->
  exists lo up,
    _get_val_limits (combine columns cells) columns param_name
    = inr (not_na (Pd.get (combine columns cells) param_name), lo, up).
Proof.
  intros Hd Hlen. rewrite get_val_limits_combine, get_combine by assumption.
  destruct (Pd.get_loc param_name columns); now repeat eexists.
Qed.

Lemma untyped_nan_period (est : Estimator) (df : DataFrame F) (a : Args V) :
  isna (input_period a) = true ->
  exists e, Untyped.result (Untyped.run est df a) = inl e.
Proof.
  intros Hna.
  destruct est; cbn [Untyped.run];
    unfold Untyped.calculate_reliability, Untyped.calculate_completeness;
    rewrite bind_float;
    (destruct (float_ (input_period a)) as [e|x] eqn:Hx;
     [now eexists|]);
    rewrite (float_isna _ _ Hna Hx);
    rewrite bind_float;
    (destruct (float_ (period_lower_limit a)); [now eexists|]);
    rewrite bind_float;
    (destruct (float_ (period_upper_limit a)); [now eexists|]);
    rewrite bind_lift_assert, lt_nan_r; now eexists.
Qed.

Lemma untyped_no_parameter (est : Estimator) (df : DataFrame F) (a : Args V) :
  ls a = None -> t a = None -> snr a = None ->
  exists e, Untyped.result (Untyped.run est df a) = inl e.
Proof.
  intros Hls Ht Hs.
  destruct est; cbn [Untyped.run];
    unfold Untyped.calculate_reliability, Untyped.calculate_completeness;
    rewrite Hls, Ht, Hs;
    rewrite bind_float;
    (destruct (float_ (input_period a)) as [e|x]; [now eexists|]);
    rewrite bind_float;
    (destruct (float_ (period_lower_limit a)); [now eexists|]);
    rewrite bind_float;
    (destruct (float_ (period_upper_limit a)); [now eexists|]);
    rewrite bind_lift_assert;
    (destruct ((lit_0_2 <. x) && (x <. lit_20)); [|now eexists]);
    rewrite bind_lift_assert; now eexists.
Qed.

Lemma converted_with_mode (a : Args V) (b : Args F) (m : Mode) :
  converted a b -> converted (with_mode a m) (with_mode b m).
Proof.
  unfold converted. cbn [with_mode input_period period_lower_limit
    period_upper_limit ls ls_lower_limit ls_upper_limit t t_lower_limit
    t_upper_limit snr snr_lower_limit snr_upper_limit mode]. tauto.
Qed.

Lemma result_lift {A} (m : M F A) :
  Untyped.result (Untyped.lift m) = propagate m.
Proof. reflexivity. Qed.

End RowLemmas.

(** * The properties *)

(** ** The ratios the estimators return *)

(** C1: for a valid query, [calculate_completeness] filters the catalog by
    the period axis only to get [all_in_period]; it returns [None] exactly
    when [all_in_period] has fewer than 3 rows, and otherwise
    [|matched| / |all_in_period|], where [matched] is the status-classified
    part of the auxiliary-filtered rows: the denominator is the period-only
    population. *)
Theorem completeness_period_denominator {F : Type} `{PyFloat F}
  (df : DataFrame F) (a : Args F) (m : Mode) :
  valid_query a = true ->
  mode a = mode_name m ->
  let all_in_period := filter (period_mask a) df in
  let boxed := filter (aux_mask a) all_in_period in
  let matched := filter (status_mask m) boxed in
  (outcome (calculate_completeness df a) = inr None
     <-> List.length all_in_period < 3) /\
  (3 <= List.length all_in_period ->
     outcome (calculate_completeness df a)
     = inr (Some (truediv (List.length matched) (List.length all_in_period)))).
Proof.
  intros Hv Hm all_in_period boxed matched.
  assert (Hp : parse_mode (mode a) = Some m)
    by (rewrite Hm; apply parse_mode_name).
  rewrite (completeness_run df a m Hv Hp). unfold outcome. cbn [snd].
  rewrite after_snr_aux. fold all_in_period boxed matched.
  unfold after_period. fold all_in_period. unfold ratio_or_None.
  destruct (Nat.ltb_spec (List.length all_in_period) 3) as [Hlt|Hge].
  - split; [tauto|lia].
  - split; [|reflexivity]. split; [discriminate|lia].
Qed.

(** On the concrete catalog with the power window (0.03, 0.03): four rows
    are in the period window, three of them in the power window, two of
    those are matches; completeness is 2/4, not 2/3. *)
Lemma completeness_period_denominator_witness :
  outcome (calculate_completeness Scenario.catalog Scenario.narrow)
  = inr (Some 0.5%float).
Proof.
  assert (Hv : valid_query Scenario.narrow = true)
    by (vm_compute; reflexivity).
  destruct (completeness_period_denominator Scenario.catalog
              Scenario.narrow Match Hv eq_refl) as [_ Hratio].
  rewrite Hratio; [vm_compute; reflexivity|].
  vm_compute. lia.
Defined.

(** C2: for a valid query, [calculate_reliability] filters the catalog by
    the period axis and every supplied auxiliary axis to get [boxed]; it
    returns [None] exactly when [boxed] has fewer than 3 rows (2 rows give
    [None], 3 rows give a ratio), and otherwise [|matched| / |boxed|] with
    [matched] the rows of [boxed] the mode's status predicate selects. *)
Theorem reliability_box_denominator {F : Type} `{PyFloat F}
  (df : DataFrame F) (a : Args F) (m : Mode) :
  valid_query a = true ->
  mode a = mode_name m ->
  let boxed := filter (box_mask a) df in
  let matched := filter (status_mask m) boxed in
  (outcome (calculate_reliability df a) = inr None
     <-> List.length boxed < 3) /\
  (3 <= List.length boxed ->
     outcome (calculate_reliability df a)
     = inr (Some (truediv (List.length matched) (List.length boxed)))) /\
  (List.length boxed = 2 ->
     outcome (calculate_reliability df a) = inr None) /\
  (List.length boxed = 3 ->
     outcome (calculate_reliability df a)
     = inr (Some (truediv (List.length matched) 3))).
Proof.
  intros Hv Hm boxed matched.
  assert (Hp : parse_mode (mode a) = Some m)
    by (rewrite Hm; apply parse_mode_name).
  rewrite (reliability_run df a m Hv Hp). unfold outcome. cbn [snd].
  rewrite after_snr_box. fold boxed matched. unfold ratio_or_None.
  destruct (Nat.ltb_spec (List.length boxed) 3) as [Hlt|Hge].
  - repeat split; try tauto; lia.
  - repeat split; try discriminate; try lia; try reflexivity.
    intros ->. reflexivity.
Qed.

(** On the same catalog and query the box has exactly 3 rows, and
    reliability is 2/3. *)
Lemma reliability_box_denominator_witness :
  outcome (calculate_reliability Scenario.catalog Scenario.narrow)
  = inr (Some (2 / 3)%float).
Proof.
  assert (Hv : valid_query Scenario.narrow = true)
    by (vm_compute; reflexivity).
  destruct (reliability_box_denominator Scenario.catalog
              Scenario.narrow Match Hv eq_refl) as (_ & _ & _ & Hthree).
  rewrite Hthree; vm_compute; reflexivity.
Defined.

(** ** Validation *)

(** C3, as the code has it: an estimator raises exactly when one of the
    five validation checks fails; it then raises the first failing one,
    with a message that names the offending field, before the selection on
    the axis it guards: [InvalidPeriod], [NoAuxiliaryParameter] and
    [InvalidMode] before any selection, [InvalidPower] after the period
    selection only, [InvalidSNR] after the period selection and the power
    and magnitude selections of the supplied axes. *)
Theorem validation_failure_order {F : Type} `{PyFloat F}
  (est : Estimator) (df : DataFrame F) (a : Args F) :
  (forall e, outcome (run est df a) = inl e ->
     exists k, first_failure a = Some k) /\
  (forall k, first_failure a = Some k ->
     outcome (run est df a) = inl (AssertionError (error_message est k)) /\
     contains (field_named k) (error_message est k) = true /\
     trace (run est df a) = selections_before k a df /\
     (k = InvalidPeriod \/ k = NoAuxiliaryParameter \/ k = InvalidMode ->
      trace (run est df a) = []) /\
     (k = InvalidPower ->
      trace (run est df a)
      = [Loc Df.c_prot_rh20 df (filter (period_mask a) df)]) /\
     (k = InvalidSNR ->
      forall src kept,
        In (Loc Df.c_snr src kept) (trace (run est df a)) -> False)).
Proof.
  split.
  - intros e He.
    destruct (run_cases est df a) as [(k & Hk & _)|(m & _ & _ & Hrun)].
    + now exists k.
    + rewrite Hrun in He. discriminate He.
  - intros k Hk. rewrite (run_failure est df a k Hk).
    unfold outcome, trace. cbn [fst snd].
    split; [reflexivity|]. split; [apply messages_name_fields|].
    split; [reflexivity|]. split; [|split].
    + intros [->|[->| ->]]; reflexivity.
    + intros ->. reflexivity.
    + intros -> src kept. unfold selections_before, axis_events.
      destruct (ls a), (t a); cbn [app In]; intuition discriminate.
Qed.

(** C3 as stated fails: with [ls=1.5] the period selection has run when
    the power assertion raises. *)
Lemma power_raised_after_period_selection :
  ~ raised_before_filtering Reliability Scenario.catalog Scenario.bad_power.
Proof.
  unfold raised_before_filtering. intros Hclaim.
  specialize (Hclaim "Lomb-Scargle power must be between 0 and 1").
  assert (Hraise : outcome (run Reliability Scenario.catalog Scenario.bad_power)
            = inl (AssertionError "Lomb-Scargle power must be between 0 and 1"))
    by (vm_compute; reflexivity).
  apply Hclaim in Hraise. vm_compute in Hraise. discriminate Hraise.
Qed.

(** With [t=10, snr=-1] the period and magnitude selections have run when
    the snr assertion raises. *)
Lemma validation_failure_order_witness :
  trace (run Completeness Scenario.catalog Scenario.bad_snr)
  = [Loc Df.c_prot_rh20 Scenario.catalog
       (filter (period_mask Scenario.bad_snr) Scenario.catalog);
     Loc Df.c_Tmag (filter (period_mask Scenario.bad_snr) Scenario.catalog)
       (filter (magnitude_mask Scenario.bad_snr)
          (filter (period_mask Scenario.bad_snr) Scenario.catalog))].
Proof.
  destruct (validation_failure_order Completeness Scenario.catalog
              Scenario.bad_snr) as [_ Hfail].
  destruct (Hfail InvalidSNR) as (_ & _ & Htrace & _).
  - vm_compute. reflexivity.
  - rewrite Htrace. vm_compute. reflexivity.
Defined.

(** ** What each selection keeps *)

(** C4: on every numeric axis both estimators keep exactly the rows whose
    value lies strictly between [center - lower] and [center + upper];
    a row whose value is one of the two bounds, or is missing (NaN), is
    not kept.  On a valid query the selection runs on every supplied axis;
    and every selection an estimator performs on a numeric column, on a
    valid query or before an assertion raises, is the one of the window of
    that axis. *)
Theorem window_is_open_interval {F : Type} `{PyFloat F}
  (est : Estimator) (df : DataFrame F) (a : Args F) :
  (valid_query a = true ->
   forall ax center lower upper,
     axis_window ax a = Some (center, lower, upper) ->
     exists src,
       In (Loc (axis_column ax) src
             (filter (fun r => in_window center lower upper (axis_value ax r))
                src))
          (trace (run est df a))) /\
  (forall ax src kept,
     In (Loc (axis_column ax) src kept) (trace (run est df a)) ->
     exists center lower upper,
       axis_window ax a = Some (center, lower, upper) /\
       kept
       = filter (fun r => in_window center lower upper (axis_value ax r)) src /\
       (forall r, In r kept <->
          In r src /\
          (axis_value ax r >. center -. lower) = true /\
          (axis_value ax r <. center +. upper) = true) /\
       (forall r, In r kept ->
          axis_value ax r <> center -. lower /\
          axis_value ax r <> center +. upper /\
          axis_value ax r <> nan)).
Proof.
  split.
  { intros Hv ax c l u Hw. now apply supplied_axis_is_selected. }
  intros ax src kept Hin.
  apply trace_events in Hin as [Hin|(m & s & _ & Heq)].
  2:{ destruct ax; discriminate Heq. }
  apply axis_trace_window in Hin as (c & l & u & Hw & ->).
  exists c, l, u. split; [exact Hw|]. split; [reflexivity|].
  assert (Hkept : forall r,
    In r (filter (fun r => in_window c l u (axis_value ax r)) src) <->
    In r src /\ (axis_value ax r >. c -. l) = true /\
    (axis_value ax r <. c +. u) = true).
  { intros r. rewrite filter_In, in_window_true. reflexivity. }
  split; [exact Hkept|].
  intros r Hr. apply filter_In in Hr as [_ Hr].
  repeat split; intros Heq; rewrite Heq in Hr.
  - now rewrite in_window_lower_bound in Hr.
  - now rewrite in_window_upper_bound in Hr.
  - now rewrite in_window_nan in Hr.
Qed.

(** The scenario query: [calculate_reliability] selects on the power
    column, on the rows of the period window, and keeps the rows with a
    power strictly between 0.1 - 0.05 and 0.1 + 0.05. *)
Lemma window_is_open_interval_witness :
  exists src,
    In (Loc Df.c_power src
          (filter (fun r => in_window 0.1%float 0.05%float 0.05%float
                              (Df.power r)) src))
       (trace (calculate_reliability Scenario.catalog (Scenario.query "match"))).
Proof.
  assert (Hv : valid_query (Scenario.query "match") = true)
    by (vm_compute; reflexivity).
  destruct (window_is_open_interval Reliability Scenario.catalog
              (Scenario.query "match")) as [Hsel _].
  exact (Hsel Hv Power _ _ _ eq_refl).
Defined.



(** ** The range of the result *)

(** C6: on a valid query both estimators return [None] or a ratio between
    0 and 1: not negative, not above 1, not a NaN.  A denominator of fewer
    than 3 rows gives [None], never an exception. *)
Theorem ratio_in_unit_interval {F : Type} `{PyFloatArith F}
  (est : Estimator) (df : DataFrame F)
  (a : Args F) :
  valid_query a = true ->
  (List.length (denominator est df a) < 3 ->
   outcome (run est df a) = inr None) /\
  (outcome (run est df a) = inr None \/
   exists q,
     outcome (run est df a) = inr (Some q) /\
     lit_0 <=. q = true /\ q <=. lit_1 = true /\
     q <. lit_0 = false /\ q >. lit_1 = false /\ q <> nan).
Proof.
  intros Hv. destruct (valid_query_mode a Hv) as [m Hm].
  rewrite (run_outcome est df a m Hv Hm). unfold ratio_or_None.
  pose proof (numerator_le_denominator est df a m Hv) as Hle.
  destruct (Nat.ltb_spec (List.length (denominator est df a)) 3) as [Hlt|Hge].
  - split; [reflexivity|now left].
  - split; [lia|right].
    destruct (truediv_bounds _ _ Hle ltac:(lia)) as [Hlow Hhigh].
    eexists. split; [reflexivity|]. split; [exact Hlow|]. split; [exact Hhigh|].
    split; [now apply le_not_gt|]. split; [now apply le_not_gt|].
    intros Hnan. rewrite Hnan in Hlow. now rewrite le_nan_r in Hlow.
Qed.

Lemma ratio_in_unit_interval_witness :
  (List.length (denominator Completeness Scenario.catalog
                  Scenario.narrow) < 3 ->
   outcome (run Completeness Scenario.catalog Scenario.narrow)
   = inr None) /\
  (outcome (run Completeness Scenario.catalog Scenario.narrow)
   = inr None \/
   exists q,
     outcome (run Completeness Scenario.catalog Scenario.narrow)
     = inr (Some q) /\
     lit_0 <=. q = true /\ q <=. lit_1 = true /\
     q <. lit_0 = false /\ q >. lit_1 = false /\ q <> nan).
Proof.
  apply (ratio_in_unit_interval Completeness Scenario.catalog
           Scenario.narrow).
  vm_compute. reflexivity.
Defined.

(** ** Widening windows *)

(** C7: on a fixed catalog, increasing window limits of a valid query only
    adds rows to the frame each estimator divides by: every row stays, and
    the row count does not decrease. *)
Theorem widening_adds_rows {F : Type} `{PyFloatArith F}
  (est : Estimator) (df : DataFrame F)
  (a a' : Args F) :
  valid_query a = true ->
  widens a a' ->
  (forall r, In r (denominator est df a) -> In r (denominator est df a')) /\
  List.length (denominator est df a) <= List.length (denominator est df a').
Proof.
  intros Hv Hw.
  assert (Hv' : valid_query a' = true) by now rewrite (widens_valid a a').
  destruct est.
  - rewrite !denominator_reliability by assumption. split.
    + apply filter_incl_mono. intros r. now apply box_mask_mono.
    + apply filter_length_mono. intros r. now apply box_mask_mono.
  - rewrite !denominator_completeness by assumption. split.
    + apply filter_incl_mono. intros r. now apply period_mask_mono.
    + apply filter_length_mono. intros r. now apply period_mask_mono.
Qed.

Lemma widening_adds_rows_witness :
  (forall r,
     In r (denominator Reliability Scenario.catalog Scenario.narrow) ->
     In r (denominator Reliability Scenario.catalog Scenario.wider))
  /\
  List.length (denominator Reliability Scenario.catalog Scenario.narrow)
  <= List.length (denominator Reliability Scenario.catalog Scenario.wider).
Proof.
  apply (widening_adds_rows Reliability Scenario.catalog
           Scenario.narrow Scenario.wider).
  - vm_compute. reflexivity.
  - unfold widens, grows. repeat split;
      first [left; reflexivity | right; vm_compute; reflexivity].
Defined.

(** ** The five-row scenario *)

Section FiveRowsScenario.
Local Open Scope float_scope.

(** C8: five rows with periods 8.5, 9.0, 9.4, 9.6 and 15, every status
    "match" but one "not_recovered" among the first four, power values
    that put the first four rows in the window (0.05, 0.05) around 0.1:
    with [input_period=9, ls=0.1], [calculate_reliability] returns 0.75
    in mode 'match', 0.75 in mode 'recovery' and 0.0 in mode 'alias'. *)
Theorem scenario_reliability (p0 p1 p2 p3 p4 : float) (k : nat) :
  (k < 4)%nat ->
  in_window 0.1 0.05 0.05 p0 = true ->
  in_window 0.1 0.05 0.05 p1 = true ->
  in_window 0.1 0.05 0.05 p2 = true ->
  in_window 0.1 0.05 0.05 p3 = true ->
  let catalog := Scenario.catalog_with p0 p1 p2 p3 p4 k in
  outcome (calculate_reliability catalog (Scenario.query "match"))
    = inr (Some 0.75) /\
  outcome (calculate_reliability catalog (Scenario.query "recovery"))
    = inr (Some 0.75) /\
  outcome (calculate_reliability catalog (Scenario.query "alias"))
    = inr (Some 0).
Proof.
  intros Hk H0 H1 H2 H3 catalog.
  assert (Hrun : forall m,
    outcome (calculate_reliability catalog (Scenario.query (mode_name m)))
    = inr (ratio_or_None (filter (status_mask m) (firstn 4 catalog))
             (firstn 4 catalog))).
  { intros m.
    assert (Hv : valid_query (Scenario.query (mode_name m)) = true)
      by (destruct m; vm_compute; reflexivity).
    rewrite (reliability_run catalog _ m Hv (parse_mode_name m)).
    unfold outcome. cbn [snd]. rewrite after_snr_box.
    unfold catalog. now rewrite scenario_box. }
  pose proof (Hrun Match) as Hmatch.
  pose proof (Hrun Recovery) as Hrecovery.
  pose proof (Hrun Alias) as Halias.
  cbn [mode_name] in Hmatch, Hrecovery, Halias.
  rewrite Hmatch, Hrecovery, Halias. unfold catalog.
  destruct k as [|[|[|[|k]]]]; [| | | |lia];
    repeat split; vm_compute; reflexivity.
Qed.

End FiveRowsScenario.

Lemma scenario_reliability_witness :
  outcome (calculate_reliability Scenario.catalog (Scenario.query "match"))
    = inr (Some 0.75%float) /\
  outcome (calculate_reliability Scenario.catalog (Scenario.query "recovery"))
    = inr (Some 0.75%float) /\
  outcome (calculate_reliability Scenario.catalog (Scenario.query "alias"))
    = inr (Some 0%float).
Proof.
  apply (scenario_reliability 0.08 0.10 0.12 0.14 0.10 2);
    first [lia | vm_compute; reflexivity].
Defined.

(** ** Reliability against completeness *)

(** C9: for one valid query on one catalog, the box [calculate_reliability]
    divides by lies within the period window [calculate_completeness]
    divides by; so when [calculate_completeness] returns [None],
    [calculate_reliability] returns [None] too. *)
Theorem reliability_box_within_period_window {F : Type} `{PyFloat F}
  (df : DataFrame F) (a : Args F) :
  valid_query a = true ->
  (forall r, In r (denominator Reliability df a) ->
             In r (denominator Completeness df a)) /\
  List.length (denominator Reliability df a)
    <= List.length (denominator Completeness df a) /\
  (outcome (calculate_completeness df a) = inr None ->
   outcome (calculate_reliability df a) = inr None).
Proof.
  intros Hv. destruct (valid_query_mode a Hv) as [m Hm].
  pose proof (run_outcome Reliability df a m Hv Hm) as Hrel.
  pose proof (run_outcome Completeness df a m Hv Hm) as Hcomp.
  cbn [run] in Hrel, Hcomp. rewrite Hrel, Hcomp.
  rewrite denominator_reliability, denominator_completeness by assumption.
  rewrite box_in_period.
  pose proof (filter_length_le (aux_mask a) (filter (period_mask a) df)) as Hle.
  split; [|split].
  - intros r Hr. now apply filter_In in Hr.
  - exact Hle.
  - unfold ratio_or_None.
    destruct (Nat.ltb_spec (List.length (filter (period_mask a) df)) 3);
      [|discriminate].
    destruct (Nat.ltb_spec
                (List.length (filter (aux_mask a) (filter (period_mask a) df))) 3);
      [reflexivity|lia].
Qed.

Lemma reliability_box_within_period_window_witness :
  (forall r,
     In r (denominator Reliability Scenario.catalog Scenario.far_power) ->
     In r (denominator Completeness Scenario.catalog Scenario.far_power)) /\
  List.length (denominator Reliability Scenario.catalog Scenario.far_power)
    <= List.length (denominator Completeness Scenario.catalog Scenario.far_power)
  /\
  (outcome (calculate_completeness Scenario.catalog Scenario.far_power)
   = inr None ->
   outcome (calculate_reliability Scenario.catalog Scenario.far_power)
   = inr None).
Proof.
  apply (reliability_box_within_period_window Scenario.catalog
           Scenario.far_power).
  vm_compute. reflexivity.
Defined.

(** The converse does not hold: with [ls=0.5] no row is in the box, so
    reliability is [None], while four rows are in the period window and
    completeness is 0/4. *)
Example reliability_None_completeness_zero :
  outcome (calculate_reliability Scenario.catalog Scenario.far_power)
    = inr None /\
  outcome (calculate_completeness Scenario.catalog Scenario.far_power)
    = inr (Some 0%float).
Proof. split; vm_compute; reflexivity. Qed.

(** ** Window limits *)

(** C10, as the code has it: no window limit is validated, so a valid
    query stays free of exceptions whatever its eight limits are; a
    supplied axis whose window has [lower + upper <= 0] keeps no row;
    [calculate_reliability] then returns [None]; [calculate_completeness]
    returns [None] when fewer than 3 rows are in the period window, as
    when the empty window is the period window, and otherwise the ratio
    of an empty numerator to the rows of the period window. *)
Theorem limits_are_not_validated {F : Type} `{PyFloatArith F}
  (df : DataFrame F) (a : Args F) :
  valid_query a = true ->
  (forall pl pu ll lu tl tu sl su est,
     exists v,
       outcome (run est df (with_limits a pl pu ll lu tl tu sl su)) = inr v) /\
  (forall ax c l u,
     axis_window ax a = Some (c, l, u) -> empty_window l u ->
     (forall src,
        filter (fun r => in_window c l u (axis_value ax r)) src = []) /\
     outcome (calculate_reliability df a) = inr None /\
     (ax = Period -> outcome (calculate_completeness df a) = inr None) /\
     outcome (calculate_completeness df a)
     = inr (if List.length (filter (period_mask a) df) <? 3 then None
            else Some (truediv 0 (List.length (filter (period_mask a) df))))).
Proof.
  intros Hv. split.
  - intros pl pu ll lu tl tu sl su est.
    assert (Hv' : valid_query (with_limits a pl pu ll lu tl tu sl su) = true)
      by exact Hv.
    destruct (valid_query_mode _ Hv') as [m Hm].
    rewrite (run_outcome est df _ m Hv' Hm). now eexists.
  - intros ax c l u Hw He.
    destruct (valid_query_mode a Hv) as [m Hm].
    pose proof (run_outcome Reliability df a m Hv Hm) as Hrel.
    pose proof (run_outcome Completeness df a m Hv Hm) as Hcomp.
    cbn [run] in Hrel, Hcomp. rewrite Hrel, Hcomp.
    rewrite denominator_reliability, denominator_completeness by assumption.
    rewrite (empty_window_empty_box ax a df c l u Hw He).
    split; [|split; [|split]].
    + intros src. apply filter_none. intros r.
      now apply empty_window_excludes.
    + reflexivity.
    + intros ->. cbn [axis_window] in Hw. injection Hw as <- <- <-.
      assert (Hnone : filter (period_mask a) df = []).
      { apply filter_none. intros r. now apply empty_window_excludes. }
      now rewrite Hnone.
    + unfold ratio_or_None. reflexivity.
Qed.

(** C10 as stated fails for completeness: a power window with both limits 0
    is empty, yet four rows are in the period window and the result is the
    ratio 0/4, not [None]. *)
Lemma empty_power_window_completeness_zero :
  ~ empty_window_gives_None Completeness Scenario.catalog Scenario.zero_window.
Proof.
  unfold empty_window_gives_None. intros Hclaim.
  specialize (Hclaim Power 0.1%float 0%float 0%float eq_refl).
  assert (Hempty : empty_window 0%float 0%float)
    by (vm_compute; reflexivity).
  apply Hclaim in Hempty. vm_compute in Hempty. discriminate Hempty.
Qed.

(** A power window with limits -0.05 and 0.02 is accepted and keeps no
    row: reliability is [None], and completeness is 0 over the four rows
    of the period window. *)
Lemma limits_are_not_validated_witness :
  outcome (calculate_reliability Scenario.catalog
             Scenario.negative_window) = inr None /\
  outcome (calculate_completeness Scenario.catalog
             Scenario.negative_window)
  = inr (Some 0%float).
Proof.
  assert (Hv : valid_query Scenario.negative_window = true)
    by (vm_compute; reflexivity).
  destruct (limits_are_not_validated Scenario.catalog
              Scenario.negative_window Hv) as [_ Hempty].
  destruct (Hempty Power 0.1%float (-0.05)%float 0.02%float eq_refl)
    as (_ & Hrel & _ & Hcomp).
  - vm_compute. reflexivity.
  - split; [exact Hrel|]. rewrite Hcomp. vm_compute. reflexivity.
Defined.


(** * Further properties *)

(** ** How the ratios compare *)

(** X1: on binary64 floats, whenever both estimators return a number for
    the same catalog and query, completeness is at most reliability: the
    two count the same rows and completeness divides by the larger
    frame. *)
Theorem completeness_at_most_reliability (df : DataFrame float)
  (a : Args float) (qc qr : float) :
  outcome (calculate_completeness df a) = inr (Some qc) ->
  outcome (calculate_reliability df a) = inr (Some qr) ->
  qc <=. qr = true.
Proof.
  intros Hc Hr.
  pose proof (returns_is_valid Reliability df a _ Hr) as Hv.
  destruct (valid_query_mode a Hv) as [m Hm].
  pose proof (run_outcome_lengths Reliability df a m Hv Hm) as Hrel.
  pose proof (run_outcome_lengths Completeness df a m Hv Hm) as Hcomp.
  cbn [run] in Hrel, Hcomp. cbv zeta in Hrel, Hcomp.
  rewrite Hrel in Hr. rewrite Hcomp in Hc.
  injection Hr as Hr. injection Hc as Hc.
  pose proof (filter_length_le (status_mask m) (filter (box_mask a) df)) as Hk.
  assert (Hbp : List.length (filter (box_mask a) df)
                <= List.length (filter (period_mask a) df)).
  { rewrite box_in_period. apply filter_length_le. }
  refine (ratio_le _ _ _ _ qc qr _ _ _ Hc Hr); [lia|lia|].
  apply Nat.mul_le_mono_l. exact Hbp.
Qed.

Lemma completeness_at_most_reliability_witness :
  0.5%float <=. (2 / 3)%float = true.
Proof.
  apply (completeness_at_most_reliability Scenario.catalog Scenario.narrow);
    vm_compute; reflexivity.
Defined.

(** X2: on binary64 floats, for one catalog and one query run in the three
    modes by the same estimator, the ratio of mode 'recovery' is at least
    the ratio of mode 'match' and at least the ratio of mode 'alias'. *)
Theorem recovery_is_largest (est : Estimator) (df : DataFrame float)
  (a : Args float) (q_match q_alias q_recovery : float) :
  outcome (run est df (with_mode a Match)) = inr (Some q_match) ->
  outcome (run est df (with_mode a Alias)) = inr (Some q_alias) ->
  outcome (run est df (with_mode a Recovery)) = inr (Some q_recovery) ->
  q_match <=. q_recovery = true /\ q_alias <=. q_recovery = true.
Proof.
  intros Hm Ha Hr.
  pose proof (returns_is_valid est df _ _ Hm) as Hvm.
  pose proof (returns_is_valid est df _ _ Ha) as Hva.
  pose proof (returns_is_valid est df _ _ Hr) as Hvr.
  rewrite (run_outcome_lengths est df _ Match Hvm (parse_mode_name _)) in Hm.
  rewrite (run_outcome_lengths est df _ Alias Hva (parse_mode_name _)) in Ha.
  rewrite (run_outcome_lengths est df _ Recovery Hvr (parse_mode_name _)) in Hr.
  cbv zeta in Hm, Ha, Hr.
  change (box_mask (with_mode a Match)) with (box_mask a) in Hm.
  change (box_mask (with_mode a Alias)) with (box_mask a) in Ha.
  change (box_mask (with_mode a Recovery)) with (box_mask a) in Hr.
  change (period_mask (with_mode a Match)) with (period_mask a) in Hm.
  change (period_mask (with_mode a Alias)) with (period_mask a) in Ha.
  change (period_mask (with_mode a Recovery)) with (period_mask a) in Hr.
  injection Hm as Hm. injection Ha as Ha. injection Hr as Hr.
  pose proof (status_counts (filter (box_mask a) df)) as Hcount.
  set (n := List.length (filter match est with
                                | Reliability => box_mask a
                                | Completeness => period_mask a
                                end df)) in *.
  assert (Hn : List.length (filter (box_mask a) df) <= n).
  { unfold n. destruct est; [lia|]. rewrite box_in_period.
    apply filter_length_le. }
  pose proof (filter_length_le (status_mask Recovery) (filter (box_mask a) df))
    as Hrec.
  split.
  - refine (ratio_le _ _ _ _ q_match q_recovery _ _ _ Hm Hr); [lia|lia|].
    apply Nat.mul_le_mono_r. lia.
  - refine (ratio_le _ _ _ _ q_alias q_recovery _ _ _ Ha Hr); [lia|lia|].
    apply Nat.mul_le_mono_r. lia.
Qed.

Lemma recovery_is_largest_witness :
  0.75%float <=. 0.75%float = true /\ 0%float <=. 0.75%float = true.
Proof.
  apply (recovery_is_largest Reliability Scenario.catalog
           (Scenario.query "match"));
    vm_compute; reflexivity.
Defined.

(** X3: the three modes of a valid query divide by the same frame, so they
    return [None] together; otherwise each returns its count over the size
    of that frame, and the count of mode 'match' plus the count of mode
    'alias' is at most the count of mode 'recovery', which is at most the
    size of the frame. *)
Theorem modes_share_denominator {F : Type} `{PyFloat F}
  (est : Estimator) (df : DataFrame F) (a : Args F) :
  valid_query a = true ->
  let boxed := filter (box_mask a) df in
  let count := fun m => List.length (filter (status_mask m) boxed) in
  let n := List.length (denominator est df a) in
  (forall m,
     outcome (run est df (with_mode a m))
     = inr (if n <? 3 then None else Some (truediv (count m) n))) /\
  count Match + count Alias <= count Recovery /\
  count Recovery <= n.
Proof.
  intros Hv boxed count n. split; [|split].
  - intros m.
    rewrite (run_outcome est df (with_mode a m) m (with_mode_valid a m Hv)
               (parse_mode_name m)).
    rewrite with_mode_denominator by assumption. reflexivity.
  - apply status_counts.
  - apply (numerator_le_denominator est df a Recovery Hv).
Qed.

Lemma modes_share_denominator_witness :
  outcome (run Reliability Scenario.catalog (with_mode Scenario.narrow Recovery))
  = inr (Some (2 / 3)%float).
Proof.
  assert (Hv : valid_query Scenario.narrow = true) by (vm_compute; reflexivity).
  destruct (modes_share_denominator Reliability Scenario.catalog
              Scenario.narrow Hv) as (Hrun & _).
  rewrite Hrun. vm_compute. reflexivity.
Defined.

(** X4: when every row of the period window lies in the windows of the
    supplied auxiliary axes, [calculate_reliability] and
    [calculate_completeness] return the same value. *)
Theorem estimators_agree_on_full_windows {F : Type} `{PyFloat F}
  (df : DataFrame F) (a : Args F) :
  valid_query a = true ->
  (forall r, In r df -> period_mask a r = true -> aux_mask a r = true) ->
  outcome (calculate_reliability df a) = outcome (calculate_completeness df a).
Proof.
  intros Hv Hall. destruct (valid_query_mode a Hv) as [m Hm].
  pose proof (run_outcome_lengths Reliability df a m Hv Hm) as Hrel.
  pose proof (run_outcome_lengths Completeness df a m Hv Hm) as Hcomp.
  cbn [run] in Hrel, Hcomp. rewrite Hrel, Hcomp.
  assert (Hsame : filter (box_mask a) df = filter (period_mask a) df).
  { apply filter_ext_in. intros r Hr. unfold box_mask.
    destruct (period_mask a r) eqn:Hp; [|reflexivity].
    now rewrite (Hall r Hr Hp). }
  now rewrite Hsame.
Qed.

Lemma estimators_agree_on_full_windows_witness :
  outcome (calculate_reliability Scenario.catalog (Scenario.query "match"))
  = outcome (calculate_completeness Scenario.catalog (Scenario.query "match")).
Proof.
  apply (estimators_agree_on_full_windows Scenario.catalog
           (Scenario.query "match")).
  - vm_compute. reflexivity.
  - intros r Hin. cbn [Scenario.catalog In] in Hin.
    destruct Hin as [<-|[<-|[<-|[<-|[<-|[]]]]]]; vm_compute; congruence.
Defined.

(** ** The catalog *)

(** X5: on a catalog of fewer than 3 rows, the empty catalog included, a
    valid query returns [None] from both estimators. *)
Theorem small_catalog_gives_None {F : Type} `{PyFloat F}
  (est : Estimator) (df : DataFrame F) (a : Args F) :
  valid_query a = true ->
  List.length df < 3 ->
  outcome (run est df a) = inr None.
Proof.
  intros Hv Hlen. destruct (valid_query_mode a Hv) as [m Hm].
  rewrite (run_outcome_lengths est df a m Hv Hm). cbv zeta.
  match goal with
  | |- context [List.length (filter ?f df) <? 3] =>
      pose proof (filter_length_le f df) as Hle;
      destruct (Nat.ltb_spec (List.length (filter f df)) 3); [reflexivity|lia]
  end.
Qed.

Lemma small_catalog_gives_None_witness :
  outcome (run Reliability (firstn 2 Scenario.catalog) (Scenario.query "match"))
  = inr None.
Proof.
  apply (small_catalog_gives_None Reliability (firstn 2 Scenario.catalog)
           (Scenario.query "match")).
  - vm_compute. reflexivity.
  - vm_compute. lia.
Defined.

(** X6: the result of either estimator, exceptions included, does not depend
    on the order of the rows of the catalog. *)
Theorem catalog_order_is_irrelevant {F : Type} `{PyFloat F}
  (est : Estimator) (df df' : DataFrame F) (a : Args F) :
  Permutation df df' ->
  outcome (run est df a) = outcome (run est df' a).
Proof.
  intros Hp.
  destruct (run_cases est df a) as [(k & Hk & Hrun)|(m & Hv & Hm & _)].
  - rewrite Hrun, (run_failure est df' a k Hk). reflexivity.
  - rewrite !(run_outcome_lengths est _ a m Hv Hm). cbv zeta.
    rewrite !filter_and.
    rewrite (filter_length_perm (fun r => box_mask a r && status_mask m r)
               df df' Hp).
    destruct est.
    + now rewrite (filter_length_perm (box_mask a) df df' Hp).
    + now rewrite (filter_length_perm (period_mask a) df df' Hp).
Qed.

Lemma catalog_order_is_irrelevant_witness :
  outcome (run Completeness Scenario.catalog Scenario.narrow)
  = outcome (run Completeness (rev Scenario.catalog) Scenario.narrow).
Proof.
  apply (catalog_order_is_irrelevant Completeness Scenario.catalog
           (rev Scenario.catalog) Scenario.narrow).
  apply Permutation_rev.
Defined.

(** X7: appending rows to the catalog never shrinks the frame an estimator
    divides by; a valid query that returns a ratio still returns a ratio,
    not [None], on the larger catalog. *)
Theorem growing_catalog_keeps_ratio {F : Type} `{PyFloat F}
  (est : Estimator) (df more : DataFrame F) (a : Args F) :
  valid_query a = true ->
  List.length (denominator est df a)
    <= List.length (denominator est (df ++ more) a) /\
  (forall q, outcome (run est df a) = inr (Some q) ->
     exists q', outcome (run est (df ++ more) a) = inr (Some q')).
Proof.
  intros Hv. destruct (valid_query_mode a Hv) as [m Hm].
  assert (Hden : forall d,
    List.length (denominator est d a)
    = List.length (filter (match est with
                           | Reliability => box_mask a
                           | Completeness => period_mask a
                           end) d)).
  { intros d. destruct est.
    - now rewrite denominator_reliability.
    - now rewrite denominator_completeness. }
  rewrite !Hden, !(run_outcome_lengths est _ a m Hv Hm). cbv zeta.
  rewrite !filter_app, !length_app. split; [lia|].
  intros q Hq.
  match type of Hq with
  | context [?n <? 3] => destruct (Nat.ltb_spec n 3); [discriminate|]
  end.
  match goal with
  | |- context [?n <? 3] => destruct (Nat.ltb_spec n 3); [lia|]
  end.
  now eexists.
Qed.

Lemma growing_catalog_keeps_ratio_witness :
  List.length (denominator Reliability Scenario.catalog Scenario.narrow)
  <= List.length
       (denominator Reliability (Scenario.catalog ++ Scenario.catalog)
          Scenario.narrow).
Proof.
  apply (growing_catalog_keeps_ratio Reliability Scenario.catalog
           Scenario.catalog Scenario.narrow).
  vm_compute. reflexivity.
Defined.

(** ** Arguments that are not validated *)

(** X8: a NaN in the window of a supplied axis, as center or as limit,
    raises nothing and keeps no row.  A NaN center passes validation on the
    magnitude axis only, which has no assertion.  [calculate_reliability]
    then returns [None]; [calculate_completeness] returns [None] or the
    ratio of an empty numerator. *)
Theorem nan_window_keeps_no_row (df : DataFrame float) (a : Args float)
  (ax : Axis) (c l u : float) :
  valid_query a = true ->
  axis_window ax a = Some (c, l, u) ->
  c = PrimFloat.nan \/ l = PrimFloat.nan \/ u = PrimFloat.nan ->
  (c = PrimFloat.nan -> ax = Magnitude) /\
  (forall src, filter (fun r => in_window c l u (axis_value ax r)) src = []) /\
  outcome (calculate_reliability df a) = inr None /\
  (outcome (calculate_completeness df a) = inr None \/
   outcome (calculate_completeness df a)
   = inr (Some (truediv 0 (List.length (filter (period_mask a) df))))).
Proof.
  intros Hv Hw Hnan.
  assert (Hbox : filter (box_mask a) df = []).
  { apply filter_none. intros r.
    destruct (box_mask a r) eqn:Hb; [|reflexivity].
    apply (box_mask_axis ax a r c l u Hw) in Hb.
    now rewrite nan_window_excludes in Hb. }
  destruct (valid_query_mode a Hv) as [m Hm].
  pose proof (run_outcome Reliability df a m Hv Hm) as Hrel.
  pose proof (run_outcome Completeness df a m Hv Hm) as Hcomp.
  cbn [run] in Hrel, Hcomp. rewrite Hrel, Hcomp.
  rewrite denominator_reliability, denominator_completeness by assumption.
  rewrite Hbox. split; [|split; [|split]].
  - intros ->. apply valid_query_checks in Hv as (Hp & _ & _ & Hpw & Hs).
    destruct ax; [| |reflexivity|]; exfalso; cbn [axis_window] in Hw.
    + injection Hw as Hip _ _. unfold check_period in Hp. rewrite Hip in Hp.
      cbn [lt Binary64.float64] in Hp.
      now rewrite Binary64.ltb_nan_r in Hp.
    + unfold check_power in Hpw. destruct (ls a); [|discriminate].
      injection Hw as -> _ _. cbn [lt Binary64.float64] in Hpw.
      now rewrite Binary64.ltb_nan_r in Hpw.
    + unfold check_snr in Hs. destruct (snr a); [|discriminate].
      injection Hw as -> _ _. cbn [lt Binary64.float64] in Hs.
      now rewrite Binary64.ltb_nan_r in Hs.
  - intros src. apply filter_none. intros r. now apply nan_window_excludes.
  - reflexivity.
  - unfold ratio_or_None. cbn [filter List.length].
    destruct (List.length (filter (period_mask a) df) <? 3);
      [now left|now right].
Qed.

Lemma nan_window_keeps_no_row_witness :
  outcome (calculate_reliability Scenario.catalog
             (Scenario.call 9 None (Some PrimFloat.nan) None "match"))
  = inr None.
Proof.
  set (a := Scenario.call 9 None (Some PrimFloat.nan) None "match").
  assert (Hv : valid_query a = true) by (vm_compute; reflexivity).
  destruct (nan_window_keeps_no_row Scenario.catalog a Magnitude
              PrimFloat.nan 0.5%float 0.5%float Hv eq_refl
              (or_introl eq_refl)) as (_ & _ & Hrel & _).
  exact Hrel.
Defined.

(** X9: the limits of an axis that is not supplied are never read, not even
    converted by [float(..)]: two calls that differ in such limits only
    perform the same selections and end alike, whatever the values are. *)
Theorem limits_of_absent_axis_are_ignored {V F : Type} `{PyValue V F}
  (est : Estimator) (df : DataFrame F) (a a' : Args V) :
  same_supplied a a' ->
  Untyped.run est df a = Untyped.run est df a'.
Proof. apply untyped_same_supplied. Qed.

Lemma limits_of_absent_axis_are_ignored_witness :
  Untyped.run Reliability Scenario.catalog BatchScenario.odd_limits
  = Untyped.run Reliability Scenario.catalog BatchScenario.plain_limits.
Proof.
  apply (limits_of_absent_axis_are_ignored Reliability Scenario.catalog
           BatchScenario.odd_limits BatchScenario.plain_limits).
  unfold same_supplied, same_axis. cbn.
  repeat match goal with
         | |- _ /\ _ => split
         | |- _ -> _ => intros ?
         end; first [reflexivity | congruence].
Defined.

(** ** Reading a batch row *)

(** X10: on distinct labels, no value [_get_val_limits] returns is a NaN:
    a blank cell comes back as [None].  The value is [None] exactly when
    the parameter has no column or its cell is blank. *)
Theorem get_val_limits_returns_no_nan {V F : Type} `{PyValue V F}
  (row : Pd.Series V) (columns : list string) (param_name : string)
  (val val_lower val_upper : option V) :
  Pd.distinct columns = true ->
  Pd.distinct (Pd.index row) = true ->
  _get_val_limits row columns param_name = inr (val, val_lower, val_upper) ->
  (forall v, val = Some v \/ val_lower = Some v \/ val_upper = Some v ->
             isna v = false) /\
  (val = None <->
   ~ In param_name columns \/
   exists v, Pd.getitem row param_name = inr v /\ isna v = true).
Proof.
  intros _ _ Hget. split; [now apply (get_val_limits_not_na _ _ _ _ _ _ Hget)|].
  revert Hget. unfold _get_val_limits.
  destruct (existsb (String.eqb param_name) columns) eqn:Hin; cbn [negb].
  - assert (Hcol : In param_name columns).
    { apply existsb_exists in Hin as (c & Hc & Heq).
      apply String.eqb_eq in Heq. now subst. }
    destruct (Pd.get_loc param_name columns) as [i|]; [|discriminate].
    destruct (Pd.getitem row param_name) as [e|cell]; [discriminate|].
    cbn [try_].
    match goal with
    | |- try_ ?b1 _ = _ -> _ => destruct b1 as [e|lo']
    end; [discriminate|]. cbn [try_].
    match goal with
    | |- try_ ?b2 _ = _ -> _ => destruct b2 as [e|up']
    end; [discriminate|]. cbn [try_].
    intros [= <- <- <-]. destruct (isna cell) eqn:Hna.
    + split; [|reflexivity]. intros _. right. now exists cell.
    + split; [discriminate|].
      intros [Hout|(v & [= <-] & Hv)]; [contradiction|congruence].
  - intros [= <- <- <-]. split; [|reflexivity]. intros _. left.
    intros Hcol.
    assert (existsb (String.eqb param_name) columns = true).
    { apply existsb_exists. exists param_name. split; [assumption|].
      apply String.eqb_refl. }
    congruence.
Qed.

Lemma get_val_limits_returns_no_nan_witness :
  isna (Cell.Num 0.03%float) = false.
Proof.
  assert (Hget : _get_val_limits
                   (combine BatchScenario.header BatchScenario.star_a)
                   BatchScenario.header "ls"
                 = inr (Some (Cell.Num 0.1%float),
                        Some (Cell.Num 0.03%float), None))
    by (vm_compute; reflexivity).
  assert (Hd : Pd.distinct BatchScenario.header = true)
    by (vm_compute; reflexivity).
  assert (Hi : Pd.distinct
                 (Pd.index (combine BatchScenario.header BatchScenario.star_a))
               = true) by (vm_compute; reflexivity).
  destruct (get_val_limits_returns_no_nan _ _ _ _ _ _ Hd Hi Hget)
    as [Hnan _].
  apply Hnan. right. left. reflexivity.
Defined.

(** X11: on a row of a frame with distinct labels, [_get_val_limits] never
    raises and reads by position: the value from the column of the
    parameter, the lower limit from the next column and the upper limit
    from the one after, each limit on its own, only where that column
    exists and its label in lower case contains "lim", and only when the
    cell is not blank. *)
Theorem get_val_limits_reads_by_position {V F : Type} `{PyValue V F}
  (columns : list string) (cells : list V) (param_name : string) :
  Pd.distinct columns = true ->
  List.length cells = List.length columns ->
  _get_val_limits (combine columns cells) columns param_name
  = inr (match Pd.get_loc param_name columns with
         | None => (None, None, None)
         | Some i =>
             (not_na (nth_error cells i),
              limit_cell columns cells (i + 1),
              limit_cell columns cells (i + 2))
         end).
Proof. apply get_val_limits_combine. Qed.

Lemma get_val_limits_reads_by_position_witness :
  _get_val_limits (combine BatchScenario.header BatchScenario.star_a)
    BatchScenario.header "ls"
  = inr (Some (Cell.Num 0.1%float), Some (Cell.Num 0.03%float), None) /\
  _get_val_limits (combine BatchScenario.header BatchScenario.star_d)
    BatchScenario.header "t"
  = inr (None, None, None).
Proof.
  rewrite !get_val_limits_reads_by_position by (vm_compute; reflexivity).
  split; vm_compute; reflexivity.
Defined.

(** X12: the test that makes a column a limit column reduces to: its label
    in lower case contains "lim"; the second disjunct, on "limit", never
    decides.  A label passes exactly when it holds the letters l, i, m in a
    row, in any case. *)
Theorem limit_label_test (col : string) :
  contains "lim" (lower col) || contains "limit" (lower col)
  = contains "lim" (lower col) /\
  (contains "lim" (lower col) = true <->
   exists pre mid post,
     col = (pre ++ mid ++ post)%string /\ lower mid = "lim").
Proof.
  split; [apply limit_label|]. rewrite contains_app. split.
  - intros (lpre & lpost & Hlow).
    apply lower_split in Hlow as (pre & rest & -> & _ & Hrest).
    apply lower_split in Hrest as (mid & post & -> & Hmid & _).
    now exists pre, mid, post.
  - intros (pre & mid & post & -> & Hmid).
    exists (lower pre), (lower post). now rewrite !lower_app, Hmid.
Qed.

(** ** Batch mode and single-star mode *)

(** X13: batch mode raises only for a frame of fewer than 2 columns.
    Otherwise it adds three columns with one entry per row of the batch
    frame, whatever the rows hold; the three entries of a row are [None]
    together or numbers together, and a row reported as skipped has three
    [None]. *)
Theorem batch_rows_are_isolated {V F : Type} `{PyValue V F}
  (args : Cli.Namespace F) (df : DataFrame F) (batch_df : Pd.Frame V) :
  Pd.well_formed batch_df = true ->
  let n := List.length (Pd.rows batch_df) in
  (List.length (Pd.columns batch_df) < 2 ->
   exists msg, batch_mode args df batch_df = inl (ValueError msg)) /\
  (2 <= List.length (Pd.columns batch_df) ->
   exists m a r skipped,
     batch_mode args df batch_df
     = inr (match selected args with
            | Reliability =>
                [("reliability_match", m); ("reliability_alias", a);
                 ("reliability_recovery", r)]
            | Completeness =>
                [("completeness_match", m); ("completeness_alias", a);
                 ("completeness_recovery", r)]
            end, skipped) /\
     List.length m = n /\ List.length a = n /\ List.length r = n /\
     (forall i, i < n ->
        (nth_error m i = Some None /\ nth_error a i = Some None /\
         nth_error r i = Some None) \/
        (exists x y z,
           nth_error m i = Some (Some x) /\ nth_error a i = Some (Some y) /\
           nth_error r i = Some (Some z))) /\
     (forall i e, In (i, e) skipped ->
        nth_error m i = Some None /\ nth_error a i = Some None /\
        nth_error r i = Some None)).
Proof.
  intros _ n. unfold batch_mode. split.
  - intros Hlt. apply Nat.ltb_lt in Hlt. rewrite Hlt. now eexists.
  - intros Hge. apply Nat.ltb_ge in Hge. rewrite Hge.
    rewrite loop_lists. cbn [match_list alias_list recovery_list skipped app].
    set (cols := Pd.columns batch_df).
    set (items := Pd.iterrows batch_df).
    do 4 eexists. split; [|split; [|split; [|split; [|split]]]].
    + unfold selected.
      destruct (String.eqb (Cli.function args) "reliability"); reflexivity.
    + rewrite length_map. apply iterrows_length.
    + rewrite length_map. apply iterrows_length.
    + rewrite length_map. apply iterrows_length.
    + intros i Hi. destruct (iterrows_nth batch_df i Hi) as (cells & _ & Hit).
      fold items in Hit.
      rewrite !(map_nth_error _ _ _ Hit). cbn [snd].
      unfold row_values.
      destruct (try_row args df cols (combine (Pd.columns batch_df) cells))
        as [e|[[r1 r2] r3]] eqn:Htry; cbn [fst snd]; [now left|].
      apply try_row_all_or_nothing in Htry
        as [(-> & -> & ->)|(x & y & z & -> & -> & ->)];
        [now left|right; now exists x, y, z].
    + intros i e Hin. apply in_flat_map in Hin as ([j row] & Hitem & Hskip).
      unfold row_skipped in Hskip. cbn [fst snd] in Hskip.
      destruct (try_row args df cols row) as [e'|values] eqn:Htry;
        [|contradiction].
      destruct Hskip as [[= <- <-]|[]].
      apply iterrows_In in Hitem. fold items in Hitem.
      rewrite !(map_nth_error _ _ _ Hitem). cbn [snd].
      unfold row_values. now rewrite Htry.
Qed.

Lemma batch_rows_are_isolated_witness :
  exists m a r skipped,
    batch_mode BatchScenario.args Scenario.catalog BatchScenario.batch
    = inr ([("reliability_match", m); ("reliability_alias", a);
            ("reliability_recovery", r)], skipped) /\
    List.length m = 4.
Proof.
  destruct (batch_rows_are_isolated BatchScenario.args Scenario.catalog
              BatchScenario.batch) as [_ Hrun]; [vm_compute; reflexivity|].
  destruct Hrun as (m & a & r & skipped & Hrun & Hm & _);
    [vm_compute; lia|].
  exists m, a, r, skipped. split; [exact Hrun|exact Hm].
Defined.

(** The columns of the scenario: the first row gives 3/4, 0 and 3/4; the
    second and the third raise and are reported; the fourth has an empty
    box and gives [None] without a report. *)
Example batch_mode_scenario :
  batch_mode BatchScenario.args Scenario.catalog BatchScenario.batch
  = inr ([("reliability_match", [Some 0.75%float; None; None; None]);
          ("reliability_alias", [Some 0%float; None; None; None]);
          ("reliability_recovery", [Some 0.75%float; None; None; None])],
         [(1, Raised (AssertionError
                        "Please specify a value for at least one of LS, T, SNR"));
          (2, ValueError "could not convert string to float: 'unknown'")]).
Proof. vm_compute. reflexivity. Qed.

(** X14: for a row whose cells convert, the three entries batch mode
    appends are what the selected estimator returns in the modes 'match',
    'alias' and 'recovery' on those values, and an exception of the
    estimator ends the row.  The period limits are those of the command
    line; a limit of a supplied parameter that the row does not give is
    the one of the command line, lower and upper separately. *)
Theorem batch_row_runs_the_estimator {V F : Type} `{PyValue V F}
  (args : Cli.Namespace F) (df : DataFrame F)
  (columns : list string) (cells : list V)
  (vp : V) (lsv lsl lsu tv tl tu sv sl su : option V) (b : Args F) :
  Pd.distinct columns = true ->
  List.length cells = List.length columns ->
  let row := combine columns cells in
  Pd.get row "input_period" = Some vp ->
  _get_val_limits row columns "ls" = inr (lsv, lsl, lsu) ->
  _get_val_limits row columns "t" = inr (tv, tl, tu) ->
  _get_val_limits row columns "snr" = inr (sv, sl, su) ->
  converted (call args vp lsv lsl lsu tv tl tu sv sl su "match") b ->
  try_row args df columns row
  = (r_match <~ propagate (run (selected args) df (with_mode b Match)) ;;
     r_alias <~ propagate (run (selected args) df (with_mode b Alias)) ;;
     r_recovery <~ propagate (run (selected args) df (with_mode b Recovery)) ;;
     inr (r_match, r_alias, r_recovery)) /\
  period_lower_limit b = Cli.period_lower_limit args /\
  period_upper_limit b = Cli.period_upper_limit args /\
  (lsv <> None -> lsl = None -> ls_lower_limit b = Cli.ls_lower_limit args) /\
  (lsv <> None -> lsu = None -> ls_upper_limit b = Cli.ls_upper_limit args) /\
  (tv <> None -> tl = None -> t_lower_limit b = Cli.t_lower_limit args) /\
  (tv <> None -> tu = None -> t_upper_limit b = Cli.t_upper_limit args) /\
  (sv <> None -> sl = None -> snr_lower_limit b = Cli.snr_lower_limit args) /\
  (sv <> None -> su = None -> snr_upper_limit b = Cli.snr_upper_limit args).
Proof.
  intros _ _ row Hp Hls Ht Hs Hc. split.
  - rewrite (try_row_calls args df columns row vp _ _ _ _ _ _ _ _ _
               Hp Hls Ht Hs). cbv zeta.
    rewrite !(untyped_converted _ df _ _ (converted_with_mode _ _ _ Hc)).
    now rewrite !result_lift.
  - destruct Hc as (_ & Hpl & Hpu & Hl & Ht' & Hs' & _).
    cbn [call period_lower_limit period_upper_limit ls ls_lower_limit
         ls_upper_limit t t_lower_limit t_upper_limit snr snr_lower_limit
         snr_upper_limit] in *.
    rewrite float_of_float in Hpl, Hpu. injection Hpl as <-. injection Hpu as <-.
    unfold converted_axis in Hl, Ht', Hs'.
    repeat split; intros Hv Hnone; subst;
      match goal with
      | Hax : match ?o with Some _ => _ | None => _ end |- _ =>
          destruct o; [|contradiction]
      end.
    + destruct (ls b); [|contradiction]. destruct Hl as (_ & Hlo & _).
      cbn in Hlo. rewrite float_of_float in Hlo. now injection Hlo.
    + destruct (ls b); [|contradiction]. destruct Hl as (_ & _ & Hup).
      cbn in Hup. rewrite float_of_float in Hup. now injection Hup.
    + destruct (t b); [|contradiction]. destruct Ht' as (_ & Hlo & _).
      cbn in Hlo. rewrite float_of_float in Hlo. now injection Hlo.
    + destruct (t b); [|contradiction]. destruct Ht' as (_ & _ & Hup).
      cbn in Hup. rewrite float_of_float in Hup. now injection Hup.
    + destruct (snr b); [|contradiction]. destruct Hs' as (_ & Hlo & _).
      cbn in Hlo. rewrite float_of_float in Hlo. now injection Hlo.
    + destruct (snr b); [|contradiction]. destruct Hs' as (_ & _ & Hup).
      cbn in Hup. rewrite float_of_float in Hup. now injection Hup.
Qed.

Lemma batch_row_runs_the_estimator_witness :
  try_row BatchScenario.args Scenario.catalog BatchScenario.header
    (combine BatchScenario.header BatchScenario.star_a)
  = inr (Some 0.75%float, Some 0%float, Some 0.75%float).
Proof.
  set (row := combine BatchScenario.header BatchScenario.star_a).
  assert (Hd : Pd.distinct BatchScenario.header = true)
    by (vm_compute; reflexivity).
  assert (Hp : Pd.get row "input_period" = Some (Cell.Num 9%float))
    by (vm_compute; reflexivity).
  assert (Hls : _get_val_limits row BatchScenario.header "ls"
                = inr (Some (Cell.Num 0.1%float),
                       Some (Cell.Num 0.03%float), None))
    by (vm_compute; reflexivity).
  assert (Ht : _get_val_limits row BatchScenario.header "t"
               = inr (None, None, None)) by (vm_compute; reflexivity).
  assert (Hs : _get_val_limits row BatchScenario.header "snr"
               = inr (None, None, None)) by (vm_compute; reflexivity).
  assert (Hc : converted
                 (call BatchScenario.args (Cell.Num 9%float)
                    (Some (Cell.Num 0.1%float)) (Some (Cell.Num 0.03%float))
                    None None None None None None None "match")
                 BatchScenario.star_a_call).
  { unfold converted, converted_axis. cbn. repeat split; reflexivity. }
  destruct (batch_row_runs_the_estimator BatchScenario.args Scenario.catalog
              BatchScenario.header BatchScenario.star_a _ _ _ _ _ _ _ _ _ _
              BatchScenario.star_a_call Hd eq_refl Hp Hls Ht Hs Hc)
    as [Hrow _].
  fold row in Hrow. rewrite Hrow. vm_compute. reflexivity.
Defined.

(** X15: a row whose [input_period] is absent or blank, or whose [ls], [t]
    and [snr] are all absent or blank, raises in the [try] body: batch mode
    appends three [None] for it. *)
Theorem row_without_period_or_parameter_is_skipped {V F : Type} `{PyValue V F}
  (args : Cli.Namespace F) (df : DataFrame F)
  (columns : list string) (cells : list V) :
  Pd.distinct columns = true ->
  List.length cells = List.length columns ->
  let row := combine columns cells in
  let blank := fun label =>
    match Pd.get row label with
    | Some v => isna v
    | None => true
    end in
  blank "input_period" = true \/
  (blank "ls" = true /\ blank "t" = true /\ blank "snr" = true) ->
  exists e,
    try_row args df columns row = inl e /\
    row_values args df columns row = (None, None, None).
Proof.
  intros Hd Hlen row blank Hblank.
  assert (Hinl : exists e, try_row args df columns row = inl e).
  { destruct (Pd.get row "input_period") as [vp|] eqn:Hp.
    2:{ unfold try_row. rewrite Hp. now eexists. }
    destruct (get_val_limits_val columns cells "ls" Hd Hlen)
      as (lsl & lsu & Hls).
    destruct (get_val_limits_val columns cells "t" Hd Hlen)
      as (tl & tu & Ht).
    destruct (get_val_limits_val columns cells "snr" Hd Hlen)
      as (sl & su & Hs).
    fold row in Hls, Ht, Hs.
    rewrite (try_row_calls args df columns row vp _ _ _ _ _ _ _ _ _
               Hp Hls Ht Hs). cbv zeta.
    match goal with
    | |- context [Untyped.run ?est df (with_mode ?c Match)] =>
        assert (Hfail : exists e,
                  Untyped.result (Untyped.run est df (with_mode c Match))
                  = inl e)
    end.
    { destruct Hblank as [Hip|(Hbls & Hbt & Hbs)].
      - apply untyped_nan_period. unfold blank in Hip. rewrite Hp in Hip.
        exact Hip.
      - unfold blank in Hbls, Hbt, Hbs.
        apply untyped_no_parameter; cbn [with_mode call ls t snr];
          unfold not_na.
        + destruct (Pd.get row "ls"); [now rewrite Hbls|reflexivity].
        + destruct (Pd.get row "t"); [now rewrite Hbt|reflexivity].
        + destruct (Pd.get row "snr"); [now rewrite Hbs|reflexivity]. }
    destruct Hfail as [e He]. rewrite He. now exists e. }
  destruct Hinl as [e He]. exists e. split; [exact He|].
  unfold row_values. now rewrite He.
Qed.

Lemma row_without_period_or_parameter_is_skipped_witness :
  exists e,
    try_row BatchScenario.args Scenario.catalog BatchScenario.header
      (combine BatchScenario.header BatchScenario.star_b) = inl e /\
    row_values BatchScenario.args Scenario.catalog BatchScenario.header
      (combine BatchScenario.header BatchScenario.star_b) = (None, None, None).
Proof.
  apply (row_without_period_or_parameter_is_skipped BatchScenario.args
           Scenario.catalog BatchScenario.header BatchScenario.star_b);
    try (vm_compute; reflexivity).
  right. repeat split; vm_compute; reflexivity.
Defined.

(** X16: single-star mode without [--ls], [--t] and [--snr] always raises:
    [ValueError] when [--input-period] is missing too, otherwise the
    assertion on the period or the assertion that asks for one of LS, T,
    SNR; the exception is not caught. *)
Theorem single_star_needs_a_parameter {F : Type} `{PyFloat F}
  (args : Cli.Namespace F) (df : DataFrame F) :
  Cli.ls args = None -> Cli.t args = None -> Cli.snr args = None ->
  exists e,
    single_star args df = inl e /\
    ((Cli.input_period args = None /\ exists msg, e = ValueError msg) \/
     e = Raised (AssertionError (error_message (selected args) InvalidPeriod)) \/
     e = Raised (AssertionError
                   "Please specify a value for at least one of LS, T, SNR")).
Proof.
  intros Hls Ht Hs. unfold single_star.
  destruct (Cli.input_period args) as [p|].
  2:{ eexists. split; [reflexivity|]. left. split; [reflexivity|now eexists]. }
  rewrite Hls, Ht, Hs.
  match goal with
  | |- context [calculate_reliability df ?a0] => set (a := a0)
  end.
  assert (Hk : first_failure a = Some InvalidPeriod \/
               first_failure a = Some NoAuxiliaryParameter).
  { unfold first_failure. destruct (check_period a); [right|left]; reflexivity. }
  assert (Hrun : forall est k, first_failure a = Some k ->
            propagate (run est df a)
            = inl (Raised (AssertionError (error_message est k)))).
  { intros est k Hf. unfold propagate. now rewrite (run_failure est df a k Hf). }
  unfold selected.
  destruct (String.eqb (Cli.function args) "reliability");
    [change (calculate_reliability df a) with (run Reliability df a)
    |change (calculate_completeness df a) with (run Completeness df a)];
    destruct Hk as [Hk|Hk]; rewrite (Hrun _ _ Hk); eexists; split;
      try reflexivity; auto.
Qed.

Lemma single_star_needs_a_parameter_witness :
  exists e, single_star BatchScenario.args_single Scenario.catalog = inl e.
Proof.
  destruct (single_star_needs_a_parameter BatchScenario.args_single
              Scenario.catalog eq_refl eq_refl eq_refl) as (e & He & _).
  now exists e.
Defined.
